(** * Decentralized trust management for VANETs: ledger, anomaly detector, routers

    A shallow embedding of [blockchain.py], [rsu.py], [vehicle.py], the three
    routers of [algorithms/] ([tmr.py], [gytar.py], [aodv.py]) and the counting
    parts of [simulation.py], followed by the properties of the design
    document that concern them and by further properties of the code.

    Conventions of the embedding.
    - Python numbers ([int] and [float]) that take part in arithmetic are real
      numbers; a comparison is a [decide] on the corresponding relation of [R].
      Rounding, infinities and NaN are not modelled.
    - [time.time()] is an input: every function that reads the clock takes the
      reading(s) as explicit arguments, in the order the source reads them.
    - A [dict] keyed by vehicle id is a [gmap string _]; a [dict] whose
      iteration order decides the result (the neighbour snapshot handed to a
      router, a route cache) is an association list in insertion order.
    - A [while] loop is a function with fuel that returns [None] when the fuel
      is spent; an exception is [None] as well, or an outcome that carries
      the state left behind where a caller goes on from that state.
    - A random draw is an input, like the clock: a function that draws takes
      the values drawn as explicit arguments.
    - The datagrams a listener thread receives are a list, in arrival order. *)

From Stdlib Require Import Reals Lra Lia ZArith.
From stdpp Require Import gmap strings list fin_maps pretty.

Set Default Proof Using "Type*".

#[global] Instance Rle_decision (a b : R) : Decision (a <= b)%R := Rle_dec a b.
#[global] Instance Rlt_decision (a b : R) : Decision (a < b)%R := Rlt_dec a b.
#[global] Instance R_eq_decision : EqDecision R := Req_dec_T.

(** ** Python values stored in ledger payloads

    [F] is the carrier of floats: the ledger never computes with them, it only
    stores and serialises them. *)

#[warnings="-register-all"]
Inductive pyval (F : Type) : Type :=
| PNone
| PBool (b : bool)
| PInt (n : Z)
| PFloat (f : F)
| PStr (s : string)
| PList (l : list (pyval F))
| PDict (d : list (string * pyval F)).

Arguments PNone {F}.
Arguments PBool {F} b.
Arguments PInt {F} n.
Arguments PFloat {F} f.
Arguments PStr {F} s.
Arguments PList {F} l.
Arguments PDict {F} d.

(** ** config.py *)

Module Config.

Definition NETWORK_LENGTH : Z := 3000.
Definition NETWORK_WIDTH : Z := 3000.
Definition VEHICLE_MIN_VELOCITY : Z := 60.
Definition VEHICLE_MAX_VELOCITY : Z := 100.
Definition RSU_RADIUS : Z := 1000.
Definition MIN_VEHICLES : Z := 11.
Definition MAX_VEHICLES : Z := 101.
Definition MAX_V2V_RANGE : Z := 300.

End Config.

(** ** blockchain.py *)

Module Ledger.
Section Ledger.

Context {F : Type}.

(** [hashlib.sha256(json.dumps(d, sort_keys=True).encode()).hexdigest()] as a
    function of the dictionary [d], given as its items. *)
Variable sha256_json : list (string * pyval F) -> string.

Record Block : Type := mkBlock {
  index : Z;
  timestamp : F;
  data : pyval F;
  previous_hash : string;
  hash : string
}.

(** [self.__dict__] while [__init__] runs, before [self.hash] is assigned. *)
Definition init_dict (i : Z) (t : F) (d : pyval F) (p : string)
  : list (string * pyval F) :=
  [("index", PInt i); ("timestamp", PFloat t); ("data", d);
   ("previous_hash", PStr p)].

(** [self.__dict__] of a constructed block: the four attributes and [hash]. *)
Definition __dict__ (b : Block) : list (string * pyval F) :=
  init_dict (index b) (timestamp b) (data b) (previous_hash b)
    ++ [("hash", PStr (hash b))].

(** [Block.calculate_hash]: the digest of whatever [self.__dict__] holds when
    the method is called. *)
Definition calculate_hash (self_dict : list (string * pyval F)) : string :=
  sha256_json self_dict.

(** [Block.__init__]. *)
Definition Block__init__ (i : Z) (t : F) (d : pyval F) (p : string) : Block :=
  {| index := i; timestamp := t; data := d; previous_hash := p;
     hash := calculate_hash (init_dict i t d p) |}.

Record Blockchain : Type := mkBlockchain {
  chain : list Block;
  malicious_vehicles : gset string
}.

Definition create_genesis_block (now : F) : Block :=
  Block__init__ 0 now (PDict [("message", PStr "Genesis Block")]) "0".

(** [Blockchain.__init__]. *)
Definition Blockchain__init__ (now : F) : Blockchain :=
  {| chain := [create_genesis_block now]; malicious_vehicles := ∅ |}.

(** [self.chain[-1]]; [None] is the [IndexError] of an empty list. *)
Definition get_latest_block (bc : Blockchain) : option Block :=
  last (chain bc).

Definition add_block (bc : Blockchain) (d : pyval F) (now : F)
  : option (Block * Blockchain) :=
  previous_block ← get_latest_block bc;
  let new_block :=
    Block__init__ (index previous_block + 1) now d (hash previous_block) in
  Some (new_block,
        {| chain := chain bc ++ [new_block];
           malicious_vehicles := malicious_vehicles bc |}).

(** One iteration of the loop of [is_chain_valid], at index [i]: [false] is
    the [return False] of either test. *)
Definition block_ok (c : list Block) (i : nat) : bool :=
  match c !! i, c !! (i - 1)%nat with
  | Some current_block, Some previous_block =>
      if decide (hash current_block ≠ calculate_hash (__dict__ current_block))
      then false
      else if decide (previous_hash current_block ≠ hash previous_block)
      then false
      else true
  | _, _ => true
  end.

(** [for i in range(1, len(self.chain))]. *)
Definition is_chain_valid (bc : Blockchain) : bool :=
  forallb (block_ok (chain bc)) (seq 1 (length (chain bc) - 1)).

Definition malicious_payload (vehicle_id : string) (t : F) : pyval F :=
  PDict [("type", PStr "malicious_vehicle"); ("vehicle_id", PStr vehicle_id);
         ("timestamp", PFloat t)].

(** [t_payload] is the clock read for the payload, [t_block] the one read by
    [add_block]. *)
Definition add_malicious_vehicle (bc : Blockchain) (vehicle_id : string)
    (t_payload t_block : F) : option Blockchain :=
  let bc1 := {| chain := chain bc;
                malicious_vehicles := {[vehicle_id]} ∪ malicious_vehicles bc |} in
  '(_, bc2) ← add_block bc1 (malicious_payload vehicle_id t_payload) t_block;
  Some bc2.

Definition get_malicious_vehicles (bc : Blockchain) : gset string :=
  malicious_vehicles bc.

Definition vehicle_data_payload (vehicle_id : string) (location : pyval F)
    (speed direction : F) (message : string) (t : F) : pyval F :=
  PDict [("type", PStr "vehicle_data"); ("vehicle_id", PStr vehicle_id);
         ("location", location); ("speed", PFloat speed);
         ("direction", PFloat direction); ("message", PStr message);
         ("timestamp", PFloat t)].

Definition record_vehicle_data (bc : Blockchain) (vehicle_id : string)
    (location : pyval F) (speed direction : F) (message : string)
    (t_payload t_block : F) : option Blockchain :=
  '(_, bc') ← add_block bc
    (vehicle_data_payload vehicle_id location speed direction message t_payload)
    t_block;
  Some bc'.

Definition rsu_data_payload (rsu_id : string) (connected_vehicles : list string)
    (traffic_data : pyval F) (t : F) : pyval F :=
  PDict [("type", PStr "rsu_data"); ("rsu_id", PStr rsu_id);
         ("connected_vehicles", PList (PStr <$> connected_vehicles));
         ("traffic_data", traffic_data); ("timestamp", PFloat t)].

Definition record_rsu_data (bc : Blockchain) (rsu_id : string)
    (connected_vehicles : list string) (traffic_data : pyval F)
    (t_payload t_block : F) : option Blockchain :=
  '(_, bc') ← add_block bc
    (rsu_data_payload rsu_id connected_vehicles traffic_data t_payload) t_block;
  Some bc'.

(** The appending operations of the ledger, with their arguments and the
    clock readings they consume. *)
Inductive call : Type :=
| Add_block (d : pyval F) (now : F)
| Record_vehicle_data (vehicle_id : string) (location : pyval F)
    (speed direction : F) (message : string) (t_payload t_block : F)
| Record_rsu_data (rsu_id : string) (connected_vehicles : list string)
    (traffic_data : pyval F) (t_payload t_block : F)
| Add_malicious_vehicle (vehicle_id : string) (t_payload t_block : F).

Definition run_call (bc : Blockchain) (c : call) : option Blockchain :=
  match c with
  | Add_block d now => snd <$> add_block bc d now
  | Record_vehicle_data v l s d m t1 t2 => record_vehicle_data bc v l s d m t1 t2
  | Record_rsu_data r cv td t1 t2 => record_rsu_data bc r cv td t1 t2
  | Add_malicious_vehicle v t1 t2 => add_malicious_vehicle bc v t1 t2
  end.

Fixpoint run_calls (bc : Blockchain) (cs : list call) : option Blockchain :=
  match cs with
  | [] => Some bc
  | c :: cs' => bc' ← run_call bc c; run_calls bc' cs'
  end.

(** Outside interference with a stored block: [chain[i].data = d'], or a
    caller changing in place a dictionary it has handed to the ledger, which
    the block holds by reference. The stored [hash] is left as it was. *)
Definition set_data (d' : pyval F) (b : Block) : Block :=
  {| index := index b; timestamp := timestamp b; data := d';
     previous_hash := previous_hash b; hash := hash b |}.

Definition corrupt (i : nat) (d' : pyval F) (bc : Blockchain) : Blockchain :=
  {| chain := alter (set_data d') i (chain bc);
     malicious_vehicles := malicious_vehicles bc |}.

(** The payload a call hands to [add_block], and the clock reading
    [add_block] stamps the block with. *)
Definition call_payload (c : call) : pyval F :=
  match c with
  | Add_block d _ => d
  | Record_vehicle_data v l s d m t1 _ => vehicle_data_payload v l s d m t1
  | Record_rsu_data r cv td t1 _ => rsu_data_payload r cv td t1
  | Add_malicious_vehicle v t1 _ => malicious_payload v t1
  end.

Definition call_block_time (c : call) : F :=
  match c with
  | Add_block _ now => now
  | Record_vehicle_data _ _ _ _ _ _ t2 => t2
  | Record_rsu_data _ _ _ _ t2 => t2
  | Add_malicious_vehicle _ _ t2 => t2
  end.

(** The vehicle a call marks as malicious, if it is a marking. *)
Definition call_marks (c : call) : option string :=
  match c with
  | Add_malicious_vehicle v _ _ => Some v
  | _ => None
  end.

(** What the ledger is meant to maintain: the chain is never empty, every
    block after the first points at its predecessor and continues its
    numbering, and every stored hash is the digest taken by [__init__], over
    the four other attributes. *)
Definition chain_invariant (c : list Block) : Prop :=
  c ≠ [] ∧
  (∀ (i : nat) cur prev, c !! S i = Some cur → c !! i = Some prev →
     previous_hash cur = hash prev ∧ index cur = (index prev + 1)%Z) ∧
  (∀ b, b ∈ c →
     hash b = sha256_json
                (init_dict (index b) (timestamp b) (data b) (previous_hash b))).

End Ledger.

Arguments Block : clear implicits.
Arguments Blockchain : clear implicits.
Arguments call : clear implicits.

End Ledger.

(** ** Locations, neighbour snapshots and route caches shared by the routers *)

Module Routing.

#[local] Open Scope R_scope.

(** A location dictionary [{'x': _, 'y': _}]. *)
Record Location : Type := mkLocation { loc_x : R; loc_y : R }.

#[global] Instance Location_eq_decision : EqDecision Location.
Proof. solve_decision. Defined.

(** The entries of the neighbour snapshot that the routers read. *)
Record Vehicle : Type := mkVehicle { location : Location; speed : R }.

(** The caller's [vehicles] dictionary, in iteration order. *)
Abbreviation Vehicles := (list (string * Vehicle)).

(** [traffic_data]: the routers only call [.get('congestion_level', 0)]. *)
Record Traffic : Type := mkTraffic { congestion_level : option R }.

Definition get_congestion_level (traffic_data : Traffic) : R :=
  default 0 (congestion_level traffic_data).

(** [_distance], the same static method in the three routers. *)
Definition _distance (point1 point2 : Location) : R :=
  sqrt ((loc_x point1 - loc_x point2) ^ 2 + (loc_y point1 - loc_y point2) ^ 2).

(** [score > best_score] where [best_score] starts at [float('-inf')]:
    [None] is minus infinity. *)
Definition exceeds (score : R) (best_score : option R) : bool :=
  match best_score with
  | None => true
  | Some b => bool_decide (score > b)
  end.

(** [(speed - VEHICLE_MIN_VELOCITY) / (VEHICLE_MAX_VELOCITY - VEHICLE_MIN_VELOCITY)]. *)
Definition normalized_speed (s : R) : R :=
  (s - IZR Config.VEHICLE_MIN_VELOCITY)
  / (IZR Config.VEHICLE_MAX_VELOCITY - IZR Config.VEHICLE_MIN_VELOCITY).

(** A Python dictionary whose iteration order matters: its items in
    insertion order, one per key. *)
Section PyDict.

Context {K V : Type} `{EqDecision K}.

Fixpoint dict_get (k : K) (d : list (K * V)) : option V :=
  match d with
  | [] => None
  | (k', v) :: d' => if decide (k = k') then Some v else dict_get k d'
  end.

(** [d[k] = v]: replaces the value of an existing key in place, appends a new
    key. *)
Fixpoint dict_set (k : K) (v : V) (d : list (K * V)) : list (K * V) :=
  match d with
  | [] => [(k, v)]
  | (k', v') :: d' =>
      if decide (k = k') then (k', v) :: d' else (k', v') :: dict_set k v d'
  end.

(** [del d[k]] for a key that is present. *)
Fixpoint dict_del (k : K) (d : list (K * V)) : list (K * V) :=
  match d with
  | [] => []
  | (k', v') :: d' =>
      if decide (k = k') then d' else (k', v') :: dict_del k d'
  end.

End PyDict.

Abbreviation Route := (list Location).

(** The route key is the formatted quadruple of coordinates. The model keeps
    the coordinates themselves: two requests with the same key string have
    the same coordinates, so a cache miss here is a cache miss of the code.
    The converse does not hold (the same number written 0 and 0.0 gives two
    strings), so the properties below are stated at a cache miss and none
    relies on a hit. *)
Abbreviation RouteKey := (Location * Location)%type.

Definition route_key (source_location destination_location : Location)
  : RouteKey := (source_location, destination_location).

(** [route_cache]: a dictionary from route keys to routes. *)
Abbreviation RouteCache := (list (RouteKey * Route)).

(** The property of a path asked for by the design: every pair of consecutive
    waypoints except possibly the last pair is within [MAX_V2V_RANGE]. *)
Definition hops_in_range (path : Route) : Prop :=
  ∀ (i : nat) p q, path !! i = Some p → path !! S i = Some q →
    (S (S i) < length path)%nat →
    _distance p q <= IZR Config.MAX_V2V_RANGE.

(** Every pair of consecutive waypoints, the last pair included, is within
    [MAX_V2V_RANGE]. *)
Definition links_in_range (path : Route) : Prop :=
  ∀ (i : nat) p q, path !! i = Some p → path !! S i = Some q →
    _distance p q <= IZR Config.MAX_V2V_RANGE.

(** A sequence of hops from [current], each strictly closer to [target] than
    the position it is taken from. *)
Fixpoint descending (target current : Location) (hops : list Location) : Prop :=
  match hops with
  | [] => True
  | h :: hops' =>
      _distance h target < _distance current target ∧ descending target h hops'
  end.

(** The candidates strictly closer to the destination than [p]: their number
    bounds the hops still possible from [p]. *)
Definition closer_than (vs : Vehicles) (target p : Location) : list (string * Vehicle) :=
  filter (λ item, _distance (location item.2) target < _distance p target) vs.

End Routing.

(** ** algorithms/tmr.py *)

Module TMR.

Import Routing.
#[local] Open Scope R_scope.

Definition _is_forward_progress (current next_hop destination : Location) : bool :=
  let current_dist := _distance current destination in
  let next_dist := _distance next_hop destination in
  bool_decide (next_dist < current_dist).

Definition _calculate_hop_score (current next_hop destination : Location)
    (speed congestion : R) : R :=
  let progress := _distance current destination - _distance next_hop destination in
  let speed_factor := normalized_speed speed in
  let congestion_penalty := 1 - congestion in
  0.5 * progress + 0.3 * speed_factor + 0.2 * congestion_penalty.

(** The body of the loop of [_find_next_hop] on the pair
    [(best_score, best_next_hop)]. *)
Definition next_hop_step (current_pos destination : Location)
    (traffic_data : Traffic) (best : option R * option Location)
    (item : string * Vehicle) : option R * option Location :=
  let vehicle_data := item.2 in
  if _is_forward_progress current_pos (location vehicle_data) destination then
    let score :=
      _calculate_hop_score current_pos (location vehicle_data) destination
        (speed vehicle_data) (get_congestion_level traffic_data) in
    if exceeds score best.1 then (Some score, Some (location vehicle_data))
    else best
  else best.

Definition _find_next_hop (current_pos destination : Location)
    (vehicles : Vehicles) (traffic_data : Traffic) : option Location :=
  (foldl (next_hop_step current_pos destination traffic_data)
         (None, None) vehicles).2.

(** The [while] loop of [find_route] on [(current_pos, route)]; the result is
    the route when the loop is left. *)
Fixpoint find_route_loop (fuel : nat) (destination_location : Location)
    (vehicles : Vehicles) (traffic_data : Traffic)
    (current_pos : Location) (route : Route) : option Route :=
  match fuel with
  | O => None
  | S fuel' =>
      if decide (_distance current_pos destination_location > 100) then
        match _find_next_hop current_pos destination_location vehicles
                traffic_data with
        | None => Some route
        | Some next_hop =>
            find_route_loop fuel' destination_location vehicles traffic_data
              next_hop (route ++ [next_hop])
        end
      else Some route
  end.

(** [find_route]: the returned route and the router's cache afterwards. *)
Definition find_route (fuel : nat) (route_cache : RouteCache)
    (source_location destination_location : Location)
    (vehicles : Vehicles) (traffic_data : Traffic)
  : option (Route * RouteCache) :=
  let key := route_key source_location destination_location in
  match dict_get key route_cache with
  | Some cached => Some (cached, route_cache)
  | None =>
      route ← find_route_loop fuel destination_location vehicles traffic_data
                source_location [source_location];
      let route := route ++ [destination_location] in
      Some (route, dict_set key route route_cache)
  end.

(** [update_traffic]: [if len(self.route_cache) > 100: self.route_cache.clear()];
    [traffic_data] is not read. *)
Definition update_traffic (route_cache : RouteCache) (traffic_data : Traffic)
  : RouteCache :=
  if decide (100 < length route_cache)%nat then [] else route_cache.

End TMR.

(** ** algorithms/gytar.py *)

Module GyTAR.

Import Routing.
#[local] Open Scope R_scope.

(** [range(start, stop, step)] for a positive [step]. *)
Definition py_range (start stop step : Z) : list Z :=
  (λ k : nat, (start + step * Z.of_nat k)%Z)
    <$> seq 0 (Z.to_nat ((stop - start + step - 1) / step)).

Definition grid_size : Z := 500.

(** A junction [{'x': x, 'y': y}] of the grid, with integer coordinates. *)
Definition junction_at (x y : Z) : Location :=
  {| loc_x := IZR x; loc_y := IZR y |}.

Definition _get_potential_junctions (current_pos : Location) : list Location :=
  x ← py_range 0 Config.NETWORK_LENGTH grid_size;
  y ← py_range 0 Config.NETWORK_WIDTH grid_size;
  if decide (_distance current_pos (junction_at x y)
             <= IZR Config.MAX_V2V_RANGE)
  then [junction_at x y] else [].

Definition _calculate_traffic_density (junction : Location)
    (vehicles : Vehicles) : R :=
  let max_vehicles := IZR Config.MAX_VEHICLES * 0.1 in
  let vehicles_in_range :=
    length (filter (λ item : string * Vehicle,
                      _distance junction (location item.2)
                      <= IZR Config.MAX_V2V_RANGE) vehicles) in
  Rmin 1 (INR vehicles_in_range / max_vehicles).

(** In Python the division raises [ZeroDivisionError] when [current_pos] is
    the destination; [find_route] only asks for a junction when the two are
    more than 100 m apart. *)
Definition _calculate_junction_score (current_pos junction destination : Location)
    (vehicles : Vehicles) (traffic_data : Traffic) : R :=
  let current_to_dest := _distance current_pos destination in
  let junction_to_dest := _distance junction destination in
  let direction_score := (current_to_dest - junction_to_dest) / current_to_dest in
  let density_score := _calculate_traffic_density junction vehicles in
  let congestion_score := 1 - get_congestion_level traffic_data in
  0.4 * direction_score + 0.4 * density_score + 0.2 * congestion_score.

(** The body of the loop of [_find_next_junction] on the pair
    [(best_score, best_junction)]. *)
Definition next_junction_step (current_pos destination : Location)
    (vehicles : Vehicles) (traffic_data : Traffic)
    (best : option R * option Location) (junction : Location)
  : option R * option Location :=
  let score :=
    _calculate_junction_score current_pos junction destination vehicles
      traffic_data in
  if exceeds score best.1 then (Some score, Some junction) else best.

Definition _find_next_junction (current_pos destination : Location)
    (vehicles : Vehicles) (traffic_data : Traffic) : option Location :=
  (foldl (next_junction_step current_pos destination vehicles traffic_data)
         (None, None) (_get_potential_junctions current_pos)).2.

Definition _is_forward_progress (current next_hop target : Location) : bool :=
  let current_dist := _distance current target in
  let next_dist := _distance next_hop target in
  bool_decide (next_dist < current_dist).

Definition _calculate_vehicle_hop_score (current next_hop target : Location)
    (speed : R) : R :=
  let progress := _distance current target - _distance next_hop target in
  let speed_factor := normalized_speed speed in
  0.7 * progress + 0.3 * speed_factor.

Definition next_vehicle_hop_step (current target : Location)
    (best : option R * option Location) (item : string * Vehicle)
  : option R * option Location :=
  let vehicle_data := item.2 in
  if _is_forward_progress current (location vehicle_data) target then
    let score :=
      _calculate_vehicle_hop_score current (location vehicle_data) target
        (speed vehicle_data) in
    if exceeds score best.1 then (Some score, Some (location vehicle_data))
    else best
  else best.

Definition _find_next_vehicle_hop (current target : Location)
    (vehicles : Vehicles) : option Location :=
  (foldl (next_vehicle_hop_step current target) (None, None) vehicles).2.

(** The [while] loop of [_find_path_to_junction] on [(current, path)]. *)
Fixpoint path_to_junction_loop (fuel : nat) (junction : Location)
    (vehicles : Vehicles) (current : Location) (path : Route) : option Route :=
  match fuel with
  | O => None
  | S fuel' =>
      if decide (_distance current junction > 100) then
        match _find_next_vehicle_hop current junction vehicles with
        | None => Some path
        | Some next_hop =>
            path_to_junction_loop fuel' junction vehicles next_hop
              (path ++ [next_hop])
        end
      else Some path
  end.

Definition _find_path_to_junction (fuel : nat) (start junction : Location)
    (vehicles : Vehicles) : option Route :=
  path ← path_to_junction_loop fuel junction vehicles start [start];
  Some (path ++ [junction]).

(** The [while] loop of [find_route] on [(current_pos, route)]. [fuel] bounds
    its iterations, [path_fuel] those of each [_find_path_to_junction]. *)
Fixpoint find_route_loop (fuel path_fuel : nat) (destination_location : Location)
    (vehicles : Vehicles) (traffic_data : Traffic)
    (current_pos : Location) (route : Route) : option Route :=
  match fuel with
  | O => None
  | S fuel' =>
      if decide (_distance current_pos destination_location > 100) then
        match _find_next_junction current_pos destination_location vehicles
                traffic_data with
        | None => Some route
        | Some next_junction =>
            path_to_junction ←
              _find_path_to_junction path_fuel current_pos next_junction
                vehicles;
            find_route_loop fuel' path_fuel destination_location vehicles
              traffic_data next_junction (route ++ path_to_junction)
        end
      else Some route
  end.

Definition find_route (fuel path_fuel : nat) (route_cache : RouteCache)
    (source_location destination_location : Location)
    (vehicles : Vehicles) (traffic_data : Traffic)
  : option (Route * RouteCache) :=
  let key := route_key source_location destination_location in
  match dict_get key route_cache with
  | Some cached => Some (cached, route_cache)
  | None =>
      route ← find_route_loop fuel path_fuel destination_location vehicles
                traffic_data source_location [source_location];
      let route := route ++ [destination_location] in
      Some (route, dict_set key route route_cache)
  end.

(** [update_traffic]: [if len(self.route_cache) > 100: self.route_cache.clear()];
    [traffic_data] is not read. *)
Definition update_traffic (route_cache : RouteCache) (traffic_data : Traffic)
  : RouteCache :=
  if decide (100 < length route_cache)%nat then [] else route_cache.

End GyTAR.

(** ** algorithms/aodv.py *)

Module AODV.

Import Routing.
#[local] Open Scope R_scope.

(** [_location_to_key]: the formatted pair of coordinates, the same string
    for the same numbers. *)
Definition _location_to_key (location : Location) : Location := location.

(** [_calculate_route_key]: the formatted coordinates of the whole route. *)
Definition _calculate_route_key (route : Route) : Route := route.

(** [a > b] on scores that may be [float('-inf')] ([None]). *)
Definition score_gt (a b : option R) : bool :=
  match a, b with
  | None, _ => false
  | Some _, None => true
  | Some x, Some y => bool_decide (x > y)
  end.

Definition _calculate_link_stability (speed1 speed2 distance : R) : R :=
  let speed1_norm := normalized_speed speed1 in
  let speed2_norm := normalized_speed speed2 in
  let speed_diff := Rabs (speed1_norm - speed2_norm) in
  let speed_factor := 1 - speed_diff in
  let distance_factor := 1 - distance / IZR Config.MAX_V2V_RANGE in
  0.5 * speed_factor + 0.5 * distance_factor.

(** The body of the loop of [_find_nearest_vehicle] on
    [(min_distance, nearest)]; [min_distance] starts at [float('inf')]
    ([None]). *)
Definition nearest_step (loc : Location) (best : option R * option Vehicle)
    (item : string * Vehicle) : option R * option Vehicle :=
  let vehicle_data := item.2 in
  let distance := _distance loc (location vehicle_data) in
  match best.1 with
  | None => (Some distance, Some vehicle_data)
  | Some min_distance =>
      if decide (distance < min_distance)
      then (Some distance, Some vehicle_data) else best
  end.

Definition _find_nearest_vehicle (loc : Location) (vehicles : Vehicles)
  : option Vehicle :=
  (foldl (nearest_step loc) (None, None) vehicles).2.

(** The list [stability_scores] built by [_calculate_route_stability]. *)
Fixpoint stability_scores (route : Route) (vehicles : Vehicles) : list R :=
  match route with
  | current :: (next_hop :: _) as rest =>
      (match _find_nearest_vehicle current vehicles,
             _find_nearest_vehicle next_hop vehicles with
       | Some current_vehicle, Some next_vehicle =>
           [_calculate_link_stability (speed current_vehicle)
              (speed next_vehicle) (_distance current next_hop)]
       | _, _ => []
       end) ++ stability_scores rest vehicles
  | _ => []
  end.

Definition _calculate_route_stability (route : Route) (vehicles : Vehicles) : R :=
  match stability_scores route vehicles with
  | [] => 0
  | s :: scores => foldl Rmin s scores
  end.

Definition _calculate_route_score (route : Route) (vehicles : Vehicles)
  : option R :=
  if decide (length route < 2)%nat then None
  else
    let hop_factor := 1 / (INR (length route) - 1) in
    let stability_score := _calculate_route_stability route vehicles in
    Some (0.4 * hop_factor + 0.6 * stability_score).

Definition best_route_step (vehicles : Vehicles)
    (best : option R * option Route) (entry : Route * Route)
  : option R * option Route :=
  let route := entry.2 in
  let score := _calculate_route_score route vehicles in
  if score_gt score best.1 then (score, Some route) else best.

(** [_select_best_route]: [Some []] is the empty list returned for no
    routes, [None] the [best_route] that was never assigned. *)
Definition _select_best_route (routes : list (Route * Route))
    (vehicles : Vehicles) : option Route :=
  match routes with
  | [] => Some []
  | _ => (foldl (best_route_step vehicles) (None, None) routes).2
  end.

(** The body of the neighbour loop of [_discover_route] on
    [(visited, queue)], for the entry [(current, path)] taken off the
    queue. *)
Definition neighbour_step (current : Location) (path : Route)
    (state : list Location * list (Location * Route))
    (item : string * Vehicle) : list Location * list (Location * Route) :=
  let vehicle_loc := location item.2 in
  let vehicle_key := _location_to_key vehicle_loc in
  if decide ((vehicle_key ∉ state.1)
             ∧ _distance current vehicle_loc <= IZR Config.MAX_V2V_RANGE)
  then (state.1 ++ [vehicle_key], state.2 ++ [(vehicle_loc, path ++ [vehicle_loc])])
  else state.

(** The [while queue] loop of [_discover_route] on
    [(queue, visited, discovered_routes)]. *)
Fixpoint discover_loop (fuel : nat) (destination : Location)
    (vehicles : Vehicles) (queue : list (Location * Route))
    (visited : list Location) (discovered_routes : list (Route * Route))
  : option (list (Route * Route)) :=
  match fuel with
  | O => None
  | S fuel' =>
      match queue with
      | [] => Some discovered_routes
      | (current, path) :: queue' =>
          if decide (_distance current destination <= IZR Config.MAX_V2V_RANGE)
          then
            let path := path ++ [destination] in
            discover_loop fuel' destination vehicles queue' visited
              (dict_set (_calculate_route_key path) path discovered_routes)
          else
            let state := foldl (neighbour_step current path) (visited, queue')
                           vehicles in
            discover_loop fuel' destination vehicles state.2 state.1
              discovered_routes
      end
  end.

Definition _discover_route (fuel : nat) (source destination : Location)
    (vehicles : Vehicles) : option (option Route) :=
  discovered_routes ←
    discover_loop fuel destination vehicles [(source, [source])]
      [_location_to_key source] [];
  Some (_select_best_route discovered_routes vehicles).

(** Whether some snapshot entry is within range of both ends of a link. *)
Definition valid_link (current next_hop : Location) (vehicles : Vehicles) : bool :=
  bool_decide
    (Exists (λ item : string * Vehicle,
               _distance current (location item.2) <= IZR Config.MAX_V2V_RANGE
               ∧ _distance next_hop (location item.2)
                 <= IZR Config.MAX_V2V_RANGE) vehicles).

Fixpoint _is_route_valid (route : Route) (vehicles : Vehicles) : bool :=
  match route with
  | current :: (next_hop :: _) as rest =>
      if valid_link current next_hop vehicles
      then _is_route_valid rest vehicles else false
  | _ => true
  end.

(** [if route:] on the result of [_discover_route]. *)
Definition truthy (route : option Route) : bool :=
  match route with
  | Some (_ :: _) => true
  | _ => false
  end.

(** [find_route]: the returned route and the router's cache afterwards.
    Routes are values here. The code returns and caches a list of the
    caller's location dictionaries, which a caller may change in place
    afterwards: what a later call finds in the cache is not modelled, and the
    properties below are about one call at a cache miss. *)
Definition find_route (fuel : nat) (route_cache : RouteCache)
    (source_location destination_location : Location)
    (vehicles : Vehicles) (traffic_data : Traffic)
  : option (Route * RouteCache) :=
  let key := route_key source_location destination_location in
  let discover (route_cache : RouteCache) : option (Route * RouteCache) :=
    route ← _discover_route fuel source_location destination_location vehicles;
    if truthy route
    then Some (default [] route, dict_set key (default [] route) route_cache)
    else Some ([source_location; destination_location], route_cache) in
  match dict_get key route_cache with
  | Some cached =>
      if _is_route_valid cached vehicles then Some (cached, route_cache)
      else discover (dict_del key route_cache)
  | None => discover route_cache
  end.

(** What the discovery keeps on its queue: a position and a path that ends
    there, with every link within range. *)
Definition queue_ok (queue : list (Location * Route)) : Prop :=
  Forall (λ entry : Location * Route,
            last entry.2 = Some entry.1 ∧ links_in_range entry.2) queue.

Definition routes_ok (routes : list (Route * Route)) : Prop :=
  Forall (λ entry : Route * Route, links_in_range entry.2) routes.

(** The snapshot entries whose location has not been visited yet. *)
Definition unvisited (vehicles : Vehicles) (visited : list Location)
  : list (string * Vehicle) :=
  filter (λ item : string * Vehicle, location item.2 ∉ visited) vehicles.

(** A route from [source] to [destination] with every link within range. *)
Definition connects (source destination : Location) (route : Route) : Prop :=
  head route = Some source ∧ last route = Some destination
  ∧ links_in_range route.

End AODV.

(** ** rsu.py *)

Module RSU.

Import Routing.
#[local] Open Scope R_scope.

(** A beacon as received ([data]) and as stored in [connected_vehicles]:
    the same dictionary, the stored one with [timestamp] overwritten and
    [port] added. [sees_accident] is [None] when the key is absent. *)
Record VehicleData : Type := mkVehicleData {
  msg_type : string;
  vehicle_id : string;
  location : Location;
  speed : R;
  direction : R;
  timestamp : R;
  sees_accident : option bool;
  port : option Z
}.

(** [{**data, 'timestamp': current_time, 'port': addr[1]}]. *)
Definition stored (data : VehicleData) (current_time : R) (addr_port : Z)
  : VehicleData :=
  {| msg_type := msg_type data; vehicle_id := vehicle_id data;
     location := location data; speed := speed data;
     direction := direction data; timestamp := current_time;
     sees_accident := sees_accident data; port := Some addr_port |}.

(** The detector's own state; the ledger is shared and passed alongside. *)
Record State : Type := mkState {
  connected_vehicles : gmap string VehicleData;
  suspicious_count : gmap string nat
}.

Section Detector.

Variable sha256_json : list (string * pyval R) -> string.

Definition _get_nearby_vehicles (rsu : State) (bc : Ledger.Blockchain R)
    (loc : Location) (range_limit : R) : gmap string VehicleData :=
  filter (λ entry : string * VehicleData,
            (entry.1 ∉ Ledger.get_malicious_vehicles bc)
            ∧ _distance loc (location entry.2) <= range_limit)
         (connected_vehicles rsu).

(** The list [nearby_reports] of check 4. *)
Definition nearby_reports (rsu : State) (bc : Ledger.Blockchain R)
    (data : VehicleData) (current_time : R) : list bool :=
  let nearby_vehicles := _get_nearby_vehicles rsu bc (location data) 300 in
  omap (λ v : VehicleData,
          match sees_accident v with
          | Some report =>
              if decide (timestamp v > current_time - 2) then Some report
              else None
          | None => None
          end)
       (map_to_list nearby_vehicles).*2.


(** [sum(nearby_reports) > len(nearby_reports) / 2]. *)
Definition majority_report (reports : list bool) : bool :=
  bool_decide (INR (length (filter (λ b : bool, b = true) reports))
               > INR (length reports) / 2).

(** Check 1, impossible speed. *)
Definition speed_check (data : VehicleData) : bool :=
  bool_decide (speed data > IZR Config.VEHICLE_MAX_VELOCITY * 1.5).

(** Check 2, impossible movement. *)
Definition movement_check (prev_data data : VehicleData) (time_diff : R) : bool :=
  let max_distance := (speed prev_data * 1000 / 3600) * time_diff * 1.2 in
  let actual_distance := _distance (location data) (location prev_data) in
  bool_decide (actual_distance > max_distance).

(** Check 3, position outside bounds. *)
Definition bounds_check (data : VehicleData) : bool :=
  bool_decide (loc_x (location data) < -10
               ∨ loc_x (location data) > IZR Config.NETWORK_LENGTH + 10
               ∨ loc_y (location data) < -10
               ∨ loc_y (location data) > IZR Config.NETWORK_WIDTH + 10).

(** Check 4, inconsistent accident reporting. *)
Definition accident_check (rsu : State) (bc : Ledger.Blockchain R)
    (data : VehicleData) (current_time : R) : bool :=
  match sees_accident data with
  | Some flag =>
      match nearby_reports rsu bc data current_time with
      | [] => false
      | reports => negb (eqb flag (majority_report reports))
      end
  | None => false
  end.

(** The value of [is_suspicious] after the four checks. *)
Definition is_suspicious (rsu : State) (bc : Ledger.Blockchain R)
    (prev_data data : VehicleData) (current_time : R) : bool :=
  speed_check data
  || movement_check prev_data data (current_time - timestamp prev_data)
  || bounds_check data
  || accident_check rsu bc data current_time.

(** The last statement of [_update_vehicle_data]. *)
Definition store (rsu : State) (vid : string) (data : VehicleData)
    (current_time : R) (addr_port : Z) : State :=
  {| connected_vehicles :=
       <[vid := stored data current_time addr_port]> (connected_vehicles rsu);
     suspicious_count := suspicious_count rsu |}.

(** [_update_vehicle_data]. [current_time] is the clock read on entry;
    [t_payload] and [t_block] are the two readings taken by
    [add_malicious_vehicle] when the vehicle is marked. *)
Definition _update_vehicle_data (rsu : State) (bc : Ledger.Blockchain R)
    (vid : string) (data : VehicleData) (addr_port : Z)
    (current_time t_payload t_block : R)
  : option (State * Ledger.Blockchain R) :=
  if decide (vid ∈ Ledger.get_malicious_vehicles bc) then Some (rsu, bc)
  else
    match connected_vehicles rsu !! vid with
    | Some prev_data =>
        let time_diff := current_time - timestamp prev_data in
        if decide (time_diff > 0) then
          if is_suspicious rsu bc prev_data data current_time then
            let count := (default 0%nat (suspicious_count rsu !! vid) + 1)%nat in
            let rsu1 :=
              {| connected_vehicles := connected_vehicles rsu;
                 suspicious_count := <[vid := count]> (suspicious_count rsu) |} in
            if decide (3 ≤ count)%nat then
              bc' ← Ledger.add_malicious_vehicle sha256_json bc vid
                      t_payload t_block;
              Some ({| connected_vehicles :=
                         delete vid (connected_vehicles rsu1);
                       suspicious_count := suspicious_count rsu1 |}, bc')
            else Some (store rsu1 vid data current_time addr_port, bc)
          else Some (store rsu vid data current_time addr_port, bc)
        else Some (store rsu vid data current_time addr_port, bc)
    | None => Some (store rsu vid data current_time addr_port, bc)
    end.

End Detector.

End RSU.

(** ** rsu.py, continued: traffic statistics and the listener *)

Module RSUNode.

Import Routing RSU.
#[local] Open Scope R_scope.

(** [self.traffic_data]. *)
Record TrafficData : Type := mkTrafficData {
  vehicle_count : nat;
  average_speed : R;
  congestion_level : R
}.

(** The value [RSU.__init__] gives it. *)
Definition initial_traffic_data : TrafficData :=
  {| vehicle_count := 0; average_speed := 0; congestion_level := 0 |}.

Definition _calculate_congestion_level (vehicle_count : nat) (avg_speed : R)
  : R :=
  let speed_factor :=
    1 - (avg_speed - IZR Config.VEHICLE_MIN_VELOCITY)
        / (IZR Config.VEHICLE_MAX_VELOCITY - IZR Config.VEHICLE_MIN_VELOCITY) in
  let count_factor :=
    Rmin 1 (INR vehicle_count / (IZR Config.MAX_VEHICLES / 2)) in
  (speed_factor + count_factor) / 2.

(** The dictionary [active_vehicles] of [_update_traffic_data]. *)
Definition active_vehicles (rsu : State) (bc : Ledger.Blockchain R)
    (current_time : R) : gmap string VehicleData :=
  filter (λ entry : string * VehicleData,
            current_time - timestamp entry.2 < 5
            ∧ entry.1 ∉ Ledger.get_malicious_vehicles bc)
         (connected_vehicles rsu).

(** [sum(v['speed'] for v in active_vehicles.values())], over the reals: the
    rounding of the float sum and of the division that follows is not
    modelled. *)
Definition sum_speeds (vehicles : gmap string VehicleData) : R :=
  foldl (λ (acc : R) (v : VehicleData), acc + speed v) 0
        (map_to_list vehicles).*2.

Definition _update_traffic_data (rsu : State) (bc : Ledger.Blockchain R)
    (traffic_data : TrafficData) (current_time : R) : TrafficData :=
  let active := active_vehicles rsu bc current_time in
  if decide (size active = 0%nat) then traffic_data
  else
    let avg_speed := sum_speeds active / INR (size active) in
    {| vehicle_count := size active;
       average_speed := avg_speed;
       congestion_level := _calculate_congestion_level (size active) avg_speed |}.

(** What the detector is meant to maintain about its counters: no counter
    exceeds 3, and a vehicle whose counter is 3 is in the malicious set. *)
Definition counters_ok (rsu : State) (bc : Ledger.Blockchain R) : Prop :=
  ∀ vid n, suspicious_count rsu !! vid = Some n →
    (n ≤ 3)%nat ∧ (n = 3%nat → vid ∈ Ledger.get_malicious_vehicles bc).

(** What holds of a detector whatever else is written to the ledger it
    shares: the ledger has a block, every counter is between 1 and 3, and a
    vehicle whose counter is 3 is in the malicious set and no longer
    tracked. *)
Definition counters_settled (rsu : State) (bc : Ledger.Blockchain R) : Prop :=
  Ledger.chain bc ≠ [] ∧
  ∀ vid n, suspicious_count rsu !! vid = Some n →
    (1 ≤ n ≤ 3)%nat ∧
    (n = 3%nat → vid ∈ Ledger.get_malicious_vehicles bc
                 ∧ connected_vehicles rsu !! vid = None).

(** A datagram taken from the socket by [_listen]: the decoded message
    ([None] when [json.loads] raises), the sender's port, and the clock
    readings the handling of the message consumes. *)
Record Datagram : Type := mkDatagram {
  payload : option VehicleData;
  from_port : Z;
  clock_update : R;
  clock_payload : R;
  clock_block : R
}.

Section Listener.

Variable sha256_json : list (string * pyval R) -> string.

(** How a call of [_handle_message] ends, with the state it leaves. *)
Inductive Outcome : Type :=
| Returned (rsu : State) (bc : Ledger.Blockchain R)
| Raised (rsu : State) (bc : Ledger.Blockchain R).

(** [_update_vehicle_data] raises only from [add_malicious_vehicle], on a
    ledger without a block: the counter has been written and the id added to
    the malicious set when [get_latest_block] fails. *)
Definition state_at_raise (rsu : State) (bc : Ledger.Blockchain R)
    (vid : string) : Outcome :=
  Raised
    {| connected_vehicles := connected_vehicles rsu;
       suspicious_count :=
         <[vid := (default 0%nat (suspicious_count rsu !! vid) + 1)%nat]>
           (suspicious_count rsu) |}
    {| Ledger.chain := Ledger.chain bc;
       Ledger.malicious_vehicles := {[vid]} ∪ Ledger.malicious_vehicles bc |}.

(** [_handle_message]. The two methods called for an [accident_report],
    [_process_accident_report] and [_broadcast_accident_alert], are not
    defined by the class: the first call raises [AttributeError]. *)
Definition _handle_message (rsu : State) (bc : Ledger.Blockchain R)
    (message : VehicleData) (addr_port : Z)
    (current_time t_payload t_block : R) : Outcome :=
  if decide (msg_type message = "beacon") then
    match _update_vehicle_data sha256_json rsu bc (vehicle_id message) message
            addr_port current_time t_payload t_block with
    | Some (rsu', bc') => Returned rsu' bc'
    | None => state_at_raise rsu bc (vehicle_id message)
    end
  else if decide (msg_type message = "accident_report") then Raised rsu bc
  else Returned rsu bc.

(** [_listen] on the datagrams that arrive, in order, while the node runs:
    any exception leaves the loop. The result is the state the thread leaves
    behind when nothing else is written to the ledger in between; [run_events]
    below lets the other writers in. *)
Fixpoint _listen (rsu : State) (bc : Ledger.Blockchain R)
    (incoming : list Datagram) : State * Ledger.Blockchain R :=
  match incoming with
  | [] => (rsu, bc)
  | d :: rest =>
      match payload d with
      | None => (rsu, bc)
      | Some message =>
          match _handle_message rsu bc message (from_port d) (clock_update d)
                  (clock_payload d) (clock_block d) with
          | Returned rsu' bc' => _listen rsu' bc' rest
          | Raised rsu' bc' => (rsu', bc')
          end
      end
  end.

(** What happens at a road-side unit and on the ledger it shares with the
    other writers: its listener is handed a datagram, or another writer (the
    periodic task of a road-side unit, the listener of another one) makes an
    appending call. Each is taken as one step. *)
Inductive Event : Type :=
| Receive (d : Datagram)
| Append (c : Ledger.call R).

(** The detector, the ledger and whether the listener is still in its loop,
    after the events; [None] when an appending call raises. A datagram that
    arrives after the listener has left its loop is handled by nobody. *)
Fixpoint run_events (rsu : State) (bc : Ledger.Blockchain R) (listening : bool)
    (events : list Event) : option (State * Ledger.Blockchain R * bool) :=
  match events with
  | [] => Some (rsu, bc, listening)
  | Append c :: rest =>
      bc' ← Ledger.run_call sha256_json bc c;
      run_events rsu bc' listening rest
  | Receive d :: rest =>
      if listening then
        match payload d with
        | None => run_events rsu bc false rest
        | Some message =>
            match _handle_message rsu bc message (from_port d) (clock_update d)
                    (clock_payload d) (clock_block d) with
            | Returned rsu' bc' => run_events rsu' bc' true rest
            | Raised rsu' bc' => run_events rsu' bc' false rest
            end
        end
      else run_events rsu bc false rest
  end.

End Listener.

End RSUNode.

(** ** vehicle.py *)

Module VehicleNode.

Import Routing.
#[local] Open Scope R_scope.

Definition ACCIDENT_LOCATION : Location := {| loc_x := 1500; loc_y := 1500 |}.

(** An entry of [self.neighbors]. [_handle_message] writes the keys
    [location], [speed], [direction] and [last_seen]; [_broadcast] and
    [_get_nearby_vehicles_accident_reports] also read [port] and
    [sees_accident], [None] when the key is absent. *)
Record Neighbor : Type := mkNeighbor {
  nb_location : Location;
  nb_speed : R;
  nb_direction : R;
  last_seen : option R;
  nb_sees_accident : option bool;
  nb_port : option Z
}.

(** An entry of [self.rsu_connections]. *)
Record RsuConnection : Type := mkRsuConnection {
  rsu_location : Location;
  rsu_last_seen : R
}.

(** The attributes of a [Vehicle]; [has_socket] tells whether [self.socket]
    is set. The dictionaries are kept in insertion order. *)
Record Vehicle : Type := mkVehicle {
  id : string;
  location : Location;
  speed : R;
  direction : R;
  neighbors : list (string * Neighbor);
  rsu_connections : list (string * RsuConnection);
  is_malicious : bool;
  start_time : option R;
  has_socket : bool
}.

(** [Vehicle.__init__] with the two random draws and the outcome of
    [_setup_socket] given. *)
Definition Vehicle__init__ (vehicle_id : string) (initial_x initial_y : R)
    (speed direction : R) (has_socket : bool) : Vehicle :=
  {| id := vehicle_id;
     location := {| loc_x := initial_x; loc_y := initial_y |};
     speed := speed; direction := direction;
     neighbors := []; rsu_connections := [];
     is_malicious := false; start_time := None; has_socket := has_socket |}.

(** The messages [_handle_message] distinguishes, by their [type]. *)
Inductive Message : Type :=
| Beacon (data : RSU.VehicleData)
| RsuBeacon (rsu_id : string) (location : Location)
    (traffic_data : RSUNode.TrafficData) (timestamp : R)
| AccidentAlert
| OtherType.

(** [_handle_message], with the clock reading it takes; [None] when it
    raises: [_process_accident_alert] is not defined by the class. *)
Definition _handle_message (v : Vehicle) (message : Message) (now : R)
  : option Vehicle :=
  match message with
  | Beacon data =>
      Some {| id := id v; location := location v; speed := speed v;
              direction := direction v;
              neighbors :=
                dict_set (RSU.vehicle_id data)
                  {| nb_location := RSU.location data;
                     nb_speed := RSU.speed data;
                     nb_direction := RSU.direction data;
                     last_seen := Some now;
                     nb_sees_accident := None; nb_port := None |}
                  (neighbors v);
              rsu_connections := rsu_connections v;
              is_malicious := is_malicious v; start_time := start_time v;
              has_socket := has_socket v |}
  | RsuBeacon rsu_id rsu_loc _ _ =>
      Some {| id := id v; location := location v; speed := speed v;
              direction := direction v; neighbors := neighbors v;
              rsu_connections :=
                dict_set rsu_id
                  {| rsu_location := rsu_loc; rsu_last_seen := now |}
                  (rsu_connections v);
              is_malicious := is_malicious v; start_time := start_time v;
              has_socket := has_socket v |}
  | AccidentAlert => None
  | OtherType => Some v
  end.

(** [_listen] on the datagrams that arrive, each decoded ([None] when
    [json.loads] raises) and paired with the clock reading of its handling:
    any exception leaves the loop. *)
Fixpoint _listen (v : Vehicle) (incoming : list (option Message * R))
  : Vehicle :=
  match incoming with
  | [] => v
  | (None, _) :: _ => v
  | (Some message, now) :: rest =>
      match _handle_message v message now with
      | Some v' => _listen v' rest
      | None => v
      end
  end.

Definition _check_accident_visibility (v : Vehicle) (now : R) : bool :=
  let distance := _distance (location v) ACCIDENT_LOCATION in
  match start_time v with
  | None => false
  | Some start =>
      let simulation_time := now - start in
      bool_decide (distance <= 200 ∧ simulation_time > 10)
  end.

(** [_get_nearby_vehicles_accident_reports]; [clock i] is the clock reading
    taken for the i-th neighbour. *)
Definition _get_nearby_vehicles_accident_reports (v : Vehicle)
    (clock : nat → R) : option bool :=
  let accident_reports :=
    omap (λ report : option bool, report)
      (imap (λ (i : nat) (entry : string * Neighbor),
               if decide (clock i - default 0 (last_seen entry.2) <= 2)
               then nb_sees_accident entry.2 else None)
            (neighbors v)) in
  match accident_reports with
  | [] => None
  | _ => Some (RSU.majority_report accident_reports)
  end.

Definition _is_in_range (v : Vehicle) (target_location : Location) : bool :=
  bool_decide (_distance (location v) target_location
               <= IZR Config.MAX_V2V_RANGE).

(** [_broadcast]: for each neighbour in range, in order, the port the
    datagram is sent to, or [None] when the attempt raises ([KeyError] for a
    neighbour without [port]) and the error is logged. *)
Definition _broadcast (v : Vehicle) : list (string * option Z) :=
  if has_socket v then
    (λ entry : string * Neighbor, (entry.1, nb_port entry.2))
      <$> filter (λ entry : string * Neighbor,
                    _is_in_range v (nb_location entry.2) = true)
                 (neighbors v)
  else [].

(** [x % 2] on floats. *)
Definition mod2 (x : R) : R := x - 2 * IZR (Int_part (x / 2)).

(** The clock readings of one call of [broadcast_beacon], in the order the
    code takes them. *)
Record BeaconClock : Type := mkBeaconClock {
  t_visibility : R;
  t_cos : R;
  t_sin : R;
  t_parity : R;
  t_reports : nat → R;
  t_message : R
}.

(** The message built by [broadcast_beacon]; [behavior_type] is
    [hash(self.id) % 3]. *)
Definition beacon_message (v : Vehicle) (behavior_type : Z) (c : BeaconClock)
  : RSU.VehicleData :=
  let can_see_accident := _check_accident_visibility v (t_visibility c) in
  if is_malicious v then
    let false_speed :=
      if decide (behavior_type = 0%Z)
      then IZR Config.VEHICLE_MAX_VELOCITY * 2.5 else speed v in
    let false_location :=
      if decide (behavior_type = 0%Z) then location v
      else if decide (behavior_type = 1%Z) then
        {| loc_x := loc_x (location v) + 400 * cos (t_cos c);
           loc_y := loc_y (location v) + 400 * sin (t_sin c) |}
      else
        {| loc_x := if decide (mod2 (t_parity c) < 1) then -50
                    else IZR Config.NETWORK_LENGTH + 50;
           loc_y := loc_y (location v) |} in
    let nearby_reports :=
      _get_nearby_vehicles_accident_reports v (t_reports c) in
    let false_accident_visibility :=
      match nearby_reports with
      | Some report => negb report
      | None => negb can_see_accident
      end in
    {| RSU.msg_type := "beacon"; RSU.vehicle_id := id v;
       RSU.location := false_location; RSU.speed := false_speed;
       RSU.direction := direction v; RSU.timestamp := t_message c;
       RSU.sees_accident := Some false_accident_visibility;
       RSU.port := None |}
  else
    {| RSU.msg_type := "beacon"; RSU.vehicle_id := id v;
       RSU.location := location v; RSU.speed := speed v;
       RSU.direction := direction v; RSU.timestamp := t_message c;
       RSU.sees_accident := Some can_see_accident;
       RSU.port := None |}.

(** [broadcast_beacon]: the message and what [_broadcast] does with it. *)
Definition broadcast_beacon (v : Vehicle) (behavior_type : Z) (c : BeaconClock)
  : RSU.VehicleData * list (string * option Z) :=
  (beacon_message v behavior_type c, _broadcast v).

(** [math.radians]. *)
Definition radians (degrees : R) : R := degrees * (PI / 180).

(** The random draws of one call of [update_position], in the order the code
    takes them on the branch that uses them. *)
Record Draws : Type := mkDraws {
  malicious_behavior : Z;
  new_speed : R;
  jump_x : R;
  sign_x : Z;
  jump_y : R;
  sign_y : Z;
  coin : R;
  offset : R
}.

Definition update_position (v : Vehicle) (timestep : R) (d : Draws) : Vehicle :=
  let speed_ms := speed v * 1000 / 3600 in
  let '(speed1, speed_ms1, location1) :=
    if is_malicious v then
      if decide (malicious_behavior d = 1%Z) then
        (new_speed d, new_speed d * 1000 / 3600, location v)
      else if decide (malicious_behavior d = 2%Z) then
        (speed v, speed_ms,
         {| loc_x := loc_x (location v) + jump_x d * IZR (sign_x d);
            loc_y := loc_y (location v) + jump_y d * IZR (sign_y d) |})
      else
        (speed v, speed_ms,
         {| loc_x := if decide (coin d < 0.5) then - offset d
                     else IZR Config.NETWORK_LENGTH + offset d;
            loc_y := loc_y (location v) |})
    else (speed v, speed_ms, location v) in
  let x := loc_x location1
           + speed_ms1 * cos (radians (direction v)) * timestep in
  let y := loc_y location1
           + speed_ms1 * sin (radians (direction v)) * timestep in
  let location2 :=
    if is_malicious v then {| loc_x := x; loc_y := y |}
    else {| loc_x := Rmax 0 (Rmin x (IZR Config.NETWORK_LENGTH));
            loc_y := Rmax 0 (Rmin y (IZR Config.NETWORK_WIDTH)) |} in
  {| id := id v; location := location2; speed := speed1;
     direction := direction v; neighbors := neighbors v;
     rsu_connections := rsu_connections v; is_malicious := is_malicious v;
     start_time := start_time v; has_socket := has_socket v |}.

(** [process_accident_decision]; it reads no attribute of the vehicle. *)
Definition process_accident_decision (num_vehicles_ahead num_staying_on_route : nat)
  : bool :=
  let ratio :=
    if decide (0 < num_vehicles_ahead)%nat
    then INR num_staying_on_route / INR num_vehicles_ahead else 0 in
  bool_decide (ratio < 0.5).

End VehicleNode.

(** ** simulation.py *)

Module Simulation.

Import Routing.
#[local] Open Scope R_scope.

(** The list [affected_vehicles] of [_trigger_accident]: the vehicles within
    500 m of the accident location, in the order of [self.vehicles]. *)
Definition affected_vehicles (vehicles : list (string * VehicleNode.Vehicle))
  : list VehicleNode.Vehicle :=
  (filter (λ entry : string * VehicleNode.Vehicle,
             _distance (VehicleNode.location entry.2)
               VehicleNode.ACCIDENT_LOCATION <= 500) vehicles).*2.

(** The value of [staying_on_route] when [_trigger_accident] has processed
    the rerouting decisions. *)
Definition staying_on_route (vehicles : list (string * VehicleNode.Vehicle))
  : nat :=
  let affected := affected_vehicles vehicles in
  let num_vehicles := length affected in
  foldl (λ (staying : nat) (vehicle : VehicleNode.Vehicle),
           if VehicleNode.process_accident_decision num_vehicles staying
           then S staying else staying)
        0%nat affected.

(** The bounds of the draw of [num_malicious] in [initialize_network], for a
    number of vehicles that is not negative: [int] then rounds down. *)
Definition min_malicious : Z := 3.

Definition max_malicious (num_vehicles : Z) : Z :=
  Z.min (Z.max (min_malicious + 1) (Int_part (0.06 * IZR num_vehicles)))
        (num_vehicles - 1).

(** The counters and delay lists that [_check_vehicle_communications]
    updates. *)
Record Metrics : Type := mkMetrics {
  total_v2v_messages : nat;
  total_v2i_messages : nat;
  total_messages : nat;
  successful_deliveries : nat;
  v2v_delays : list R;
  v2i_delays : list R
}.

(** The values [VANETSimulation.__init__] gives them. *)
Definition initial_metrics : Metrics :=
  {| total_v2v_messages := 0; total_v2i_messages := 0; total_messages := 0;
     successful_deliveries := 0; v2v_delays := []; v2i_delays := [] |}.

Definition _is_in_range (source target : Location) (is_v2v : bool) : bool :=
  bool_decide (_distance source target
               <= if negb is_v2v then IZR Config.RSU_RADIUS else 300).

(** The five statements after [vehicle.broadcast_beacon()] in the two loops;
    [draws k] is the value of [random.uniform] drawn for the message counted
    when [total_messages] is [k]. *)
Definition count_v2v (draws : nat → R) (m : Metrics) : Metrics :=
  {| total_v2v_messages := S (total_v2v_messages m);
     total_v2i_messages := total_v2i_messages m;
     total_messages := S (total_messages m);
     successful_deliveries := S (successful_deliveries m);
     v2v_delays := v2v_delays m ++ [draws (total_messages m) / 1000];
     v2i_delays := v2i_delays m |}.

Definition count_v2i (draws : nat → R) (m : Metrics) : Metrics :=
  {| total_v2v_messages := total_v2v_messages m;
     total_v2i_messages := S (total_v2i_messages m);
     total_messages := S (total_messages m);
     successful_deliveries := S (successful_deliveries m);
     v2v_delays := v2v_delays m;
     v2i_delays := v2i_delays m ++ [draws (total_messages m) / 1000] |}.

Definition _check_vehicle_communications
    (vehicles : list (string * VehicleNode.Vehicle))
    (rsus : list (string * Location)) (malicious_vehicles : gset string)
    (draws : nat → R) (m : Metrics) : Metrics :=
  foldl
    (λ (m : Metrics) (entry : string * VehicleNode.Vehicle),
       if decide (entry.1 ∈ malicious_vehicles) then m
       else
         let m :=
           foldl
             (λ (m : Metrics) (other : string * VehicleNode.Vehicle),
                if decide (other.1 ≠ entry.1 ∧ other.1 ∉ malicious_vehicles)
                then
                  if _is_in_range (VehicleNode.location entry.2)
                       (VehicleNode.location other.2) true
                  then count_v2v draws m else m
                else m)
             m vehicles in
         foldl
           (λ (m : Metrics) (rsu : string * Location),
              if _is_in_range (VehicleNode.location entry.2) rsu.2 false
              then count_v2i draws m else m)
           m rsus)
    m vehicles.

(** One call of [_check_vehicle_communications], with the state of the
    moment. *)
Record Round : Type := mkRound {
  round_vehicles : list (string * VehicleNode.Vehicle);
  round_rsus : list (string * Location);
  round_malicious : gset string
}.

Definition run_rounds (draws : nat → R) (rounds : list Round) (m : Metrics)
  : Metrics :=
  foldl (λ (m : Metrics) (r : Round),
           _check_vehicle_communications (round_vehicles r) (round_rsus r)
             (round_malicious r) draws m)
        m rounds.

(** The entry [delivery_ratio] of the results of [stop_simulation]. *)
Definition delivery_ratio (m : Metrics) : R :=
  if decide (0 < total_messages m)%nat
  then INR (successful_deliveries m) / INR (total_messages m) else 0.

End Simulation.

(** ** SHA-256 (FIPS 180-4) and [json.dumps], for closed examples *)

Module Sha256.

#[local] Open Scope N_scope.

Definition trunc32 (x : N) : N := N.land x 4294967295.
Definition add32 (x y : N) : N := trunc32 (x + y).
Definition rotr (n x : N) : N :=
  N.lor (N.shiftr x n) (trunc32 (N.shiftl x (32 - n))).

Definition Ch (x y z : N) : N :=
  N.lxor (N.land x y) (N.land (N.lxor x 4294967295) z).
Definition Maj (x y z : N) : N :=
  N.lxor (N.lxor (N.land x y) (N.land x z)) (N.land y z).
Definition Sigma0 (x : N) : N :=
  N.lxor (N.lxor (rotr 2 x) (rotr 13 x)) (rotr 22 x).
Definition Sigma1 (x : N) : N :=
  N.lxor (N.lxor (rotr 6 x) (rotr 11 x)) (rotr 25 x).
Definition sigma0 (x : N) : N :=
  N.lxor (N.lxor (rotr 7 x) (rotr 18 x)) (N.shiftr x 3).
Definition sigma1 (x : N) : N :=
  N.lxor (N.lxor (rotr 17 x) (rotr 19 x)) (N.shiftr x 10).

(** The round constants and the initial hash value. *)
Definition K : list N :=
  [
   1116352408; 1899447441; 3049323471; 3921009573; 961987163; 1508970993;
   2453635748; 2870763221; 3624381080; 310598401; 607225278; 1426881987;
   1925078388; 2162078206; 2614888103; 3248222580; 3835390401; 4022224774;
   264347078; 604807628; 770255983; 1249150122; 1555081692; 1996064986;
   2554220882; 2821834349; 2952996808; 3210313671; 3336571891; 3584528711;
   113926993; 338241895; 666307205; 773529912; 1294757372; 1396182291;
   1695183700; 1986661051; 2177026350; 2456956037; 2730485921; 2820302411;
   3259730800; 3345764771; 3516065817; 3600352804; 4094571909; 275423344;
   430227734; 506948616; 659060556; 883997877; 958139571; 1322822218;
   1537002063; 1747873779; 1955562222; 2024104815; 2227730452; 2361852424;
   2428436474; 2756734187; 3204031479; 3329325298
  ].

Definition H0 : list N :=
  [
   1779033703; 3144134277; 1013904242; 2773480762; 1359893119; 2600822924;
   528734635; 1541459225
  ].

(** [n] bytes of [x], most significant first. *)
Definition be_bytes (n : nat) (x : N) : list N :=
  (λ i : nat, N.land (N.shiftr x (8 * N.of_nat (n - 1 - i))) 255) <$> seq 0 n.

(** The message followed by the bit 1, zeros up to 56 modulo 64 bytes, and
    the length in bits on 8 bytes. *)
Definition pad (msg : list N) : list N :=
  let len := N.of_nat (length msg) in
  let zeros := N.to_nat ((119 - len mod 64) mod 64) in
  msg ++ [128] ++ replicate zeros 0 ++ be_bytes 8 (8 * len).

Fixpoint words (bytes : list N) : list N :=
  match bytes with
  | a :: b :: c :: d :: rest =>
      N.lor (N.lor (N.shiftl a 24) (N.shiftl b 16)) (N.lor (N.shiftl c 8) d)
      :: words rest
  | _ => []
  end.

Fixpoint chunks (fuel : nat) (ws : list N) : list (list N) :=
  match fuel, ws with
  | S fuel', _ :: _ => take 16 ws :: chunks fuel' (drop 16 ws)
  | _, _ => []
  end.

(** The words W16 to W63 of the message schedule, from the window of the 16
    words before. *)
Fixpoint extend (n : nat) (window : list N) : list N :=
  match n with
  | O => []
  | S n' =>
      let w := add32 (add32 (sigma1 (nth 14 window 0)) (nth 9 window 0))
                     (add32 (sigma0 (nth 1 window 0)) (nth 0 window 0)) in
      w :: extend n' (drop 1 window ++ [w])
  end.

Definition schedule (block : list N) : list N := block ++ extend 48 block.

Definition round (s : list N) (kw : N * N) : list N :=
  match s with
  | [a; b; c; d; e; f; g; h] =>
      let t1 := add32 (add32 (add32 (add32 h (Sigma1 e)) (Ch e f g)) kw.1) kw.2 in
      let t2 := add32 (Sigma0 a) (Maj a b c) in
      [add32 t1 t2; a; b; c; add32 d t1; e; f; g]
  | _ => s
  end.

Definition compress (hs : list N) (block : list N) : list N :=
  zip_with add32 hs (foldl round hs (zip K (schedule block))).

Definition digest_words (msg : list N) : list N :=
  let ws := words (pad msg) in
  foldl compress H0 (chunks (length ws) ws).

Definition hex_digit (d : N) : Ascii.ascii :=
  Ascii.ascii_of_N (if (d <? 10)%N then 48 + d else 87 + d).

(** [n] lowercase hexadecimal digits of [x]. *)
Definition hex (n : nat) (x : N) : string :=
  String.string_of_list_ascii
    ((λ i : nat, hex_digit (N.land (N.shiftr x (4 * N.of_nat (n - 1 - i))) 15))
       <$> seq 0 n).

(** [hashlib.sha256(s.encode()).hexdigest()] for a string of ASCII
    characters. *)
Definition sha256 (s : string) : string :=
  String.concat "" (hex 8 <$> digest_words (Ascii.N_of_ascii <$> String.list_ascii_of_string s)).

End Sha256.

Module Json.

Definition quote_char : Ascii.ascii := Ascii.ascii_of_N 34.
Definition backslash : Ascii.ascii := Ascii.ascii_of_N 92.

(** The replacement of one character by [json.dumps] with [ensure_ascii]:
    the characters from space to tilde stand for themselves, except the
    quote and the backslash. *)
Definition escape_char (c : Ascii.ascii) : string :=
  let n := Ascii.N_of_ascii c in
  if (n =? 34)%N then String backslash (String quote_char EmptyString)
  else if (n =? 92)%N then String backslash (String backslash EmptyString)
  else if (n =? 8)%N then String backslash "b"
  else if (n =? 12)%N then String backslash "f"
  else if (n =? 10)%N then String backslash "n"
  else if (n =? 13)%N then String backslash "r"
  else if (n =? 9)%N then String backslash "t"
  else if ((n <? 32) || (126 <? n))%N
       then String backslash ("u" +:+ Sha256.hex 4 n)
  else String c EmptyString.

Definition quote (s : string) : string :=
  String quote_char
    (String.concat "" (escape_char <$> String.list_ascii_of_string s)
     +:+ String quote_char EmptyString).

(** Insertion of an item into items sorted by key. *)
Fixpoint insert_item (item : string * string) (items : list (string * string))
  : list (string * string) :=
  match items with
  | [] => [item]
  | item' :: rest =>
      if String.leb item.1 item'.1 then item :: items
      else item' :: insert_item item rest
  end.

Definition sort_items (items : list (string * string)) : list (string * string) :=
  foldr insert_item [] items.

(** [json.dumps(v, sort_keys=True)]. A float is carried by its [repr]. *)
Fixpoint dumps (v : pyval string) : string :=
  match v with
  | PNone => "null"
  | PBool true => "true"
  | PBool false => "false"
  | PInt n => pretty n
  | PFloat literal => literal
  | PStr s => quote s
  | PList l => "[" +:+ String.concat ", " (dumps <$> l) +:+ "]"
  | PDict d =>
      let items := (λ kv : string * pyval string, (kv.1, dumps kv.2)) <$> d in
      "{" +:+ String.concat ", "
                ((λ kv : string * string, quote kv.1 +:+ ": " +:+ kv.2)
                   <$> sort_items items)
          +:+ "}"
  end.

(** [hashlib.sha256(json.dumps(d, sort_keys=True).encode()).hexdigest()]. *)
Definition sha256_json (d : list (string * pyval string)) : string :=
  Sha256.sha256 (dumps (PDict d)).

End Json.

(** ** Concrete inputs used by the examples below *)

Module Examples.

Import Routing.
#[local] Open Scope R_scope.

(** An empty [traffic_data] dictionary. *)
Definition no_traffic : Traffic := {| congestion_level := None |}.

(** One relay half-way along a 1000 m stretch. *)
Definition relay_source : Location := {| loc_x := 0; loc_y := 0 |}.
Definition relay_position : Location := {| loc_x := 500; loc_y := 0 |}.
Definition relay_destination : Location := {| loc_x := 1000; loc_y := 0 |}.
Definition relay_vehicles : Vehicles :=
  [("V1", {| location := relay_position; speed := 60 |})].
Definition relay_route : Route :=
  [relay_source; relay_position; relay_destination].

(** One relay half-way along a 500 m stretch. *)
Definition hop_source : Location := {| loc_x := 0; loc_y := 0 |}.
Definition hop_position : Location := {| loc_x := 250; loc_y := 0 |}.
Definition hop_destination : Location := {| loc_x := 500; loc_y := 0 |}.
Definition hop_vehicles : Vehicles :=
  [("V1", {| location := hop_position; speed := 60 |})].
Definition hop_route : Route := [hop_source; hop_position; hop_destination].

(** Two points 50 m apart, no neighbour. *)
Definition near_source : Location := {| loc_x := 0; loc_y := 0 |}.
Definition near_destination : Location := {| loc_x := 50; loc_y := 0 |}.
Definition near_route : Route := [near_source; near_destination].

(** A cache of 101 routes, one per source on the x axis. *)
Definition full_cache : RouteCache :=
  (λ k : nat,
     (route_key {| loc_x := INR k; loc_y := 0 |} near_destination, near_route))
    <$> seq 0 101.

(** A source 300 m from the junction (500, 500), a neighbour 200 m beyond
    that junction, and a destination 50 m from it. *)
Definition detour_source : Location := {| loc_x := 680; loc_y := 740 |}.
Definition detour_junction : Location := {| loc_x := 500; loc_y := 500 |}.
Definition detour_position : Location := {| loc_x := 380; loc_y := 340 |}.
Definition detour_destination : Location := {| loc_x := 500; loc_y := 450 |}.
Definition detour_vehicles : Vehicles :=
  [("V1", {| location := detour_position; speed := 60 |})].
Definition detour_route : Route :=
  [detour_source; detour_source; detour_position; detour_junction;
   detour_destination].

(** A source on the junction of the grid at the origin, and a destination
    1000 m away. *)
Definition stuck_source : Location := {| loc_x := 0; loc_y := 0 |}.
Definition stuck_destination : Location := {| loc_x := 1000; loc_y := 0 |}.

(** The examples about the detector do not depend on the digest: a constant
    stands for it there. *)
Definition constant_digest : list (string * pyval R) -> string := λ _, "0".

Definition fresh_ledger : Ledger.Blockchain R :=
  Ledger.Blockchain__init__ constant_digest 0.

Definition beacon (vid : string) (x y speed : R) (sees : option bool) (t : R)
  : RSU.VehicleData :=
  {| RSU.msg_type := "beacon"; RSU.vehicle_id := vid;
     RSU.location := {| loc_x := x; loc_y := y |}; RSU.speed := speed;
     RSU.direction := 0; RSU.timestamp := t; RSU.sees_accident := sees;
     RSU.port := None |}.

Definition peer_update : RSU.VehicleData := beacon "A" 10 0 60 (Some false) 10.

(** Vehicle A alone, stored at time 9 with the flag "no accident"; at time 10
    it reports that it sees the accident. *)
Definition lone_state : RSU.State :=
  {| RSU.connected_vehicles :=
       {["A" := RSU.stored (beacon "A" 0 0 60 (Some false) 9) 9 5001]};
     RSU.suspicious_count := ∅ |}.
Definition lone_update : RSU.VehicleData := beacon "A" 10 0 60 (Some true) 10.

(** Two vehicles heard within the last second: A at 70 km/h and B at
    90 km/h, 100 m apart. *)
Definition pair_state : RSU.State :=
  {| RSU.connected_vehicles :=
       <["A" := RSU.stored (beacon "A" 0 0 70 None 9) 9 5001]>
         {["B" := RSU.stored (beacon "B" 100 0 90 None 9.5) 9.5 5002]};
     RSU.suspicious_count := ∅ |}.

(** Vehicle A with two suspicious events on record, and an update at
    250 km/h. *)
Definition marked_twice_state : RSU.State :=
  {| RSU.connected_vehicles :=
       {["A" := RSU.stored (beacon "A" 0 0 60 None 9) 9 5001]};
     RSU.suspicious_count := {["A" := 2%nat]} |}.
Definition speeding_update : RSU.VehicleData := beacon "A" 10 0 250 None 10.

(** Vehicle A with two suspicious events on record and its neighbour B with
    one, both tracked; what the detector and the ledger are after the update
    of A at 250 km/h, its third suspicious event, at time 10. *)
Definition crowded_state : RSU.State :=
  {| RSU.connected_vehicles :=
       <["A" := RSU.stored (beacon "A" 0 0 60 None 9) 9 5001]>
         {["B" := RSU.stored (beacon "B" 100 0 60 (Some true) 9.5) 9.5 5002]};
     RSU.suspicious_count := <["A" := 2%nat]> {["B" := 1%nat]} |}.

Definition crowded_after : RSU.State :=
  {| RSU.connected_vehicles := delete "A" (RSU.connected_vehicles crowded_state);
     RSU.suspicious_count :=
       <["A" := 3%nat]> (RSU.suspicious_count crowded_state) |}.

Definition marked_ledger : Ledger.Blockchain R :=
  {| Ledger.chain :=
       Ledger.chain fresh_ledger
       ++ [Ledger.Block__init__ constant_digest 1 10
             (Ledger.malicious_payload "A" 10) "0"];
     Ledger.malicious_vehicles := {["A"]} ∪ ∅ |}.

(** The kinematic scenario: A stored at time 9 at the origin at 80 km/h. *)
Definition kinematic_prev : RSU.VehicleData :=
  RSU.stored (beacon "A" 0 0 80 None 9) 9 5001.
Definition kinematic_state : RSU.State :=
  {| RSU.connected_vehicles := {["A" := kinematic_prev]};
     RSU.suspicious_count := ∅ |}.
Definition kinematic_jump : RSU.VehicleData := beacon "A" 1000 0 80 None 10.
Definition kinematic_move : RSU.VehicleData := beacon "A" 22 0 79.2 None 10.

(** A ledger created at time 1700000000.5, to which the marking of vehicle V7
    is appended (the clock reads 1700000001.25, then 1700000001.5), with the
    digests SHA-256 gives. *)
Definition sha_calls : list (Ledger.call string) :=
  [Ledger.Add_malicious_vehicle "V7" "1700000001.25" "1700000001.5"].

Definition sha_genesis : Ledger.Block string :=
  {| Ledger.index := 0; Ledger.timestamp := "1700000000.5";
     Ledger.data := PDict [("message", PStr "Genesis Block")];
     Ledger.previous_hash := "0";
     Ledger.hash :=
       "6866d7d94a5e9f140b83833d56281d9323ca93159d783521af7a66b99bb086df" |}.

Definition sha_marking : Ledger.Block string :=
  {| Ledger.index := 1; Ledger.timestamp := "1700000001.5";
     Ledger.data := Ledger.malicious_payload "V7" "1700000001.25";
     Ledger.previous_hash :=
       "6866d7d94a5e9f140b83833d56281d9323ca93159d783521af7a66b99bb086df";
     Ledger.hash :=
       "f099e3be54af3f2ec5d3fef875d0a8b70df12bf3c6f0ef86961cb55ccb1069b2" |}.

Definition sha_ledger : Ledger.Blockchain string :=
  {| Ledger.chain := [sha_genesis; sha_marking];
     Ledger.malicious_vehicles := {["V7"]} |}.

(** An honest vehicle at (100, 100) driving at 80 km/h, heading 0 degrees,
    and the same vehicle turned malicious. *)
Definition honest_vehicle : VehicleNode.Vehicle :=
  VehicleNode.Vehicle__init__ "V_0" 100 100 80 0 true.

Definition malicious_vehicle : VehicleNode.Vehicle :=
  {| VehicleNode.id := "V_0";
     VehicleNode.location := {| loc_x := 100; loc_y := 100 |};
     VehicleNode.speed := 80; VehicleNode.direction := 0;
     VehicleNode.neighbors := []; VehicleNode.rsu_connections := [];
     VehicleNode.is_malicious := true; VehicleNode.start_time := None;
     VehicleNode.has_socket := true |}.

(** A clock that reads 10 throughout one call of [broadcast_beacon], and the
    random draws of one call of [update_position]. *)
Definition beacon_clock : VehicleNode.BeaconClock :=
  {| VehicleNode.t_visibility := 10; VehicleNode.t_cos := 10;
     VehicleNode.t_sin := 10; VehicleNode.t_parity := 10;
     VehicleNode.t_reports := λ _, 10; VehicleNode.t_message := 10 |}.

Definition position_draws : VehicleNode.Draws :=
  {| VehicleNode.malicious_behavior := 1; VehicleNode.new_speed := 250;
     VehicleNode.jump_x := 300; VehicleNode.sign_x := 1;
     VehicleNode.jump_y := 300; VehicleNode.sign_y := 1;
     VehicleNode.coin := 0.25; VehicleNode.offset := 150 |}.

End Examples.

(* ===================================================================== *)
(** * Properties *)
(* ===================================================================== *)

(** ** Lists and distances *)

Section ListFacts.

(** A strict inclusion of filters shortens the filtered list. *)
Lemma filter_length_lt {A} (P Q : A → Prop) `{∀ a, Decision (P a)}
    `{∀ a, Decision (Q a)} (l : list A) (a : A) :
  (∀ b, b ∈ l → P b → Q b) → a ∈ l → Q a → ¬ P a →
  (length (filter P l) < length (filter Q l))%nat.
Proof.
  intros Hsub Hin Hq Hp.
  assert (∀ l', (∀ b, b ∈ l' → P b → Q b) →
            (length (filter P l') ≤ length (filter Q l'))%nat) as Hle.
  { induction l' as [|b l' IH]; intros Hs; [done|].
    rewrite !filter_cons.
    specialize (IH (λ c Hc, Hs c (list_elem_of_further _ _ _ Hc))).
    destruct (decide (P b)) as [HP|HP].
    - rewrite decide_True by (apply Hs; [left|done]). simpl. lia.
    - destruct (decide (Q b)); simpl; lia. }
  induction l as [|b l IH]; [by apply elem_of_nil in Hin|].
  rewrite !filter_cons.
  apply elem_of_cons in Hin as [<-|Hin].
  - rewrite decide_False by done. rewrite decide_True by done. simpl.
    specialize (Hle l (λ c Hc, Hsub c (list_elem_of_further _ _ _ Hc))). lia.
  - specialize (IH (λ c Hc, Hsub c (list_elem_of_further _ _ _ Hc)) Hin).
    destruct (decide (P b)) as [HP|HP].
    + rewrite decide_True by (apply Hsub; [left|done]). simpl. lia.
    + destruct (decide (Q b)); simpl; lia.
Qed.

End ListFacts.

Section DistanceFacts.

Import Routing.
#[local] Open Scope R_scope.

Lemma _distance_nonneg p q : 0 <= _distance p q.
Proof. apply sqrt_pos. Qed.

Lemma _distance_self p : _distance p p = 0.
Proof.
  unfold _distance.
  replace ((loc_x p - loc_x p) ^ 2 + (loc_y p - loc_y p) ^ 2) with 0 by ring.
  apply sqrt_0.
Qed.

(** Comparing a distance with a bound is comparing the squares. *)
Lemma _distance_le_iff p q r :
  0 <= r →
  _distance p q <= r ↔
  (loc_x p - loc_x q) ^ 2 + (loc_y p - loc_y q) ^ 2 <= r ^ 2.
Proof.
  intros Hr. unfold _distance.
  set (e := (loc_x p - loc_x q) ^ 2 + (loc_y p - loc_y q) ^ 2).
  assert (0 <= e) as He.
  { pose proof (pow2_ge_0 (loc_x p - loc_x q)).
    pose proof (pow2_ge_0 (loc_y p - loc_y q)). unfold e. lra. }
  replace (r ^ 2) with (r²) by (unfold Rsqr; ring).
  rewrite <- (sqrt_Rsqr r Hr) at 1. split.
  - intros H. apply sqrt_le_0 in H; [done|done|apply Rle_0_sqr].
  - intros H. by apply sqrt_le_1_alt.
Qed.

Lemma _distance_gt_iff p q r :
  0 <= r →
  _distance p q > r ↔
  (loc_x p - loc_x q) ^ 2 + (loc_y p - loc_y q) ^ 2 > r ^ 2.
Proof.
  intros Hr. pose proof (_distance_le_iff p q r Hr) as H.
  split; intros H1; apply Rnot_le_gt; intros H2; apply H in H2; lra.
Qed.

Lemma _distance_eq p q r :
  0 <= r →
  (loc_x p - loc_x q) ^ 2 + (loc_y p - loc_y q) ^ 2 = r ^ 2 →
  _distance p q = r.
Proof.
  intros Hr He. unfold _distance. rewrite He.
  replace (r ^ 2) with (r²) by (unfold Rsqr; ring). by apply sqrt_Rsqr.
Qed.

End DistanceFacts.

(** Evaluates [_distance p q] to the numeral [r]. *)
Ltac distance_is p q r :=
  rewrite (_distance_eq p q r) by (simpl; lra).

(** ** The ledger *)

Section LedgerProperties.

Context {F : Type} (sha256_json : list (string * pyval F) -> string).

Import Ledger.

#[local] Abbreviation add_block := (Ledger.add_block sha256_json).
#[local] Abbreviation run_call := (Ledger.run_call sha256_json).
#[local] Abbreviation run_calls := (Ledger.run_calls sha256_json).
#[local] Abbreviation is_chain_valid := (Ledger.is_chain_valid sha256_json).
#[local] Abbreviation block_ok := (Ledger.block_ok sha256_json).
#[local] Abbreviation chain_invariant := (Ledger.chain_invariant sha256_json).
#[local] Abbreviation Block__init__ := (Ledger.Block__init__ sha256_json).
#[local] Abbreviation Blockchain__init__ := (Ledger.Blockchain__init__ sha256_json).

Lemma add_block_Some (bc : Blockchain F) d now :
  chain bc ≠ [] →
  ∃ prev, last (chain bc) = Some prev ∧
    add_block bc d now =
      Some (Block__init__ (index prev + 1) now d (hash prev),
            {| chain := chain bc
                 ++ [Block__init__ (index prev + 1) now d (hash prev)];
               malicious_vehicles := malicious_vehicles bc |}).
Proof.
  intros Hne. destruct (last (chain bc)) as [prev|] eqn:Hlast.
  - exists prev. split; [done|]. unfold Ledger.add_block, get_latest_block.
    rewrite Hlast. done.
  - apply last_None in Hlast. done.
Qed.

(** Every call appends exactly one block and keeps what was there. *)
Lemma run_call_appends (bc : Blockchain F) c :
  chain bc ≠ [] →
  ∃ prev d now, last (chain bc) = Some prev ∧
    ∃ mv, run_call bc c =
      Some {| chain := chain bc
                ++ [Block__init__ (index prev + 1) now d (hash prev)];
              malicious_vehicles := mv |}.
Proof.
  intros Hne. destruct c as [d now|v l s dr m t1 t2|r cv td t1 t2|v t1 t2]; simpl.
  - destruct (add_block_Some bc d now Hne) as (prev & Hl & ->).
    exists prev, d, now. split; [done|]. by eexists.
  - unfold record_vehicle_data.
    destruct (add_block_Some bc (vehicle_data_payload v l s dr m t1) t2 Hne)
      as (prev & Hl & ->).
    exists prev, (vehicle_data_payload v l s dr m t1), t2.
    split; [done|]. by eexists.
  - unfold record_rsu_data.
    destruct (add_block_Some bc (rsu_data_payload r cv td t1) t2 Hne)
      as (prev & Hl & ->).
    exists prev, (rsu_data_payload r cv td t1), t2. split; [done|]. by eexists.
  - unfold add_malicious_vehicle.
    set (bc1 := {| chain := chain bc;
                   malicious_vehicles := {[v]} ∪ malicious_vehicles bc |}).
    destruct (add_block_Some bc1 (malicious_payload v t1) t2 Hne)
      as (prev & Hl & ->).
    exists prev, (malicious_payload v t1), t2. split; [done|]. by eexists.
Qed.

Lemma chain_invariant_snoc (c : list (Block F)) prev d now :
  chain_invariant c → last c = Some prev →
  chain_invariant (c ++ [Block__init__ (index prev + 1) now d (hash prev)]).
Proof.
  intros (Hne & Hlink & Hhash) Hlast.
  set (nb := Block__init__ (index prev + 1) now d (hash prev)).
  rewrite last_lookup in Hlast.
  split; [by destruct c|]. split.
  - intros i cur prv Hcur Hprv.
    destruct (decide (S i < length c)) as [Hlt|Hge].
    + rewrite lookup_app_l in Hcur by done.
      rewrite lookup_app_l in Hprv by lia. eauto.
    + assert (S i = length c) as Hi.
      { apply lookup_lt_Some in Hcur. rewrite length_app in Hcur. simpl in *. lia. }
      rewrite lookup_app_r in Hcur by lia.
      replace (S i - length c) with 0 in Hcur by lia. simpl in Hcur.
      rewrite lookup_app_l in Hprv by lia.
      replace (pred (length c)) with i in Hlast by lia.
      assert (prv = prev) as -> by congruence.
      assert (cur = nb) as -> by congruence. done.
  - intros b [Hb|Hb]%elem_of_app; [by apply Hhash|].
    apply list_elem_of_singleton in Hb as ->. done.
Qed.

Lemma chain_invariant_genesis (now : F) :
  chain_invariant (chain (Blockchain__init__ now)).
Proof.
  split; [done|]. split.
  - intros i cur prv Hcur. done.
  - intros b Hb. apply list_elem_of_singleton in Hb as ->. done.
Qed.

(** C9. Every ledger operation ([add_block], [record_vehicle_data],
    [record_rsu_data], [add_malicious_vehicle]) succeeds on a chain that
    satisfies the chain invariant and leaves a chain that satisfies it: for
    every index i > 0, [chain[i].previous_hash = chain[i-1].hash] and
    [chain[i].index = chain[i-1].index + 1], and every block's stored hash is
    the digest computed over its other fields at construction time. *)
Theorem C9_calls_preserve_chain_invariant (bc : Blockchain F) (c : call F) :
  chain_invariant (chain bc) →
  ∃ bc', run_call bc c = Some bc' ∧ chain_invariant (chain bc').
Proof.
  intros Hinv. destruct (run_call_appends bc c) as (prev & d & now & Hl & mv & ->).
  { apply Hinv. }
  eexists. split; [done|]. simpl. by apply chain_invariant_snoc.
Qed.

(** The same from a fresh ledger: any sequence of calls runs to completion,
    appends one block per call and ends in a chain that satisfies the
    invariant. *)
Lemma run_calls_invariant (bc : Blockchain F) (cs : list (call F)) :
  chain_invariant (chain bc) →
  ∃ bc', run_calls bc cs = Some bc' ∧ chain_invariant (chain bc') ∧
         length (chain bc') = length (chain bc) + length cs ∧
         chain bc' !! 0 = chain bc !! 0.
Proof.
  revert bc. induction cs as [|c cs IH]; intros bc Hinv.
  - exists bc. simpl. split; [done|]. split; [done|]. split; [lia|done].
  - destruct (run_call_appends bc c) as (prev & d & now & Hl & mv & Hrun).
    { apply Hinv. }
    simpl. rewrite Hrun. simpl.
    edestruct IH as (bc' & -> & Hinv' & Hlen & Hz).
    2:{ exists bc'. split; [done|]. split; [done|]. simpl in *.
        rewrite length_app in Hlen. simpl in Hlen. split; [lia|].
        rewrite Hz. apply lookup_app_l. destruct Hinv as [Hne _].
        destruct (chain bc); simpl; [done|lia]. }
    simpl. by apply chain_invariant_snoc.
Qed.

(** [is_chain_valid] reads the genesis block only through its stored hash. *)
Lemma block_ok_corrupt_genesis (c : list (Block F)) d' (i : nat) :
  1 ≤ i → block_ok (alter (set_data d') 0 c) i = block_ok c i.
Proof.
  intros Hi. unfold Ledger.block_ok.
  rewrite list_lookup_alter_ne by lia.
  destruct (c !! i) as [cur|]; [|done].
  destruct (decide (i - 1 = 0)) as [->|Hne].
  - rewrite list_lookup_alter_eq. destruct (c !! 0) as [g|]; done.
  - by rewrite list_lookup_alter_ne by lia.
Qed.

Lemma is_chain_valid_corrupt_genesis (bc : Blockchain F) d' :
  is_chain_valid (corrupt 0 d' bc) = is_chain_valid bc.
Proof.
  unfold Ledger.is_chain_valid, corrupt. simpl. rewrite length_alter.
  apply eq_true_iff_eq. rewrite !forallb_forall.
  split; intros H i Hin; specialize (H i Hin); apply in_seq in Hin;
    [rewrite block_ok_corrupt_genesis in H by lia
    |rewrite block_ok_corrupt_genesis by lia]; done.
Qed.

(** A block after the first whose recomputed digest differs from its stored
    hash stops the walk with [False]. *)
Lemma is_chain_valid_hash_mismatch (bc : Blockchain F) (k : nat) b :
  1 ≤ k → chain bc !! k = Some b →
  Ledger.calculate_hash sha256_json (__dict__ b) ≠ hash b →
  is_chain_valid bc = false.
Proof.
  intros Hk Hb Hne. apply not_true_is_false. intros Hv.
  unfold Ledger.is_chain_valid in Hv. rewrite forallb_forall in Hv.
  specialize (Hv k). pose proof (lookup_lt_Some _ _ _ Hb) as Hlt.
  ospecialize (Hv _). { apply in_seq. lia. }
  unfold Ledger.block_ok in Hv. rewrite Hb in Hv.
  destruct (chain bc !! (k - 1)) as [p|] eqn:Hp.
  - destruct (decide (hash b ≠ _)) as [|Heq]; [done|]. apply Hne.
    apply dec_stable in Heq. done.
  - apply lookup_ge_None in Hp. lia.
Qed.

Lemma is_chain_valid_corrupt_detected (bc : Blockchain F) (k : nat) b d' :
  1 ≤ k → chain bc !! k = Some b →
  Ledger.calculate_hash sha256_json (__dict__ (set_data d' b)) ≠ hash b →
  is_chain_valid (corrupt k d' bc) = false.
Proof.
  intros Hk Hb Hne.
  apply (is_chain_valid_hash_mismatch _ k (set_data d' b)); [done| |exact Hne].
  unfold corrupt. simpl. rewrite list_lookup_alter_eq, Hb. done.
Qed.

(** The walk recomputes each digest over [__dict__], which by then holds
    [hash] as well. On a chain built by the ledger's own operations it can
    therefore return [True] only if the digest of a block's four attributes
    is also the digest of those attributes together with that very digest. *)
Lemma is_chain_valid_true_fixpoint (bc : Blockchain F) (k : nat) b :
  chain_invariant (chain bc) → 1 ≤ k → chain bc !! k = Some b →
  is_chain_valid bc = true →
  let d0 := init_dict (index b) (timestamp b) (data b) (previous_hash b) in
  sha256_json (d0 ++ [("hash", PStr (sha256_json d0))]) = sha256_json d0.
Proof.
  intros (_ & _ & Hhash) Hk Hb Hv d0.
  destruct (decide (Ledger.calculate_hash sha256_json (__dict__ b) = hash b))
    as [Heq|Hne].
  - unfold Ledger.calculate_hash, __dict__ in Heq. fold d0 in Heq.
    rewrite (Hhash b) in Heq by (eapply list_elem_of_lookup_2; done).
    done.
  - rewrite (is_chain_valid_hash_mismatch bc k b) in Hv; done.
Qed.

End LedgerProperties.

Section LedgerExamples.

Import Ledger Examples.

(** The test vectors of FIPS 180-4 for one and two blocks, and the empty
    message. *)
Example sha256_abc :
  Sha256.sha256 "abc"
  = "ba7816bf8f01cfea414140de5dae2223b00361a396177a9cb410ff61f20015ad".
Proof. vm_compute. reflexivity. Qed.

Example sha256_empty :
  Sha256.sha256 ""
  = "e3b0c44298fc1c149afbf4c8996fb92427ae41e4649b934ca495991b7852b855".
Proof. vm_compute. reflexivity. Qed.

Example sha256_two_blocks :
  Sha256.sha256 "abcdbcdecdefdefgefghfghighijhijkijkljklmklmnlmnomnopnopq"
  = "248d6a61d20638b8e5c026930c3e6039a33ce45964ff2167f6ecedd419db06c1".
Proof. vm_compute. reflexivity. Qed.

(** The ledger after [Blockchain()] and [add_malicious_vehicle("V7")]. *)
Lemma sha_ledger_built :
  run_calls Json.sha256_json (Blockchain__init__ Json.sha256_json "1700000000.5")
    sha_calls = Some sha_ledger.
Proof. vm_compute. reflexivity. Qed.

(** C1 (failing input). The ledger built by [Blockchain()] and one call of
    [add_malicious_vehicle("V7")], which nobody has touched since, is reported
    invalid. The ledger is intact: its two blocks are linked, and the stored
    hash of each is the digest of the four attributes it had when
    [Block.__init__] computed it. But [calculate_hash] serialises
    [self.__dict__], which after [__init__] holds [hash] as well: the digest
    [is_chain_valid] recomputes for block 1 covers five attributes and is not
    the stored one, so the walk stops at block 1 with [False]. The digests
    are those of SHA-256 over [json.dumps(..., sort_keys=True)]. *)
Theorem C1_untouched_ledger_reported_invalid :
  run_calls Json.sha256_json (Blockchain__init__ Json.sha256_json "1700000000.5")
    sha_calls = Some sha_ledger ∧
  chain_invariant Json.sha256_json (chain sha_ledger) ∧
  hash sha_marking
    = Json.sha256_json (init_dict (index sha_marking) (timestamp sha_marking)
                          (data sha_marking) (previous_hash sha_marking)) ∧
  hash sha_marking
    = "f099e3be54af3f2ec5d3fef875d0a8b70df12bf3c6f0ef86961cb55ccb1069b2" ∧
  Ledger.calculate_hash Json.sha256_json (__dict__ sha_marking)
    = "66ceae99ffa15ee075740155bd55cf9ddae50fd1e03839e71964553e777c541b" ∧
  is_chain_valid Json.sha256_json sha_ledger = false.
Proof.
  split; [apply sha_ledger_built|]. split.
  { destruct (run_calls_invariant Json.sha256_json
                (Blockchain__init__ Json.sha256_json "1700000000.5") sha_calls)
      as (bc & Hrun & Hinv & _); [apply chain_invariant_genesis|].
    rewrite sha_ledger_built in Hrun. by injection Hrun as <-. }
  repeat split; vm_compute; reflexivity.
Qed.

Lemma C9_witness :
  chain_invariant Json.sha256_json
    (chain (Blockchain__init__ Json.sha256_json "1700000000.5")) ∧
  ∃ bc',
    run_call Json.sha256_json
      (Blockchain__init__ Json.sha256_json "1700000000.5")
      (Add_malicious_vehicle "V7" "1700000001.25" "1700000001.5") = Some bc' ∧
    chain_invariant Json.sha256_json (chain bc').
Proof.
  split; [apply chain_invariant_genesis|].
  apply C9_calls_preserve_chain_invariant, chain_invariant_genesis.
Defined.

End LedgerExamples.

(** ** The greedy forward-progress strategy *)

Section TMRProperties.

Import Routing TMR.
#[local] Open Scope R_scope.

Variables (destination : Location) (vehicles : Vehicles) (traffic_data : Traffic).

Lemma closer_than_length (vs : Vehicles) target p :
  (length (closer_than vs target p) ≤ length vs)%nat.
Proof. apply length_filter. Qed.

Lemma closer_than_decreases (vs : Vehicles) target p (item : string * Vehicle) :
  item ∈ vs → _distance (location item.2) target < _distance p target →
  (length (closer_than vs target (location item.2))
   < length (closer_than vs target p))%nat.
Proof.
  intros Hin Hlt. unfold closer_than.
  apply (filter_length_lt _ _ vs item); [|done|done|lra].
  intros b _ Hb. lra.
Qed.

(** What [_find_next_hop] returns is the location of a snapshot entry that
    makes forward progress. *)
Lemma foldl_next_hop_Some current (vs : Vehicles) best h :
  (foldl (next_hop_step current destination traffic_data) best vs).2 = Some h →
  best.2 = Some h ∨
  ∃ item, item ∈ vs ∧ h = location item.2 ∧
    _is_forward_progress current (location item.2) destination = true.
Proof.
  revert best. induction vs as [|item vs IH]; intros best Hf; [by left|].
  simpl in Hf. apply IH in Hf as [Hb|(it & Hin & -> & Hfp)].
  - unfold next_hop_step in Hb.
    destruct (_is_forward_progress _ _ _) eqn:Hfp; [|by left].
    destruct (exceeds _ _); [|by left].
    simpl in Hb. right. exists item. split; [left|]. split; congruence.
  - right. exists it. split; [by right|done].
Qed.

Lemma _find_next_hop_Some current h :
  _find_next_hop current destination vehicles traffic_data = Some h →
  ∃ item, item ∈ vehicles ∧ h = location item.2 ∧
    _distance h destination < _distance current destination.
Proof.
  intros Hf. apply foldl_next_hop_Some in Hf as [Hb|(it & Hin & -> & Hfp)];
    [done|].
  exists it. split; [done|]. split; [done|].
  unfold _is_forward_progress in Hfp. by apply bool_decide_eq_true in Hfp.
Qed.

(** It returns nothing only when no snapshot entry makes forward progress. *)
Lemma foldl_next_hop_None current (vs : Vehicles) best :
  (best.2 = None → best.1 = None) →
  (foldl (next_hop_step current destination traffic_data) best vs).2 = None →
  best.2 = None ∧
  ∀ item, item ∈ vs →
    _is_forward_progress current (location item.2) destination = false.
Proof.
  revert best. induction vs as [|item vs IH]; intros best Hinv Hf.
  - split; [done|]. intros item Hin. by apply elem_of_nil in Hin.
  - simpl in Hf. apply IH in Hf as [Hb Hall].
    2:{ unfold next_hop_step.
        destruct (_is_forward_progress _ _ _); [|done].
        destruct (exceeds _ _); done. }
    unfold next_hop_step in Hb.
    destruct (_is_forward_progress current (location item.2) destination)
      eqn:Hfp.
    + destruct (exceeds _ best.1) eqn:He; [done|].
      rewrite (Hinv Hb) in He. done.
    + split; [done|]. intros it [->|Hin]%elem_of_cons; [done|by apply Hall].
Qed.

Lemma _find_next_hop_None current :
  _find_next_hop current destination vehicles traffic_data = None →
  ∀ item, item ∈ vehicles →
    ¬ _distance (location item.2) destination < _distance current destination.
Proof.
  intros Hf item Hin. apply foldl_next_hop_None in Hf as [_ Hall]; [|done].
  specialize (Hall item Hin). unfold _is_forward_progress in Hall.
  by apply bool_decide_eq_false in Hall.
Qed.

(** The loop returns as soon as the fuel exceeds the number of candidates
    strictly closer to the destination than the current position. *)
Lemma find_route_loop_total (fuel : nat) current route :
  (length (closer_than vehicles destination current) < fuel)%nat →
  ∃ hops,
    find_route_loop fuel destination vehicles traffic_data current route
      = Some (route ++ hops) ∧
    descending destination current hops ∧
    Forall (λ h, ∃ item, item ∈ vehicles ∧ h = location item.2) hops ∧
    (∀ final, last (current :: hops) = Some final →
       _distance final destination <= 100 ∨
       (_find_next_hop final destination vehicles traffic_data = None ∧
        ∀ item, item ∈ vehicles →
          ¬ _distance (location item.2) destination
            < _distance final destination)).
Proof.
  revert current route. induction fuel as [|fuel IH]; intros current route Hm;
    [lia|].
  simpl. destruct (decide (_distance current destination > 100)) as [Hfar|Hnear].
  - destruct (_find_next_hop current destination vehicles traffic_data)
      as [h|] eqn:Hhop.
    + destruct (_find_next_hop_Some _ _ Hhop) as (item & Hin & -> & Hlt).
      destruct (IH (location item.2) (route ++ [location item.2]))
        as (hops & Hloop & Hdesc & Hall & Hexit).
      { pose proof (closer_than_decreases vehicles destination current item
                      Hin Hlt). lia. }
      exists (location item.2 :: hops). rewrite Hloop.
      split; [by rewrite <- app_assoc|]. split; [done|]. split.
      * constructor; [by exists item|done].
      * intros final Hl. apply Hexit. by rewrite last_cons_cons in Hl.
    + exists []. rewrite app_nil_r. split; [done|]. split; [done|].
      split; [done|]. intros final [= <-]. right. split; [done|].
      by apply _find_next_hop_None.
  - exists []. rewrite app_nil_r. split; [done|]. split; [done|].
    split; [done|]. intros final [= <-]. left. lra.
Qed.

(** More fuel does not change what the loop returns. *)
Lemma find_route_loop_fuel_mono (fuel extra : nat) current route result :
  find_route_loop fuel destination vehicles traffic_data current route
    = Some result →
  find_route_loop (fuel + extra) destination vehicles traffic_data current route
    = Some result.
Proof.
  revert current route. induction fuel as [|fuel IH]; intros current route;
    [done|].
  simpl. destruct (decide _); [|done].
  destruct (_find_next_hop _ _ _ _); [apply IH|done].
Qed.

(** C8. The greedy strategy's [find_route] terminates on every input: with
    fuel for one more iteration than there are snapshot entries (and with any
    larger amount) it returns a route. On a cache miss the loop leaves
    [source :: hops]: each hop is the location of a snapshot entry and is
    strictly closer to the destination than the position it was taken from,
    and the loop is left only at a position within 100 m of the destination
    or one from which [_find_next_hop] finds no candidate, no snapshot entry
    being strictly closer to the destination. *)
Theorem C8_tmr_find_route_terminates (route_cache : RouteCache)
    (source : Location) (extra : nat) :
  let fuel := (S (length vehicles) + extra)%nat in
  (∃ result,
     find_route fuel route_cache source destination vehicles traffic_data
       = Some result) ∧
  (∃ hops,
     find_route_loop fuel destination vehicles traffic_data source [source]
       = Some (source :: hops) ∧
     descending destination source hops ∧
     Forall (λ h, ∃ item, item ∈ vehicles ∧ h = location item.2) hops ∧
     (∀ final, last (source :: hops) = Some final →
        _distance final destination <= 100 ∨
        (_find_next_hop final destination vehicles traffic_data = None ∧
         ∀ item, item ∈ vehicles →
           ¬ _distance (location item.2) destination
             < _distance final destination))).
Proof.
  intros fuel.
  destruct (find_route_loop_total fuel source [source])
    as (hops & Hloop & Hrest).
  { pose proof (closer_than_length vehicles destination source).
    unfold fuel. lia. }
  split; [|by exists hops].
  unfold find_route. destruct (dict_get _ _); [by eexists|].
  rewrite Hloop. by eexists.
Qed.

End TMRProperties.

Section TMRExamples.

Import Routing TMR Examples.
#[local] Open Scope R_scope.

(** With one relay 500 m from the source and 500 m from the destination the
    greedy strategy answers source, relay, destination. *)
Lemma tmr_relay_route :
  find_route 2 [] relay_source relay_destination relay_vehicles no_traffic
  = Some (relay_route,
          [(route_key relay_source relay_destination, relay_route)]).
Proof.
  unfold find_route. simpl.
  rewrite decide_True
    by (distance_is relay_source relay_destination 1000; lra).
  unfold _find_next_hop. simpl. unfold next_hop_step at 1. simpl.
  unfold _is_forward_progress.
  rewrite bool_decide_eq_true_2
    by (distance_is relay_source relay_destination 1000;
        distance_is relay_position relay_destination 500; lra).
  simpl.
  rewrite decide_True
    by (distance_is relay_position relay_destination 500; lra).
  unfold _find_next_hop. simpl. unfold next_hop_step at 1. simpl.
  unfold _is_forward_progress.
  rewrite bool_decide_eq_false_2 by lra.
  done.
Qed.

Lemma relay_route_out_of_range : ¬ hops_in_range relay_route.
Proof.
  intros H. specialize (H 0%nat relay_source relay_position).
  simpl in H. ospecialize (H _ _ _); [done|done|lia|].
  unfold Config.MAX_V2V_RANGE in H.
  revert H. distance_is relay_source relay_position 500. lra.
Qed.

End TMRExamples.

(** ** The junction-based strategy *)

Section GyTARProperties.

Import Routing GyTAR.
#[local] Open Scope R_scope.

Variables (destination : Location) (vehicles : Vehicles) (traffic_data : Traffic).

Lemma py_range_grid :
  py_range 0 3000 500 = [0; 500; 1000; 1500; 2000; 2500]%Z.
Proof. reflexivity. Qed.

Lemma elem_of_grid (x : Z) :
  x ∈ py_range 0 3000 500 → ∃ k : Z, x = (500 * k)%Z.
Proof.
  unfold py_range. intros (k & -> & _)%list_elem_of_fmap.
  exists (Z.of_nat k). lia.
Qed.

Lemma elem_of_potential_junctions (p j : Location) :
  j ∈ _get_potential_junctions p ↔
  ∃ x y, x ∈ py_range 0 3000 500 ∧ y ∈ py_range 0 3000 500 ∧
         j = junction_at x y ∧ _distance p j <= 300.
Proof.
  unfold _get_potential_junctions. rewrite list_elem_of_bind. split.
  - intros (x & (y & Hj & Hy)%list_elem_of_bind & Hx).
    destruct (decide _) as [Hd|]; [|by apply elem_of_nil in Hj].
    apply list_elem_of_singleton in Hj as ->. by exists x, y.
  - intros (x & y & Hx & Hy & -> & Hd). exists x. split; [|done].
    apply list_elem_of_bind. exists y. split; [|done].
    rewrite decide_True by done. by apply list_elem_of_singleton.
Qed.

(** Two junctions of the 500 m grid within [MAX_V2V_RANGE] = 300 m of each
    other are the same junction. *)
Lemma grid_junctions_apart (k l k' l' : Z) :
  _distance (junction_at (500 * k) (500 * l)) (junction_at (500 * k') (500 * l'))
    <= 300 →
  k = k' ∧ l = l'.
Proof.
  intros Hd. apply _distance_le_iff in Hd; [|lra]. simpl in Hd.
  rewrite !mult_IZR in Hd.
  assert ((IZR k - IZR k') ^ 2 + (IZR l - IZR l') ^ 2 < 1) as Hlt.
  { pose proof (pow2_ge_0 (IZR k - IZR k')).
    pose proof (pow2_ge_0 (IZR l - IZR l')). nra. }
  replace ((IZR k - IZR k') ^ 2 + (IZR l - IZR l') ^ 2)
    with (IZR ((k - k') * (k - k') + (l - l') * (l - l')))
    in Hlt by (rewrite plus_IZR, !mult_IZR, !minus_IZR; ring).
  apply lt_IZR in Hlt. clear Hd.
  pose proof (Z.square_nonneg (k - k')). pose proof (Z.square_nonneg (l - l')).
  assert (k - k' = 0)%Z by nia. assert (l - l' = 0)%Z by nia. split; lia.
Qed.

Lemma foldl_next_junction_Some current (js : list Location) best j :
  (foldl (next_junction_step current destination vehicles traffic_data) best js).2
    = Some j →
  best.2 = Some j ∨ j ∈ js.
Proof.
  revert best. induction js as [|j0 js IH]; intros best Hf; [by left|].
  simpl in Hf. apply IH in Hf as [Hb|Hin]; [|right; by right].
  unfold next_junction_step in Hb. destruct (exceeds _ _); [|by left].
  simpl in Hb. right. apply elem_of_cons. left. congruence.
Qed.

Lemma foldl_next_junction_is_Some current (js : list Location) best :
  is_Some best.2 →
  is_Some (foldl (next_junction_step current destination vehicles traffic_data)
             best js).2.
Proof.
  revert best. induction js as [|j0 js IH]; intros best Hb; [done|].
  simpl. apply IH. unfold next_junction_step. destruct (exceeds _ _); [|done].
  by eexists.
Qed.

Lemma _find_next_junction_is_Some current j :
  j ∈ _get_potential_junctions current →
  is_Some (_find_next_junction current destination vehicles traffic_data).
Proof.
  intros Hin. unfold _find_next_junction.
  destruct (_get_potential_junctions current) as [|j0 js];
    [by apply elem_of_nil in Hin|].
  simpl. apply foldl_next_junction_is_Some. by eexists.
Qed.

(** Asked at a junction of the grid, [_find_next_junction] answers with that
    very junction. *)
Lemma _find_next_junction_at_junction (x y : Z) :
  x ∈ py_range 0 3000 500 → y ∈ py_range 0 3000 500 →
  _find_next_junction (junction_at x y) destination vehicles traffic_data
    = Some (junction_at x y).
Proof.
  intros Hx Hy. set (J := junction_at x y).
  assert (J ∈ _get_potential_junctions J) as Hin.
  { apply elem_of_potential_junctions. exists x, y. split; [done|].
    split; [done|]. split; [done|]. rewrite _distance_self. lra. }
  destruct (_find_next_junction_is_Some J J Hin) as [j Hj].
  rewrite Hj. f_equal.
  apply foldl_next_junction_Some in Hj as [|Hj]; [done|].
  apply elem_of_potential_junctions in Hj as (x' & y' & Hx' & Hy' & -> & Hd).
  apply elem_of_grid in Hx as [k ->], Hy as [l ->].
  apply elem_of_grid in Hx' as [k' ->], Hy' as [l' ->].
  apply grid_junctions_apart in Hd as [-> ->]. done.
Qed.

Lemma _find_next_junction_in_grid current j :
  _find_next_junction current destination vehicles traffic_data = Some j →
  ∃ x y, x ∈ py_range 0 3000 500 ∧ y ∈ py_range 0 3000 500 ∧
         j = junction_at x y ∧ _distance current j <= 300.
Proof.
  intros Hj. apply foldl_next_junction_Some in Hj as [|Hj]; [done|].
  by apply elem_of_potential_junctions.
Qed.

Lemma foldl_next_vehicle_hop_Some current target (vs : Vehicles) best h :
  (foldl (next_vehicle_hop_step current target) best vs).2 = Some h →
  best.2 = Some h ∨
  ∃ item, item ∈ vs ∧ h = location item.2 ∧
    _distance h target < _distance current target.
Proof.
  revert best. induction vs as [|item vs IH]; intros best Hf; [by left|].
  simpl in Hf. apply IH in Hf as [Hb|(it & Hin & -> & Hlt)].
  - unfold next_vehicle_hop_step in Hb.
    destruct (_is_forward_progress _ _ _) eqn:Hfp; [|by left].
    destruct (exceeds _ _); [|by left].
    simpl in Hb. injection Hb as <-. right. exists item.
    split; [left|]. split; [done|].
    unfold _is_forward_progress in Hfp. by apply bool_decide_eq_true in Hfp.
  - right. exists it. split; [by right|done].
Qed.

(** The inner loop, [_find_path_to_junction], always returns: each hop is a
    snapshot entry strictly closer to the junction than the one before. *)
Lemma _find_path_to_junction_total (fuel : nat) (start junction : Location) :
  (length (closer_than vehicles junction start) < fuel)%nat →
  is_Some (_find_path_to_junction fuel start junction vehicles).
Proof.
  unfold _find_path_to_junction.
  assert (∀ current path,
            (length (closer_than vehicles junction current) < fuel)%nat →
            is_Some (path_to_junction_loop fuel junction vehicles current path))
    as Hloop.
  { induction fuel as [|fuel IH]; intros current path Hm; [lia|].
    simpl. destruct (decide _); [|done].
    destruct (_find_next_vehicle_hop current junction vehicles) as [h|] eqn:Hh;
      [|done].
    apply foldl_next_vehicle_hop_Some in Hh as [|(item & Hin & -> & Hlt)];
      [done|].
    apply IH.
    pose proof (closer_than_decreases vehicles junction current item Hin Hlt).
    lia. }
  intros Hm. destruct (Hloop start [start] Hm) as [path ->]. done.
Qed.

(** Once the current position is a junction that [_find_next_junction]
    answers with itself, more than 100 m from the destination, every
    iteration of the loop of [find_route] ends in the state it started from
    (with a longer route): no amount of fuel lets the loop return. *)
Lemma find_route_loop_stuck (J : Location) :
  _find_next_junction J destination vehicles traffic_data = Some J →
  _distance J destination > 100 →
  ∀ fuel path_fuel route,
    find_route_loop fuel path_fuel destination vehicles traffic_data J route
      = None.
Proof.
  intros Hself Hfar fuel path_fuel. induction fuel as [|fuel IH]; intros route;
    [done|].
  simpl. rewrite decide_True by done. rewrite Hself.
  destruct (_find_path_to_junction path_fuel J J vehicles); [apply IH|done].
Qed.

(** The loop of [find_route] returns only if it is not entered, if no
    junction is within range of the source, or if the first junction chosen
    is within 100 m of the destination. *)
Lemma find_route_loop_diverges (source J : Location) :
  _distance source destination > 100 →
  _find_next_junction source destination vehicles traffic_data = Some J →
  _distance J destination > 100 →
  ∀ fuel path_fuel route,
    find_route_loop fuel path_fuel destination vehicles traffic_data
      source route = None.
Proof.
  intros Hfar Hj HJfar fuel path_fuel route. destruct fuel as [|fuel]; [done|].
  simpl. rewrite decide_True by done. rewrite Hj.
  destruct (_find_path_to_junction _ _ _ _); [|done]. simpl.
  apply find_route_loop_stuck; [|done].
  apply _find_next_junction_in_grid in Hj as (x & y & Hx & Hy & -> & _).
  by apply _find_next_junction_at_junction.
Qed.

End GyTARProperties.

Section GyTARExamples.

Import Routing GyTAR Examples.
#[local] Open Scope R_scope.

(** The path to a junction from the junction itself is found at once. *)
Lemma _find_path_to_junction_self (path_fuel : nat) (J : Location) vehicles :
  _find_path_to_junction (S path_fuel) J J vehicles = Some [J; J].
Proof.
  unfold _find_path_to_junction. simpl.
  rewrite decide_False by (rewrite _distance_self; lra). done.
Qed.

(** C3 (failing input). From the source (0, 0), which is a junction of the
    grid, towards the destination (1000, 0), whatever the snapshot and the
    traffic summary, the junction-based [find_route] does not return. The
    source is 1000 m from the destination; the only junction within 300 m of
    (0, 0) is (0, 0) itself, so [_find_next_junction] answers (0, 0); the
    path to it is found at once; and the outer loop is back at (0, 0) with a
    longer route. No amount of fuel, for the outer loop or for the inner
    one, is enough. *)
Theorem C3_gytar_find_route_never_returns (vehicles : Vehicles)
    (traffic_data : Traffic) :
  _distance stuck_source stuck_destination > 100 ∧
  _find_next_junction stuck_source stuck_destination vehicles traffic_data
    = Some stuck_source ∧
  (∀ path_fuel : nat,
     _find_path_to_junction (S path_fuel) stuck_source stuck_source vehicles
       = Some [stuck_source; stuck_source]) ∧
  (∀ fuel path_fuel : nat,
     find_route fuel path_fuel [] stuck_source stuck_destination vehicles
       traffic_data = None).
Proof.
  assert (_distance stuck_source stuck_destination > 100) as Hfar
    by (distance_is stuck_source stuck_destination 1000; lra).
  assert (_find_next_junction stuck_source stuck_destination vehicles
            traffic_data = Some stuck_source) as Hself
    by (apply (_find_next_junction_at_junction _ _ _ 0%Z 0%Z);
        rewrite py_range_grid; set_solver).
  split; [done|]. split; [done|]. split.
  - intros path_fuel. apply _find_path_to_junction_self.
  - intros fuel path_fuel. unfold find_route. simpl.
    by rewrite find_route_loop_stuck.
Qed.

(** From [detour_source] the only junction within range is (500, 500). *)
Lemma detour_next_junction vehicles traffic_data :
  _find_next_junction detour_source detour_destination vehicles traffic_data
  = Some detour_junction.
Proof.
  assert (detour_junction ∈ _get_potential_junctions detour_source) as Hin.
  { apply elem_of_potential_junctions. exists 500%Z, 500%Z.
    rewrite py_range_grid. split; [set_solver|]. split; [set_solver|].
    split; [done|]. distance_is detour_source detour_junction 300. lra. }
  destruct (_find_next_junction_is_Some detour_destination vehicles traffic_data
              _ _ Hin) as [j Hj].
  rewrite Hj. f_equal.
  apply _find_next_junction_in_grid in Hj as (x & y & Hx & Hy & -> & Hd).
  apply _distance_le_iff in Hd; [|lra]. simpl in Hd.
  rewrite py_range_grid in Hx, Hy.
  repeat (apply elem_of_cons in Hx as [->|Hx]);
    try (by apply elem_of_nil in Hx);
    repeat (apply elem_of_cons in Hy as [->|Hy]);
    try (by apply elem_of_nil in Hy);
    first [reflexivity | exfalso; lra].
Qed.

Lemma detour_first_hop :
  _find_next_vehicle_hop detour_source detour_junction detour_vehicles
  = Some detour_position.
Proof.
  unfold _find_next_vehicle_hop, detour_vehicles. cbn [foldl].
  unfold next_vehicle_hop_step, _is_forward_progress. cbn [snd location].
  rewrite bool_decide_eq_true_2
    by (distance_is detour_source detour_junction 300;
        distance_is detour_position detour_junction 200; lra).
  done.
Qed.

Lemma detour_second_hop :
  _find_next_vehicle_hop detour_position detour_junction detour_vehicles = None.
Proof.
  unfold _find_next_vehicle_hop, detour_vehicles. cbn [foldl].
  unfold next_vehicle_hop_step, _is_forward_progress. cbn [snd location].
  rewrite bool_decide_eq_false_2 by lra. done.
Qed.

Lemma detour_path_to_junction :
  _find_path_to_junction 2 detour_source detour_junction detour_vehicles
  = Some [detour_source; detour_position; detour_junction].
Proof.
  unfold _find_path_to_junction. cbn [path_to_junction_loop].
  rewrite decide_True
    by (distance_is detour_source detour_junction 300; lra).
  rewrite detour_first_hop.
  rewrite decide_True
    by (distance_is detour_position detour_junction 200; lra).
  rewrite detour_second_hop. done.
Qed.

(** The junction-based strategy on the detour: the path goes through the
    neighbour, 500 m from the source. *)
Lemma gytar_detour_route :
  find_route 2 2 [] detour_source detour_destination detour_vehicles no_traffic
  = Some (detour_route,
          [(route_key detour_source detour_destination, detour_route)]).
Proof.
  unfold find_route. cbn [dict_get find_route_loop].
  rewrite decide_True
    by (apply _distance_gt_iff; [lra|simpl; lra]).
  rewrite detour_next_junction, detour_path_to_junction.
  cbn [mbind option_bind].
  rewrite decide_False
    by (distance_is detour_junction detour_destination 50; lra).
  done.
Qed.

Lemma detour_route_out_of_range : ¬ hops_in_range detour_route.
Proof.
  intros H. specialize (H 1%nat detour_source detour_position).
  simpl in H. ospecialize (H _ _ _); [done|done|lia|].
  unfold Config.MAX_V2V_RANGE in H.
  revert H. distance_is detour_source detour_position 500. lra.
Qed.

(** C2 (counterexample). The greedy strategy and the junction-based strategy
    each return a path in which a pair of consecutive waypoints that is not
    the last pair is 500 m apart. *)
Lemma C2_greedy_paths_out_of_range :
  TMR.find_route 2 [] relay_source relay_destination relay_vehicles no_traffic
    = Some (relay_route,
            [(route_key relay_source relay_destination, relay_route)]) ∧
  ¬ hops_in_range relay_route ∧
  find_route 2 2 [] detour_source detour_destination detour_vehicles no_traffic
    = Some (detour_route,
            [(route_key detour_source detour_destination, detour_route)]) ∧
  ¬ hops_in_range detour_route.
Proof.
  split; [apply tmr_relay_route|]. split; [apply relay_route_out_of_range|].
  split; [apply gytar_detour_route|apply detour_route_out_of_range].
Qed.

End GyTARExamples.

(** ** Route caches *)

Section CacheProperties.

Import Routing Examples.
#[local] Open Scope R_scope.

Lemma tmr_near_route :
  TMR.find_route 1 [] near_source near_destination [] no_traffic
  = Some (near_route, [(route_key near_source near_destination, near_route)]).
Proof.
  unfold TMR.find_route. simpl.
  rewrite decide_False
    by (distance_is near_source near_destination 50; lra).
  done.
Qed.

Lemma gytar_near_route :
  GyTAR.find_route 1 1 [] near_source near_destination [] no_traffic
  = Some (near_route, [(route_key near_source near_destination, near_route)]).
Proof.
  unfold GyTAR.find_route. simpl.
  rewrite decide_False
    by (distance_is near_source near_destination 50; lra).
  done.
Qed.

(** C6 (counterexample). A fresh router of either strategy that has answered
    one request holds one cached route, and a call of [update_traffic] leaves
    that route in the cache. *)
Lemma C6_update_traffic_keeps_small_cache :
  let cache := [(route_key near_source near_destination, near_route)] in
  TMR.find_route 1 [] near_source near_destination [] no_traffic
    = Some (near_route, cache) ∧
  GyTAR.find_route 1 1 [] near_source near_destination [] no_traffic
    = Some (near_route, cache) ∧
  TMR.update_traffic cache no_traffic = cache ∧
  GyTAR.update_traffic cache no_traffic = cache ∧
  length cache = 1%nat.
Proof.
  split; [apply tmr_near_route|]. split; [apply gytar_near_route|]. done.
Qed.

(** C6 (amended). [update_traffic] of the greedy and of the junction-based
    strategy empties the route cache when it holds more than 100 entries
    before the call, and leaves it as it is when it holds 100 entries or
    fewer. *)
Theorem C6_update_traffic_clears_over_100 (route_cache : RouteCache)
    (traffic_data : Traffic) :
  ((100 < length route_cache)%nat →
     TMR.update_traffic route_cache traffic_data = [] ∧
     GyTAR.update_traffic route_cache traffic_data = []) ∧
  ((length route_cache ≤ 100)%nat →
     TMR.update_traffic route_cache traffic_data = route_cache ∧
     GyTAR.update_traffic route_cache traffic_data = route_cache).
Proof.
  unfold TMR.update_traffic, GyTAR.update_traffic.
  split; intros Hlen; [rewrite !decide_True by done|rewrite !decide_False by lia];
    done.
Qed.

Lemma C6_witness :
  (100 < length full_cache)%nat ∧
  TMR.update_traffic full_cache no_traffic = [] ∧
  GyTAR.update_traffic full_cache no_traffic = [].
Proof.
  assert (100 < length full_cache)%nat as Hlen.
  { unfold full_cache. rewrite length_fmap, length_seq. lia. }
  split; [exact Hlen|].
  exact (proj1 (C6_update_traffic_clears_over_100 full_cache no_traffic) Hlen).
Defined.

End CacheProperties.

(** ** The flood-discovery strategy *)

Section AODVProperties.

Import Routing AODV.
#[local] Open Scope R_scope.

Lemma links_in_range_hops path : links_in_range path → hops_in_range path.
Proof. intros H i p q Hp Hq _. by apply (H i). Qed.

Lemma links_in_range_snoc path current q :
  links_in_range path → last path = Some current →
  _distance current q <= IZR Config.MAX_V2V_RANGE →
  links_in_range (path ++ [q]).
Proof.
  intros Hpath Hlast Hd i a b Ha Hb. rewrite last_lookup in Hlast.
  destruct (decide (S i < length path)%nat) as [Hlt|Hge].
  - rewrite lookup_app_l in Ha by lia. rewrite lookup_app_l in Hb by lia.
    by apply (Hpath i).
  - assert (S i = length path) as Hi.
    { apply lookup_lt_Some in Hb. rewrite length_app in Hb. simpl in Hb. lia. }
    rewrite lookup_app_l in Ha by lia. rewrite lookup_app_r in Hb by lia.
    replace (S i - length path)%nat with 0%nat in Hb by lia. simpl in Hb.
    replace (pred (length path)) with i in Hlast by lia.
    congruence.
Qed.

Lemma two_points_hops_in_range p q : hops_in_range [p; q].
Proof. intros i a b _ _ Hlen. simpl in Hlen. lia. Qed.

Section PyDictFacts.

Context {K V : Type} `{EqDecision K}.

Lemma dict_get_Forall (P : K * V → Prop) (k : K) (d : list (K * V)) (v : V) :
  Forall P d → dict_get k d = Some v → ∃ k', P (k', v).
Proof.
  induction d as [|[k' v'] d IH]; intros Hall Hget; [done|].
  apply Forall_cons in Hall as [Hhd Htl]. simpl in Hget.
  destruct (decide (k = k')); [|by apply IH].
  injection Hget as <-. by exists k'.
Qed.

Lemma dict_set_Forall (P : K * V → Prop) (k : K) (v : V) (d : list (K * V)) :
  (∀ k', P (k', v)) → Forall P d → Forall P (dict_set k v d).
Proof.
  intros Hv. induction d as [|[k' v'] d IH]; intros Hall; simpl.
  - by constructor.
  - apply Forall_cons in Hall as [Hhd Htl].
    destruct (decide (k = k')); constructor; auto.
Qed.

Lemma dict_del_Forall (P : K * V → Prop) (k : K) (d : list (K * V)) :
  Forall P d → Forall P (dict_del k d).
Proof.
  induction d as [|[k' v'] d IH]; intros Hall; simpl; [done|].
  apply Forall_cons in Hall as [Hhd Htl].
  destruct (decide (k = k')); [done|]. constructor; auto.
Qed.

End PyDictFacts.

Variables (destination : Location) (vehicles : Vehicles).

Lemma neighbour_fold (current : Location) (path : Route) (vs : Vehicles)
    (visited : list Location) (queue : list (Location * Route)) :
  last path = Some current → links_in_range path →
  (∀ item, item ∈ vs → item ∈ vehicles) →
  queue_ok queue →
  let state := foldl (neighbour_step current path) (visited, queue) vs in
  queue_ok state.2 ∧
  (length state.2 + length (unvisited vehicles state.1)
   ≤ length queue + length (unvisited vehicles visited))%nat.
Proof.
  intros Hlast Hpath. revert visited queue.
  induction vs as [|item vs IH]; intros visited queue Hsub Hq; simpl; [done|].
  destruct (decide ((_location_to_key (location item.2) ∉ visited)
                    ∧ _distance current (location item.2)
                      <= IZR Config.MAX_V2V_RANGE)) as [[Hnew Hd]|Hno].
  - assert (neighbour_step current path (visited, queue) item
            = (visited ++ [_location_to_key (location item.2)],
               queue ++ [(location item.2, path ++ [location item.2])]))
      as -> by (unfold neighbour_step; simpl; by rewrite decide_True).
    edestruct (IH (visited ++ [_location_to_key (location item.2)])
                 (queue ++ [(location item.2, path ++ [location item.2])]))
      as [Hq' Hm'].
    { intros it Hit. apply Hsub. by right. }
    { apply Forall_app. split; [done|]. constructor; [|done]. simpl. split.
      - by rewrite last_snoc.
      - by apply (links_in_range_snoc path current). }
    split; [exact Hq'|].
    rewrite length_app in Hm'. simpl in Hm'.
    assert (length (unvisited vehicles
                      (visited ++ [_location_to_key (location item.2)]))
            < length (unvisited vehicles visited))%nat as Hlt.
    { unfold unvisited. apply (filter_length_lt _ _ vehicles item).
      - intros b _ Hb Hin. apply Hb. apply elem_of_app. by left.
      - apply Hsub. left.
      - done.
      - intros Hn. apply Hn. apply elem_of_app. right. by left. }
    lia.
  - assert (neighbour_step current path (visited, queue) item
            = (visited, queue))
      as -> by (unfold neighbour_step; simpl; by rewrite decide_False).
    apply IH; [|done]. intros it Hit. apply Hsub. by right.
Qed.

(** The flood terminates: every iteration takes an entry off the queue, and
    an entry is put on it only for a location that was not visited before. *)
Lemma discover_loop_total (fuel : nat) (queue : list (Location * Route))
    (visited : list Location) (routes : list (Route * Route)) :
  (length queue + length (unvisited vehicles visited) < fuel)%nat →
  queue_ok queue → routes_ok routes →
  ∃ discovered,
    discover_loop fuel destination vehicles queue visited routes
      = Some discovered ∧
    routes_ok discovered.
Proof.
  revert queue visited routes.
  induction fuel as [|fuel IH]; intros queue visited routes Hm Hq Hr; [lia|].
  simpl. destruct queue as [|[current path] queue]; [by exists routes|].
  apply Forall_cons in Hq as [[Hlast Hpath] Hq]. simpl in Hlast, Hpath, Hm.
  destruct (decide _) as [Hd|_].
  - apply IH; [lia|done|].
    apply dict_set_Forall; [|done]. intros k'. simpl.
    by apply (links_in_range_snoc path current).
  - destruct (neighbour_fold current path vehicles visited queue)
      as [Hq' Hm']; [done..|].
    apply IH; [lia|done|done].
Qed.

Lemma foldl_best_route (routes : list (Route * Route)) best r :
  (foldl (best_route_step vehicles) best routes).2 = Some r →
  best.2 = Some r ∨ ∃ entry, entry ∈ routes ∧ r = entry.2.
Proof.
  revert best. induction routes as [|e routes IH]; intros best Hf; [by left|].
  simpl in Hf. apply IH in Hf as [Hb|(e' & Hin & ->)].
  - unfold best_route_step in Hb. destruct (score_gt _ _); [|by left].
    simpl in Hb. right. exists e. split; [left|congruence].
  - right. exists e'. split; [by right|done].
Qed.

Lemma _select_best_route_ok (routes : list (Route * Route)) r :
  routes_ok routes → _select_best_route routes vehicles = Some r →
  links_in_range r.
Proof.
  intros Hr Hs. unfold _select_best_route in Hs.
  destruct routes as [|e routes].
  - injection Hs as <-. intros i p q Hp. done.
  - apply foldl_best_route in Hs as [|(e' & Hin & ->)]; [done|].
    unfold routes_ok in Hr. rewrite Forall_forall in Hr. by apply Hr.
Qed.

(** On a cache miss [find_route] answers with what the flood discovers, or
    with the direct pair when it discovers nothing. *)
Lemma find_route_miss_in_range (route_cache : RouteCache) (source : Location)
    (traffic_data : Traffic) (extra : nat) :
  dict_get (route_key source destination) route_cache = None →
  ∃ route route_cache',
    find_route (S (S (length vehicles)) + extra) route_cache source destination
      vehicles traffic_data = Some (route, route_cache') ∧
    hops_in_range route ∧
    (links_in_range route ∨ route = [source; destination]).
Proof.
  intros Hmiss. unfold find_route. rewrite Hmiss.
  set (fuel := (S (S (length vehicles)) + extra)%nat).
  unfold _discover_route.
  destruct (discover_loop_total fuel [(source, [source])]
              [_location_to_key source] []) as (d & -> & Hd).
  { simpl. pose proof (length_filter
      (λ item : string * Vehicle,
         location item.2 ∉ [_location_to_key source]) vehicles).
    unfold unvisited, fuel. lia. }
  { constructor; [|done]. simpl. split; [done|]. intros i p q Hp Hq.
    destruct i; done. }
  { by constructor. }
  simpl. destruct (_select_best_route d vehicles) as [[|w r]|] eqn:Hsel; simpl.
  - eexists _, _. split; [done|].
    split; [apply two_points_hops_in_range|by right].
  - pose proof (_select_best_route_ok d (w :: r) Hd Hsel) as Hl.
    eexists _, _. split; [done|].
    split; [by apply links_in_range_hops|by left].
  - eexists _, _. split; [done|].
    split; [apply two_points_hops_in_range|by right].
Qed.

(** C2 (amended). On a cache miss the flood-discovery strategy's
    [find_route] returns, given fuel for two more iterations than there are
    snapshot entries (or more), and the path it returns has every pair of
    consecutive waypoints except possibly the last within [MAX_V2V_RANGE]:
    it is a discovered path, with every pair within range, the last
    included, or the direct pair source, destination. The greedy and the
    junction-based strategy compare no hop with [MAX_V2V_RANGE] and give no
    such guarantee. *)
Theorem C2_aodv_path_in_range (route_cache : RouteCache) (source : Location)
    (traffic_data : Traffic) (extra : nat) :
  dict_get (route_key source destination) route_cache = None →
  ∃ route route_cache',
    find_route (S (S (length vehicles)) + extra) route_cache source destination
      vehicles traffic_data = Some (route, route_cache') ∧
    hops_in_range route ∧
    (links_in_range route ∨ route = [source; destination]).
Proof. apply find_route_miss_in_range. Qed.

End AODVProperties.

Section AODVExamples.

Import Routing AODV Examples.
#[local] Open Scope R_scope.

Lemma hop_position_unvisited : hop_position ∉ [_location_to_key hop_source].
Proof.
  intros Hin. apply list_elem_of_singleton in Hin.
  assert (loc_x hop_position = loc_x (_location_to_key hop_source)) as Hx
    by by rewrite Hin.
  simpl in Hx. lra.
Qed.

Lemma discover_loop_far (fuel : nat) (destination current : Location)
    (vehicles : Vehicles) (path : Route) (queue : list (Location * Route))
    (visited : list Location) (routes : list (Route * Route)) :
  ¬ _distance current destination <= IZR Config.MAX_V2V_RANGE →
  discover_loop (S fuel) destination vehicles ((current, path) :: queue) visited
    routes
  = discover_loop fuel destination vehicles
      (foldl (neighbour_step current path) (visited, queue) vehicles).2
      (foldl (neighbour_step current path) (visited, queue) vehicles).1 routes.
Proof. intros Hfar. cbn [discover_loop]. by rewrite decide_False. Qed.

Lemma discover_loop_near (fuel : nat) (destination current : Location)
    (vehicles : Vehicles) (path : Route) (queue : list (Location * Route))
    (visited : list Location) (routes : list (Route * Route)) :
  _distance current destination <= IZR Config.MAX_V2V_RANGE →
  discover_loop (S fuel) destination vehicles ((current, path) :: queue) visited
    routes
  = discover_loop fuel destination vehicles queue visited
      (dict_set (_calculate_route_key (path ++ [destination]))
         (path ++ [destination]) routes).
Proof. intros Hnear. cbn [discover_loop]. by rewrite decide_True. Qed.

(** With one relay 250 m from the source and 250 m from the destination, the
    flood discovers source, relay, destination, and the route is cached. *)
Lemma aodv_hop_route :
  find_route 3 [] hop_source hop_destination hop_vehicles no_traffic
  = Some (hop_route, [(route_key hop_source hop_destination, hop_route)]).
Proof.
  assert (foldl (neighbour_step hop_source [hop_source])
            ([_location_to_key hop_source], []) hop_vehicles
          = ([hop_source; hop_position],
             [(hop_position, [hop_source; hop_position])])) as Hfold.
  { unfold hop_vehicles. cbn [foldl]. unfold neighbour_step.
    cbn [fst snd location]. rewrite decide_True; [done|].
    split; [apply hop_position_unvisited|].
    distance_is hop_source hop_position 250. unfold Config.MAX_V2V_RANGE. lra. }
  unfold find_route. cbn [dict_get]. unfold _discover_route.
  rewrite discover_loop_far
    by (distance_is hop_source hop_destination 500; unfold Config.MAX_V2V_RANGE;
        lra).
  rewrite Hfold. cbn [fst snd].
  rewrite discover_loop_near
    by (distance_is hop_position hop_destination 250;
        unfold Config.MAX_V2V_RANGE; lra).
  cbn [discover_loop mbind option_bind app dict_set].
  unfold _select_best_route. cbn [foldl]. unfold best_route_step.
  cbn [fst snd]. unfold _calculate_route_score.
  rewrite decide_False by (simpl; lia). done.
Qed.

Lemma C2_witness :
  find_route 3 [] hop_source hop_destination hop_vehicles no_traffic
    = Some (hop_route, [(route_key hop_source hop_destination, hop_route)]) ∧
  ∃ route route_cache',
    find_route (S (S (length hop_vehicles)) + 0) [] hop_source hop_destination
      hop_vehicles no_traffic = Some (route, route_cache') ∧
    hops_in_range route ∧
    (links_in_range route ∨ route = [hop_source; hop_destination]).
Proof.
  split; [apply aodv_hop_route|].
  apply (C2_aodv_path_in_range hop_destination hop_vehicles [] hop_source
           no_traffic 0).
  reflexivity.
Defined.

End AODVExamples.

(** ** The anomaly detector *)

Section RSUProperties.

Import Routing RSU.
#[local] Open Scope R_scope.

Variable sha256_json : list (string * pyval R) -> string.

#[local] Abbreviation _update_vehicle_data :=
  (RSU._update_vehicle_data sha256_json).

(** An update for a vehicle of the ledger's malicious set is rejected before
    anything is evaluated: neither the detector nor the ledger changes. *)
Lemma update_rejected rsu bc vid data addr_port current_time t_payload t_block :
  vid ∈ Ledger.get_malicious_vehicles bc →
  _update_vehicle_data rsu bc vid data addr_port current_time t_payload t_block
    = Some (rsu, bc).
Proof. intros Hin. unfold RSU._update_vehicle_data. by rewrite decide_True. Qed.

Lemma add_malicious_vehicle_Some (bc : Ledger.Blockchain R) vid t_payload t_block :
  Ledger.chain bc ≠ [] →
  ∃ block,
    Ledger.add_malicious_vehicle sha256_json bc vid t_payload t_block
      = Some {| Ledger.chain := Ledger.chain bc ++ [block];
                Ledger.malicious_vehicles :=
                  {[vid]} ∪ Ledger.malicious_vehicles bc |} ∧
    Ledger.data block = Ledger.malicious_payload vid t_payload.
Proof.
  intros Hne. unfold Ledger.add_malicious_vehicle.
  set (bc1 := {| Ledger.chain := Ledger.chain bc;
                 Ledger.malicious_vehicles :=
                   {[vid]} ∪ Ledger.malicious_vehicles bc |}).
  destruct (add_block_Some sha256_json bc1
              (Ledger.malicious_payload vid t_payload) t_block Hne)
    as (prev & Hl & ->).
  eexists. split; done.
Qed.

(** C4. For a tracked vehicle that is not in the ledger's malicious set, an
    update that is evaluated and found suspicious has these effects. When it
    is the second suspicious event (the counter goes from 1 to 2) the vehicle
    stays tracked and the ledger is unchanged, so the vehicle is not marked.
    When it is the third (the counter goes from 2 to 3) exactly one block is
    appended to the ledger, carrying the malicious-vehicle marking; the
    vehicle joins the malicious set and leaves [connected_vehicles], so the
    triggering update is not stored; and every later update for that id
    returns the detector's state and the ledger unchanged. *)
Theorem C4_third_suspicious_event_marks (rsu : State)
    (bc : Ledger.Blockchain R) (vid : string) (prev_data data : VehicleData)
    (addr_port : Z) (current_time t_payload t_block : R) :
  connected_vehicles rsu !! vid = Some prev_data →
  vid ∉ Ledger.get_malicious_vehicles bc →
  Ledger.chain bc ≠ [] →
  current_time - timestamp prev_data > 0 →
  is_suspicious rsu bc prev_data data current_time = true →
  (suspicious_count rsu !! vid = Some 1%nat →
   ∃ rsu',
     _update_vehicle_data rsu bc vid data addr_port current_time
       t_payload t_block = Some (rsu', bc) ∧
     suspicious_count rsu' !! vid = Some 2%nat ∧
     is_Some (connected_vehicles rsu' !! vid)) ∧
  (suspicious_count rsu !! vid = Some 2%nat →
   ∃ rsu' bc' block,
     _update_vehicle_data rsu bc vid data addr_port current_time
       t_payload t_block = Some (rsu', bc') ∧
     Ledger.chain bc' = Ledger.chain bc ++ [block] ∧
     Ledger.data block = Ledger.malicious_payload vid t_payload ∧
     Ledger.get_malicious_vehicles bc'
       = {[vid]} ∪ Ledger.get_malicious_vehicles bc ∧
     connected_vehicles rsu' = delete vid (connected_vehicles rsu) ∧
     connected_vehicles rsu' !! vid = None ∧
     ∀ data' addr_port' current_time' t_payload' t_block',
       _update_vehicle_data rsu' bc' vid data' addr_port' current_time'
         t_payload' t_block' = Some (rsu', bc')).
Proof.
  intros Htracked Hclean Hne Hdiff Hsusp.
  unfold RSU._update_vehicle_data at 1 2.
  rewrite !decide_False by done. rewrite Htracked.
  rewrite !decide_True by done. rewrite Hsusp.
  split; intros Hcount; rewrite Hcount; simpl.
  - eexists. split; [done|]. simpl. split.
    + by rewrite lookup_insert_eq.
    + rewrite lookup_insert_eq. by eexists.
  - destruct (add_malicious_vehicle_Some bc vid t_payload t_block Hne)
      as (block & -> & Hdata).
    eexists _, _, block. simpl. split; [done|]. split; [done|].
    split; [done|]. split; [done|]. split; [done|].
    split; [apply lookup_delete_eq|].
    intros data' addr_port' current_time' t_payload' t_block'.
    apply update_rejected. simpl. set_solver.
Qed.


(** The same statement stores a non-suspicious update. *)
Lemma non_suspicious_update_is_stored (rsu : State) (bc : Ledger.Blockchain R)
    (vid : string) (prev_data data : VehicleData) (addr_port : Z)
    (current_time t_payload t_block : R) :
  connected_vehicles rsu !! vid = Some prev_data →
  vid ∉ Ledger.get_malicious_vehicles bc →
  is_suspicious rsu bc prev_data data current_time = false →
  _update_vehicle_data rsu bc vid data addr_port current_time
    t_payload t_block
  = Some (store rsu vid data current_time addr_port, bc).
Proof.
  intros Htracked Hclean Hsusp. unfold RSU._update_vehicle_data.
  rewrite decide_False by done. rewrite Htracked, Hsusp.
  by destruct (decide _).
Qed.

End RSUProperties.

Section DetectorChecks.

Import Routing RSU.
#[local] Open Scope R_scope.

(** A report is counted by check 4 exactly when it is the flag of a stored
    snapshot of a vehicle outside the malicious set, within 300 m of the
    reported location and less than 2 s old. *)
Lemma elem_of_nearby_reports (rsu : State) (bc : Ledger.Blockchain R)
    (data : VehicleData) (current_time : R) (report : bool) :
  report ∈ nearby_reports rsu bc data current_time ↔
  ∃ vid v, connected_vehicles rsu !! vid = Some v ∧
    (vid ∉ Ledger.get_malicious_vehicles bc) ∧
    _distance (location data) (location v) <= 300 ∧
    sees_accident v = Some report ∧ timestamp v > current_time - 2.
Proof.
  unfold nearby_reports. rewrite list_elem_of_omap. split.
  - intros (v & Hv & Hf). apply list_elem_of_fmap in Hv as ([vid v'] & -> & Hin).
    apply elem_of_map_to_list in Hin. unfold _get_nearby_vehicles in Hin.
    apply map_lookup_filter_Some in Hin as (Hl & Hm & Hd). simpl in *.
    exists vid, v'. destruct (sees_accident v') as [r|]; [|done].
    destruct (decide _); [|done]. injection Hf as ->. done.
  - intros (vid & v & Hl & Hm & Hd & Hs & Ht). exists v. split.
    + apply list_elem_of_fmap. exists (vid, v). split; [done|].
      apply elem_of_map_to_list. unfold _get_nearby_vehicles.
      apply map_lookup_filter_Some. done.
    + rewrite Hs. by rewrite decide_True.
Qed.

Lemma majority_report_singleton (report : bool) :
  majority_report [report] = report.
Proof.
  unfold majority_report. destruct report; simpl.
  - apply bool_decide_eq_true_2. lra.
  - apply bool_decide_eq_false_2. lra.
Qed.




(** C7. A tracked vehicle whose stored speed is 80 km/h and whose stored
    location is (0, 0) sends an update 1 second later. If the update reports
    location (1000, 0), it is flagged suspicious by the kinematic bound: 1000 m
    exceeds 80 km/h in m/s, times 1 s, times 1.2. If it reports location
    (22, 0), neither the kinematic bound nor the geo-fence flags it, and no
    check does when its reported speed is within the speed bound (the
    scenario's vehicle reports about 79 km/h) and the peer-consensus check
    does not fire. *)
Theorem C7_kinematic_bound_scenario (rsu : State) (bc : Ledger.Blockchain R)
    (prev_data data : VehicleData) (current_time : R) :
  speed prev_data = 80 →
  location prev_data = {| loc_x := 0; loc_y := 0 |} →
  current_time - timestamp prev_data = 1 →
  (location data = {| loc_x := 1000; loc_y := 0 |} →
   movement_check prev_data data (current_time - timestamp prev_data) = true ∧
   is_suspicious rsu bc prev_data data current_time = true) ∧
  (location data = {| loc_x := 22; loc_y := 0 |} →
   movement_check prev_data data (current_time - timestamp prev_data) = false ∧
   bounds_check data = false ∧
   (speed data <= IZR Config.VEHICLE_MAX_VELOCITY * 1.5 →
    accident_check rsu bc data current_time = false →
    is_suspicious rsu bc prev_data data current_time = false)).
Proof.
  intros Hspeed Hloc Hdiff. unfold is_suspicious, movement_check.
  rewrite Hspeed, Hloc, Hdiff. split; intros Hnew; rewrite Hnew.
  - distance_is {| loc_x := 1000; loc_y := 0 |} {| loc_x := 0; loc_y := 0 |}
      1000.
    rewrite (bool_decide_eq_true_2 (1000 > _)) by lra.
    split; [done|]. by rewrite orb_true_r.
  - distance_is {| loc_x := 22; loc_y := 0 |} {| loc_x := 0; loc_y := 0 |} 22.
    rewrite (bool_decide_eq_false_2 (22 > _)) by lra.
    assert (bounds_check data = false) as Hb.
    { unfold bounds_check. rewrite Hnew. simpl.
      apply bool_decide_eq_false_2. unfold Config.NETWORK_LENGTH,
        Config.NETWORK_WIDTH. lra. }
    split; [done|]. split; [done|]. intros Hs Ha.
    unfold speed_check. rewrite bool_decide_eq_false_2 by lra.
    by rewrite Hb, Ha.
Qed.

End DetectorChecks.

Section DetectorExamples.

Import Routing RSU Examples.
#[local] Open Scope R_scope.

Lemma fresh_ledger_clean (vid : string) :
  vid ∉ Ledger.get_malicious_vehicles fresh_ledger.
Proof. set_solver. Qed.




(** The reports counted are not restricted to other vehicles: the stored
    snapshot of the reporting vehicle itself is one of them. *)
Lemma own_report_is_counted :
  nearby_reports lone_state fresh_ledger lone_update 10 = [false] ∧
  accident_check lone_state fresh_ledger lone_update 10 = true.
Proof.
  assert (nearby_reports lone_state fresh_ledger lone_update 10 = [false])
    as Hr.
  { unfold nearby_reports, _get_nearby_vehicles, lone_state.
    cbn [connected_vehicles].
    rewrite map_filter_singleton_True.
    2:{ split; [apply fresh_ledger_clean|]. simpl.
        distance_is {| loc_x := 10; loc_y := 0 |} {| loc_x := 0; loc_y := 0 |}
          10.
        lra. }
    rewrite map_to_list_singleton. simpl. rewrite decide_True by lra. done. }
  split; [done|]. unfold accident_check. rewrite Hr. simpl.
  by rewrite majority_report_singleton.
Qed.

Lemma speeding_is_suspicious rsu bc prev_data :
  is_suspicious rsu bc prev_data speeding_update 10 = true.
Proof.
  unfold is_suspicious, speed_check. simpl.
  rewrite bool_decide_eq_true_2; [done|].
  unfold Config.VEHICLE_MAX_VELOCITY. lra.
Qed.

Lemma C4_witness :
  ∃ rsu' bc' block,
    _update_vehicle_data constant_digest marked_twice_state fresh_ledger "A"
      speeding_update 5001 10 10 10 = Some (rsu', bc') ∧
    Ledger.chain bc' = Ledger.chain fresh_ledger ++ [block] ∧
    Ledger.data block = Ledger.malicious_payload "A" 10 ∧
    Ledger.get_malicious_vehicles bc'
      = {["A"]} ∪ Ledger.get_malicious_vehicles fresh_ledger ∧
    connected_vehicles rsu' = delete "A" (connected_vehicles marked_twice_state) ∧
    connected_vehicles rsu' !! "A" = None ∧
    ∀ data' addr_port' current_time' t_payload' t_block',
      _update_vehicle_data constant_digest rsu' bc' "A" data' addr_port'
        current_time' t_payload' t_block' = Some (rsu', bc').
Proof.
  apply (C4_third_suspicious_event_marks constant_digest marked_twice_state
           fresh_ledger "A" (stored (beacon "A" 0 0 60 None 9) 9 5001)
           speeding_update 5001 10 10 10).
  - apply lookup_singleton_eq.
  - apply fresh_ledger_clean.
  - done.
  - simpl. lra.
  - apply speeding_is_suspicious.
  - apply lookup_singleton_eq.
Defined.


Lemma C7_witness :
  is_suspicious kinematic_state fresh_ledger kinematic_prev kinematic_jump 10
    = true ∧
  is_suspicious kinematic_state fresh_ledger kinematic_prev kinematic_move 10
    = false.
Proof.
  split.
  - apply (C7_kinematic_bound_scenario kinematic_state fresh_ledger
             kinematic_prev kinematic_jump 10); [done|done|simpl; lra|done].
  - apply (C7_kinematic_bound_scenario kinematic_state fresh_ledger
             kinematic_prev kinematic_move 10); [done|done|simpl; lra|done| |done].
    simpl. unfold Config.VEHICLE_MAX_VELOCITY. lra.
Defined.


End DetectorExamples.

(** ** Further properties of the ledger *)

Section LedgerFurther.

Context {F : Type} (sha256_json : list (string * pyval F) -> string).

Import Ledger.

#[local] Abbreviation run_call := (Ledger.run_call sha256_json).
#[local] Abbreviation run_calls := (Ledger.run_calls sha256_json).
#[local] Abbreviation is_chain_valid := (Ledger.is_chain_valid sha256_json).
#[local] Abbreviation block_ok := (Ledger.block_ok sha256_json).
#[local] Abbreviation chain_invariant := (Ledger.chain_invariant sha256_json).
#[local] Abbreviation Block__init__ := (Ledger.Block__init__ sha256_json).
#[local] Abbreviation Blockchain__init__ := (Ledger.Blockchain__init__ sha256_json).

(** One call, in full: the block appended and the malicious set left. *)
Lemma run_call_spec (bc : Blockchain F) (c : call F) :
  chain bc ≠ [] →
  ∃ prev, last (chain bc) = Some prev ∧
    run_call bc c =
      Some {| chain := chain bc
                ++ [Block__init__ (index prev + 1) (call_block_time c)
                      (call_payload c) (hash prev)];
              malicious_vehicles :=
                match call_marks c with
                | Some v => {[v]} ∪ malicious_vehicles bc
                | None => malicious_vehicles bc
                end |}.
Proof.
  intros Hne. destruct c as [d now|v l s dr m t1 t2|r cv td t1 t2|v t1 t2]; simpl.
  - destruct (add_block_Some sha256_json bc d now Hne) as (prev & Hl & ->).
    exists prev. split; [done|]. by destruct bc.
  - unfold record_vehicle_data.
    destruct (add_block_Some sha256_json bc
                (vehicle_data_payload v l s dr m t1) t2 Hne)
      as (prev & Hl & ->).
    exists prev. split; [done|]. by destruct bc.
  - unfold record_rsu_data.
    destruct (add_block_Some sha256_json bc (rsu_data_payload r cv td t1) t2 Hne)
      as (prev & Hl & ->).
    exists prev. split; [done|]. by destruct bc.
  - unfold add_malicious_vehicle.
    set (bc1 := {| chain := chain bc;
                   malicious_vehicles := {[v]} ∪ malicious_vehicles bc |}).
    destruct (add_block_Some sha256_json bc1 (malicious_payload v t1) t2 Hne)
      as (prev & Hl & ->).
    exists prev. split; [done|]. done.
Qed.

(** X1. The ledger is append-only. From a ledger with at least one block, a
    sequence of appending calls ([add_block], [record_vehicle_data],
    [record_rsu_data], [add_malicious_vehicle]) never fails and leaves the old
    chain as a prefix of the new one, followed by one block per call that
    carries, in call order, the payload of the call and the clock reading
    taken by [add_block]. *)
Theorem ledger_is_append_only (bc : Blockchain F) (cs : list (call F)) :
  chain bc ≠ [] →
  ∃ bc' blocks,
    run_calls bc cs = Some bc' ∧
    chain bc' = chain bc ++ blocks ∧
    data <$> blocks = call_payload <$> cs ∧
    timestamp <$> blocks = call_block_time <$> cs.
Proof.
  revert bc. induction cs as [|c cs IH]; intros bc Hne.
  - exists bc, []. by rewrite app_nil_r.
  - destruct (run_call_spec bc c Hne) as (prev & Hl & Hrun).
    simpl. rewrite Hrun. simpl.
    edestruct IH as (bc' & blocks & -> & Hchain & Hdata & Htime).
    2:{ eexists bc', (_ :: blocks). split; [done|]. simpl in Hchain.
        rewrite Hchain, <- app_assoc.
        split; [done|]. by rewrite !fmap_cons, Hdata, Htime. }
    simpl. by destruct (chain bc).
Qed.

(** X2. Blocks are numbered by position. On a ledger built by [Blockchain()] and
    any sequence of appending calls, the block stored at position i carries
    index i. *)
Theorem block_index_is_position (t0 : F) (cs : list (call F)) :
  ∃ bc, run_calls (Blockchain__init__ t0) cs = Some bc ∧
    ∀ (i : nat) b, chain bc !! i = Some b → index b = Z.of_nat i.
Proof.
  assert (∀ bc : Blockchain F,
            chain bc ≠ [] →
            (∀ (i : nat) b, chain bc !! i = Some b → index b = Z.of_nat i) →
            ∃ bc', run_calls bc cs = Some bc' ∧
              ∀ (i : nat) b, chain bc' !! i = Some b → index b = Z.of_nat i)
    as Hgen.
  { induction cs as [|c cs IH]; intros bc Hne Hidx; [by exists bc|].
    destruct (run_call_spec bc c Hne) as (prev & Hl & Hrun).
    simpl. rewrite Hrun. simpl. apply IH; simpl; [by destruct (chain bc)|].
    intros i b Hb. rewrite last_lookup in Hl.
    destruct (decide (i < length (chain bc))) as [Hlt|Hge].
    - rewrite lookup_app_l in Hb by done. by apply Hidx.
    - pose proof (lookup_lt_Some _ _ _ Hb) as Hi.
      rewrite length_app in Hi. simpl in Hi.
      assert (i = length (chain bc)) as -> by lia.
      rewrite lookup_app_r in Hb by lia. rewrite Nat.sub_diag in Hb.
      injection Hb as <-. simpl. apply Hidx in Hl. rewrite Hl.
      destruct (chain bc); [done|]. simpl. lia. }
  apply Hgen; [done|]. intros [|i] b Hb; [by injection Hb as <-|done].
Qed.

(** X3. The malicious set records exactly the calls of [add_malicious_vehicle].
    On a ledger built by [Blockchain()] and any sequence of appending calls,
    a vehicle id is in [get_malicious_vehicles()] if and only if one of the
    calls was [add_malicious_vehicle] for that id: no other operation adds an
    id, and none ever removes one. *)
Theorem malicious_set_is_marked_ids (t0 : F) (cs : list (call F)) :
  ∃ bc, run_calls (Blockchain__init__ t0) cs = Some bc ∧
    ∀ vid, vid ∈ get_malicious_vehicles bc ↔ Some vid ∈ call_marks <$> cs.
Proof.
  assert (∀ bc : Blockchain F,
            chain bc ≠ [] →
            ∃ bc', run_calls bc cs = Some bc' ∧
              ∀ vid, vid ∈ get_malicious_vehicles bc' ↔
                     vid ∈ get_malicious_vehicles bc
                     ∨ Some vid ∈ call_marks <$> cs) as Hgen.
  { induction cs as [|c cs IH]; intros bc Hne.
    - exists bc. split; [done|]. intros vid. simpl. split; [by left|].
      intros [Hin|Hin]; [done|by apply elem_of_nil in Hin].
    - destruct (run_call_spec bc c Hne) as (prev & Hl & Hrun).
      simpl. rewrite Hrun. simpl.
      edestruct IH as (bc' & -> & Hiff).
      2:{ exists bc'. split; [done|]. intros vid. rewrite Hiff.
          unfold get_malicious_vehicles. simpl. rewrite elem_of_cons.
          destruct (call_marks c) as [v|].
          - rewrite elem_of_union, elem_of_singleton. split.
            + intros [[->|Hin]|Hin]; [right; by left|by left|right; by right].
            + intros [Hin|[[= ->]|Hin]];
                [left; by right|left; by left|by right].
          - split.
            + intros [Hin|Hin]; [by left|right; by right].
            + intros [Hin|[[=]|Hin]]; [by left|by right]. }
      simpl. by destruct (chain bc). }
  destruct (Hgen (Blockchain__init__ t0)) as (bc & Hrun & Hiff); [done|].
  exists bc. split; [done|]. intros vid. rewrite Hiff.
  unfold get_malicious_vehicles. simpl. split; [|by right].
  intros [Hin|Hin]; [by apply not_elem_of_empty in Hin|done].
Qed.

(** X4. Every malicious vehicle has its marking on the chain. On a ledger built
    by [Blockchain()] and any sequence of appending calls, each id of the
    malicious set is the [vehicle_id] of a stored block whose payload is a
    malicious-vehicle marking. *)
Theorem malicious_vehicle_has_marking_block (t0 : F) (cs : list (call F)) :
  ∃ bc, run_calls (Blockchain__init__ t0) cs = Some bc ∧
    ∀ vid, vid ∈ get_malicious_vehicles bc →
      ∃ b t, b ∈ chain bc ∧ data b = malicious_payload vid t.
Proof.
  assert (∀ bc : Blockchain F,
            chain bc ≠ [] →
            (∀ vid, vid ∈ get_malicious_vehicles bc →
               ∃ b t, b ∈ chain bc ∧ data b = malicious_payload vid t) →
            ∃ bc', run_calls bc cs = Some bc' ∧
              ∀ vid, vid ∈ get_malicious_vehicles bc' →
                ∃ b t, b ∈ chain bc' ∧ data b = malicious_payload vid t)
    as Hgen.
  { induction cs as [|c cs IH]; intros bc Hne Hinv; [by exists bc|].
    destruct (run_call_spec bc c Hne) as (prev & Hl & Hrun).
    simpl. rewrite Hrun. simpl. apply IH; simpl; [by destruct (chain bc)|].
    unfold get_malicious_vehicles. simpl. intros vid Hin.
    assert (vid ∈ malicious_vehicles bc ∨ call_marks c = Some vid) as [Hold|Hc].
    { destruct (call_marks c) as [v|]; [|by left].
      apply elem_of_union in Hin as [->%elem_of_singleton|]; [by right|by left]. }
    - destruct (Hinv vid Hold) as (b & t & Hb & Hd).
      exists b, t. split; [|done]. apply elem_of_app. by left.
    - destruct c as [| | |v t1 t2]; try done. injection Hc as ->.
      eexists _, t1. split; [apply elem_of_app; right; by left|done]. }
  apply Hgen; [done|]. unfold get_malicious_vehicles. simpl.
  intros vid Hin. by apply not_elem_of_empty in Hin.
Qed.

(** X5. What [is_chain_valid] answers on an untouched ledger. On a ledger built
    by [Blockchain()] and any sequence of appending calls, the linkage test
    never fails and the answer is [True] exactly when, for every appended
    block, the digest of its five attributes ([hash] included, as
    [calculate_hash] reads them after construction) equals the digest of the
    four attributes taken when the block was built. With no appended block
    the answer is [True]. *)
Theorem is_chain_valid_on_untouched_ledger (t0 : F) (cs : list (call F)) :
  ∃ bc, run_calls (Blockchain__init__ t0) cs = Some bc ∧
    is_chain_valid bc
    = forallb (λ b : Block F,
                 bool_decide
                   (sha256_json (__dict__ b)
                    = sha256_json (init_dict (index b) (timestamp b) (data b)
                                     (previous_hash b))))
        (drop 1 (chain bc)).
Proof.
  destruct (run_calls_invariant sha256_json (Blockchain__init__ t0) cs)
    as (bc & Hrun & (Hne & Hlink & Hhash) & _).
  { apply chain_invariant_genesis. }
  exists bc. split; [done|]. unfold Ledger.is_chain_valid.
  apply eq_true_iff_eq. rewrite !forallb_forall. split.
  - intros Hv b Hb. apply list_elem_of_In, list_elem_of_lookup in Hb as [i Hi].
    rewrite lookup_drop in Hi. simpl in Hi.
    pose proof (lookup_lt_Some _ _ _ Hi) as Hlt.
    specialize (Hv (S i)). ospecialize (Hv _). { apply in_seq. lia. }
    unfold Ledger.block_ok in Hv. rewrite Hi in Hv. simpl in Hv.
    rewrite Nat.sub_0_r in Hv.
    destruct (chain bc !! i) as [p|] eqn:Hp;
      [|apply lookup_ge_None in Hp; lia].
    destruct (decide (hash b ≠ _)) as [|Heq]; [done|].
    apply dec_stable in Heq. apply bool_decide_eq_true.
    unfold Ledger.calculate_hash in Heq. rewrite <- Heq.
    apply Hhash. by eapply list_elem_of_lookup_2.
  - intros Hv i Hin. apply in_seq in Hin.
    unfold Ledger.block_ok.
    destruct (chain bc !! i) as [b|] eqn:Hb; [|done].
    destruct (chain bc !! (i - 1)) as [p|] eqn:Hp; [|done].
    destruct i as [|i]; [lia|]. simpl in Hp. rewrite Nat.sub_0_r in Hp.
    destruct (Hlink i b p Hb Hp) as [Hprev _].
    specialize (Hv b). ospecialize (Hv _).
    { apply list_elem_of_In, list_elem_of_lookup. exists i.
      by rewrite lookup_drop. }
    apply bool_decide_eq_true in Hv.
    rewrite decide_False; [by rewrite decide_False by (by intros ?)|].
    intros Hneq. apply Hneq. unfold Ledger.calculate_hash. rewrite Hv.
    apply Hhash. by eapply list_elem_of_lookup_2.
Qed.

End LedgerFurther.

Lemma ledger_is_append_only_witness :
  ∃ bc' blocks,
    Ledger.run_calls Examples.constant_digest Examples.fresh_ledger
      [Ledger.Add_malicious_vehicle "A" 1%R 2%R;
       Ledger.Add_block (PDict [("message", PStr "hello")]) 3%R] = Some bc' ∧
    Ledger.chain bc' = Ledger.chain Examples.fresh_ledger ++ blocks ∧
    Ledger.data <$> blocks
      = [Ledger.malicious_payload "A" 1%R; PDict [("message", PStr "hello")]] ∧
    Ledger.timestamp <$> blocks = [2%R; 3%R].
Proof.
  apply (ledger_is_append_only Examples.constant_digest Examples.fresh_ledger
           [Ledger.Add_malicious_vehicle "A" 1%R 2%R;
            Ledger.Add_block (PDict [("message", PStr "hello")]) 3%R]).
  done.
Defined.

(** ** Further properties of the road-side unit *)

Section TrafficStatistics.

Import Routing RSU RSUNode.
#[local] Open Scope R_scope.

Lemma count_factor_range (n : nat) :
  0 <= Rmin 1 (INR n / (IZR Config.MAX_VEHICLES / 2)) <= 1.
Proof.
  pose proof (pos_INR n) as Hn. unfold Config.MAX_VEHICLES.
  assert (0 <= INR n / (101 / 2)) by (apply Rle_mult_inv_pos; lra).
  unfold Rmin. destruct (Rle_dec _ _); lra.
Qed.

Lemma congestion_level_range (n : nat) (avg_speed : R) :
  IZR Config.VEHICLE_MIN_VELOCITY <= avg_speed <= IZR Config.VEHICLE_MAX_VELOCITY →
  0 <= _calculate_congestion_level n avg_speed <= 1.
Proof.
  unfold _calculate_congestion_level, Config.VEHICLE_MIN_VELOCITY,
    Config.VEHICLE_MAX_VELOCITY.
  intros Havg. pose proof (count_factor_range n). lra.
Qed.

(** X6. The congestion level is a fraction when the average speed is one a
    vehicle can have: for an average speed between [VEHICLE_MIN_VELOCITY] and
    [VEHICLE_MAX_VELOCITY], [_calculate_congestion_level] lies between 0 and
    1, whatever the vehicle count. *)
Theorem congestion_level_is_a_fraction (n : nat) (avg_speed : R) :
  IZR Config.VEHICLE_MIN_VELOCITY <= avg_speed <= IZR Config.VEHICLE_MAX_VELOCITY →
  0 <= _calculate_congestion_level n avg_speed <= 1.
Proof. apply congestion_level_range. Qed.

(** X7. Outside that range of speeds the level leaves the interval from 0 to 1:
    it is negative for every average speed above 140 km/h and exceeds 1 for
    every average speed below 20 km/h, whatever the vehicle count. *)
Theorem congestion_level_leaves_unit_interval (n : nat) (avg_speed : R) :
  (avg_speed > 140 → _calculate_congestion_level n avg_speed < 0) ∧
  (avg_speed < 20 → _calculate_congestion_level n avg_speed > 1).
Proof.
  unfold _calculate_congestion_level, Config.VEHICLE_MIN_VELOCITY,
    Config.VEHICLE_MAX_VELOCITY.
  pose proof (count_factor_range n). split; intros Havg; lra.
Qed.

(** X8. Congestion grows with the number of vehicles and falls with their
    speed: more vehicles at a lower or equal average speed never give a
    lower level. *)
Theorem congestion_level_monotone (n1 n2 : nat) (avg1 avg2 : R) :
  (n1 ≤ n2)%nat → avg2 <= avg1 →
  _calculate_congestion_level n1 avg1 <= _calculate_congestion_level n2 avg2.
Proof.
  intros Hn Havg. unfold _calculate_congestion_level,
    Config.VEHICLE_MIN_VELOCITY, Config.VEHICLE_MAX_VELOCITY,
    Config.MAX_VEHICLES.
  assert (Rmin 1 (INR n1 / (101 / 2)) <= Rmin 1 (INR n2 / (101 / 2))) as Hmin.
  { apply Rle_min_compat_l. apply le_INR in Hn. lra. }
  lra.
Qed.

Lemma active_vehicles_lookup (rsu : State) (bc : Ledger.Blockchain R)
    (current_time : R) (vid : string) (d : VehicleData) :
  active_vehicles rsu bc current_time !! vid = Some d ↔
  connected_vehicles rsu !! vid = Some d ∧
  current_time - timestamp d < 5 ∧
  (vid ∉ Ledger.get_malicious_vehicles bc).
Proof. unfold active_vehicles. by rewrite map_lookup_filter_Some. Qed.

(** X9. With no vehicle heard in the last 5 seconds outside the malicious set,
    [_update_traffic_data] leaves the statistics as they are: the count, the
    average speed and the congestion level of the last non-empty round stay,
    they are not reset to 0. *)
Theorem traffic_data_kept_without_active_vehicle (rsu : State)
    (bc : Ledger.Blockchain R) (traffic_data : TrafficData) (current_time : R) :
  (∀ vid d, connected_vehicles rsu !! vid = Some d →
     current_time - timestamp d < 5 →
     vid ∈ Ledger.get_malicious_vehicles bc) →
  _update_traffic_data rsu bc traffic_data current_time = traffic_data.
Proof.
  intros Hnone. unfold _update_traffic_data.
  rewrite decide_True; [done|]. apply map_size_empty_iff, map_empty.
  intros vid. destruct (active_vehicles rsu bc current_time !! vid) as [d|] eqn:Hd;
    [|done].
  apply active_vehicles_lookup in Hd as (Hl & Ht & Hm).
  exfalso. apply Hm. by eapply Hnone.
Qed.

Lemma foldl_speed_bounds (l : list VehicleData) (lo hi acc : R) :
  Forall (λ v, lo <= speed v <= hi) l →
  acc + lo * INR (length l)
    <= foldl (λ (acc : R) (v : VehicleData), acc + speed v) acc l
    <= acc + hi * INR (length l).
Proof.
  intros Hl. revert acc. induction Hl as [|v l Hv Hl IH]; intros acc.
  - simpl. lra.
  - cbn [foldl length]. rewrite S_INR. specialize (IH (acc + speed v)). lra.
Qed.

(** X10. With at least one vehicle heard in the last 5 seconds outside the
    malicious set, [_update_traffic_data] counts exactly those vehicles, at
    least 1 and at most as many as are tracked; and when the stored speed of
    each of them is between [VEHICLE_MIN_VELOCITY] and [VEHICLE_MAX_VELOCITY],
    so is the average speed it stores, and the congestion level it stores
    lies between 0 and 1. *)
Theorem traffic_data_of_active_vehicles (rsu : State)
    (bc : Ledger.Blockchain R) (traffic_data : TrafficData)
    (current_time : R) (vid0 : string) (d0 : VehicleData) :
  connected_vehicles rsu !! vid0 = Some d0 →
  current_time - timestamp d0 < 5 →
  vid0 ∉ Ledger.get_malicious_vehicles bc →
  (∀ vid d, connected_vehicles rsu !! vid = Some d →
     current_time - timestamp d < 5 →
     vid ∉ Ledger.get_malicious_vehicles bc →
     IZR Config.VEHICLE_MIN_VELOCITY <= speed d
       <= IZR Config.VEHICLE_MAX_VELOCITY) →
  ∃ traffic_data',
  _update_traffic_data rsu bc traffic_data current_time = traffic_data' ∧
  vehicle_count traffic_data' = size (active_vehicles rsu bc current_time) ∧
  (1 ≤ vehicle_count traffic_data' ≤ size (connected_vehicles rsu))%nat ∧
  IZR Config.VEHICLE_MIN_VELOCITY <= average_speed traffic_data'
    <= IZR Config.VEHICLE_MAX_VELOCITY ∧
  0 <= congestion_level traffic_data' <= 1.
Proof.
  intros H0 Ht0 Hm0 Hspeed. unfold _update_traffic_data.
  set (active := active_vehicles rsu bc current_time).
  assert (active !! vid0 = Some d0) as Hin by by apply active_vehicles_lookup.
  assert (size active ≠ 0%nat) as Hsize.
  { intros Hz. apply map_size_empty_iff in Hz. by rewrite Hz in Hin. }
  rewrite decide_False by done. eexists. split; [done|].
  cbn [vehicle_count average_speed congestion_level].
  set (lo := IZR Config.VEHICLE_MIN_VELOCITY) in *.
  set (hi := IZR Config.VEHICLE_MAX_VELOCITY) in *.
  assert (lo <= sum_speeds active / INR (size active) <= hi) as Havg.
  { unfold sum_speeds.
    pose proof (foldl_speed_bounds (map_to_list active).*2 lo hi 0) as Hb.
    rewrite length_fmap, length_map_to_list in Hb.
    ospecialize (Hb _).
    { apply Forall_forall. intros v Hv.
      apply list_elem_of_fmap in Hv as ([vid d] & -> & Hd).
      apply elem_of_map_to_list, active_vehicles_lookup in Hd as (Hl & Ht & Hm).
      by eapply Hspeed. }
    assert (0 < INR (size active)) as Hpos by (apply lt_0_INR; lia).
    split.
    - apply Rmult_le_reg_r with (INR (size active)); [done|].
      unfold Rdiv. rewrite Rmult_assoc, Rinv_l by lra. lra.
    - apply Rmult_le_reg_r with (INR (size active)); [done|].
      unfold Rdiv. rewrite Rmult_assoc, Rinv_l by lra. lra. }
  split; [done|]. split.
  { split; [lia|]. apply map_subseteq_size, map_filter_subseteq. }
  split; [done|]. by apply congestion_level_range.
Qed.

End TrafficStatistics.

Lemma congestion_level_is_a_fraction_witness :
  (0 <= RSUNode._calculate_congestion_level 30 80 <= 1)%R.
Proof.
  apply (congestion_level_is_a_fraction 30 80).
  unfold Config.VEHICLE_MIN_VELOCITY, Config.VEHICLE_MAX_VELOCITY. lra.
Defined.

Lemma congestion_level_monotone_witness :
  (RSUNode._calculate_congestion_level 10 90
   <= RSUNode._calculate_congestion_level 40 70)%R.
Proof. apply (congestion_level_monotone 10 40 90 70); [lia|lra]. Defined.

Lemma traffic_data_kept_without_active_vehicle_witness :
  RSUNode._update_traffic_data Examples.lone_state Examples.fresh_ledger
    {| RSUNode.vehicle_count := 1; RSUNode.average_speed := 60;
       RSUNode.congestion_level := 0.5 |} 20
  = {| RSUNode.vehicle_count := 1; RSUNode.average_speed := 60;
       RSUNode.congestion_level := 0.5 |}.
Proof.
  apply (traffic_data_kept_without_active_vehicle Examples.lone_state
           Examples.fresh_ledger _ 20).
  intros vid d Hd Ht. exfalso. unfold Examples.lone_state in Hd.
  cbn [RSU.connected_vehicles] in Hd.
  apply lookup_singleton_Some in Hd as [_ <-]. simpl in Ht. lra.
Defined.

Lemma traffic_data_of_active_vehicles_witness :
  ∃ traffic_data',
    RSUNode._update_traffic_data Examples.pair_state Examples.fresh_ledger
      RSUNode.initial_traffic_data 10 = traffic_data' ∧
    RSUNode.vehicle_count traffic_data'
      = size (RSUNode.active_vehicles Examples.pair_state
                Examples.fresh_ledger 10) ∧
    (1 ≤ RSUNode.vehicle_count traffic_data'
       ≤ size (RSU.connected_vehicles Examples.pair_state))%nat ∧
    (IZR Config.VEHICLE_MIN_VELOCITY <= RSUNode.average_speed traffic_data'
       <= IZR Config.VEHICLE_MAX_VELOCITY)%R ∧
    (0 <= RSUNode.congestion_level traffic_data' <= 1)%R.
Proof.
  apply (traffic_data_of_active_vehicles Examples.pair_state
           Examples.fresh_ledger RSUNode.initial_traffic_data 10 "A"
           (RSU.stored (Examples.beacon "A" 0 0 70 None 9) 9 5001)).
  - apply lookup_insert_eq.
  - simpl. lra.
  - apply fresh_ledger_clean.
  - intros vid d Hd _ _. unfold Examples.pair_state in Hd.
    cbn [RSU.connected_vehicles] in Hd.
    unfold Config.VEHICLE_MIN_VELOCITY, Config.VEHICLE_MAX_VELOCITY.
    apply lookup_insert_Some in Hd as [[_ <-]|[_ Hd]];
      [|apply lookup_singleton_Some in Hd as [_ <-]]; simpl; lra.
Defined.

Section DetectorInvariants.

Import Routing RSU RSUNode.
#[local] Open Scope R_scope.

Variable sha256_json : list (string * pyval R) -> string.

#[local] Abbreviation _update_vehicle_data :=
  (RSU._update_vehicle_data sha256_json).
#[local] Abbreviation _handle_message := (RSUNode._handle_message sha256_json).
#[local] Abbreviation _listen := (RSUNode._listen sha256_json).

(** The cases of [_update_vehicle_data] on a ledger with a block. *)
Lemma update_cases (rsu : State) (bc : Ledger.Blockchain R) (vid : string)
    (data : VehicleData) (addr_port : Z) (current_time t_payload t_block : R) :
  Ledger.chain bc ≠ [] →
  (vid ∈ Ledger.get_malicious_vehicles bc ∧
   _update_vehicle_data rsu bc vid data addr_port current_time t_payload t_block
     = Some (rsu, bc)) ∨
  ((vid ∉ Ledger.get_malicious_vehicles bc) ∧
   _update_vehicle_data rsu bc vid data addr_port current_time t_payload t_block
     = Some (store rsu vid data current_time addr_port, bc)) ∨
  ((vid ∉ Ledger.get_malicious_vehicles bc) ∧
   (default 0 (suspicious_count rsu !! vid) + 1 < 3)%nat ∧
   _update_vehicle_data rsu bc vid data addr_port current_time t_payload t_block
     = Some (store {| connected_vehicles := connected_vehicles rsu;
                      suspicious_count :=
                        <[vid := (default 0 (suspicious_count rsu !! vid) + 1)%nat]>
                          (suspicious_count rsu) |}
               vid data current_time addr_port, bc)) ∨
  ((vid ∉ Ledger.get_malicious_vehicles bc) ∧
   (3 ≤ default 0 (suspicious_count rsu !! vid) + 1)%nat ∧
   ∃ block,
     _update_vehicle_data rsu bc vid data addr_port current_time t_payload t_block
       = Some ({| connected_vehicles := delete vid (connected_vehicles rsu);
                  suspicious_count :=
                    <[vid := (default 0 (suspicious_count rsu !! vid) + 1)%nat]>
                      (suspicious_count rsu) |},
               {| Ledger.chain := Ledger.chain bc ++ [block];
                  Ledger.malicious_vehicles :=
                    {[vid]} ∪ Ledger.malicious_vehicles bc |})).
Proof.
  intros Hne. unfold RSU._update_vehicle_data.
  destruct (decide (vid ∈ _)) as [Hin|Hout]; [by left|]. right.
  destruct (connected_vehicles rsu !! vid) as [prev_data|]; [|by left].
  destruct (decide (_ > 0)); [|by left].
  destruct (is_suspicious _ _ _ _ _); [|by left]. right.
  destruct (decide (3 ≤ _)%nat) as [Hge|Hlt].
  - right. split; [done|]. split; [done|].
    destruct (add_malicious_vehicle_Some sha256_json bc vid t_payload t_block Hne)
      as (block & -> & _).
    by exists block.
  - left. split; [done|]. split; [lia|done].
Qed.

(** X11. An update touches only its sender. After [_update_vehicle_data] for a
    vehicle, the stored snapshot and the counter of every other vehicle are
    what they were; the old chain is a prefix of the new one, which has at
    most one more block; no id leaves the malicious set and the only id that
    can join it is the sender's. *)
Theorem update_touches_only_its_sender (rsu rsu' : State)
    (bc bc' : Ledger.Blockchain R) (vid : string) (data : VehicleData)
    (addr_port : Z) (current_time t_payload t_block : R) :
  Ledger.chain bc ≠ [] →
  _update_vehicle_data rsu bc vid data addr_port current_time t_payload t_block
    = Some (rsu', bc') →
  (∀ other, other ≠ vid →
     connected_vehicles rsu' !! other = connected_vehicles rsu !! other ∧
     suspicious_count rsu' !! other = suspicious_count rsu !! other) ∧
  Ledger.chain bc `prefix_of` Ledger.chain bc' ∧
  (length (Ledger.chain bc') ≤ length (Ledger.chain bc) + 1)%nat ∧
  (∀ v, v ∈ Ledger.get_malicious_vehicles bc →
        v ∈ Ledger.get_malicious_vehicles bc') ∧
  (∀ v, v ∈ Ledger.get_malicious_vehicles bc' →
        v ∈ Ledger.get_malicious_vehicles bc ∨ v = vid).
Proof.
  intros Hne Hrun.
  destruct (update_cases rsu bc vid data addr_port current_time t_payload
              t_block Hne)
    as [[_ H]|[[_ H]|[(_ & _ & H)|(_ & _ & block & H)]]];
    rewrite H in Hrun; injection Hrun as <- <-; simpl.
  - split; [done|]. split; [done|]. split; [lia|]. split; [done|]. by left.
  - split; [intros other Ho; by rewrite lookup_insert_ne|].
    split; [done|]. split; [lia|]. split; [done|]. by left.
  - split; [intros other Ho; by rewrite !lookup_insert_ne|].
    split; [done|]. split; [lia|]. split; [done|]. by left.
  - split.
    { intros other Ho. by rewrite lookup_delete_ne, lookup_insert_ne. }
    split; [by apply prefix_app_r|]. rewrite length_app. simpl.
    split; [lia|]. unfold Ledger.get_malicious_vehicles. simpl.
    split.
    + intros v Hv. apply elem_of_union. by right.
    + intros v [->%elem_of_singleton|Hv]%elem_of_union; [by right|by left].
Qed.

(** X12. The counters stay within their bound. On a ledger with a block, if no
    counter exceeds 3 and every vehicle whose counter is 3 is in the malicious
    set, then [_update_vehicle_data] returns (it does not raise) and both
    facts hold again afterwards, for any vehicle and any data. *)
Theorem update_keeps_counters_ok (rsu : State) (bc : Ledger.Blockchain R)
    (vid : string) (data : VehicleData) (addr_port : Z)
    (current_time t_payload t_block : R) :
  Ledger.chain bc ≠ [] →
  counters_ok rsu bc →
  ∃ rsu' bc',
    _update_vehicle_data rsu bc vid data addr_port current_time t_payload
      t_block = Some (rsu', bc') ∧
    Ledger.chain bc' ≠ [] ∧ counters_ok rsu' bc'.
Proof.
  intros Hne Hok.
  destruct (update_cases rsu bc vid data addr_port current_time t_payload
              t_block Hne)
    as [[_ H]|[[_ H]|[(Hout & Hlt & H)|(Hout & Hge & block & H)]]];
    rewrite H; eexists _, _; (split; [done|]); simpl.
  - done.
  - done.
  - split; [done|]. intros v n. simpl.
    destruct (decide (v = vid)) as [->|Hv].
    + rewrite lookup_insert_eq. intros [= <-]. split; lia.
    + rewrite lookup_insert_ne by done. apply Hok.
  - split; [by destruct (Ledger.chain bc)|]. intros v n. simpl.
    unfold Ledger.get_malicious_vehicles. simpl.
    destruct (decide (v = vid)) as [->|Hv].
    + rewrite lookup_insert_eq. intros [= <-]. split.
      * destruct (suspicious_count rsu !! vid) as [m|] eqn:Hm; simpl; [|lia].
        destruct (Hok vid m Hm) as [Hle Hthree].
        destruct (decide (m = 3%nat)) as [->|]; [|lia].
        exfalso. by apply Hout, Hthree.
      * intros _. apply elem_of_union. left. by apply elem_of_singleton.
    + rewrite lookup_insert_ne by done. intros Hn.
      destruct (Hok v n Hn) as [Hle Hthree]. split; [done|].
      intros Heq. apply elem_of_union. right. by apply Hthree.
Qed.

Lemma update_keeps_counters_settled (rsu : State) (bc : Ledger.Blockchain R)
    (vid : string) (data : VehicleData) (addr_port : Z)
    (current_time t_payload t_block : R) :
  counters_settled rsu bc →
  ∃ rsu' bc',
    _update_vehicle_data rsu bc vid data addr_port current_time t_payload
      t_block = Some (rsu', bc') ∧
    counters_settled rsu' bc'.
Proof.
  intros (Hne & Hcnt).
  destruct (update_cases rsu bc vid data addr_port current_time t_payload
              t_block Hne)
    as [[_ H]|[[Hout H]|[(Hout & Hlt & H)|(Hout & Hge & block & H)]]];
    rewrite H; eexists _, _; (split; [done|]).
  - done.
  - split; [done|]. intros v n Hn. simpl in *.
    destruct (Hcnt v n Hn) as [Hle Hthree]. split; [done|].
    intros Heq. destruct (Hthree Heq) as [Hin Hgone]. split; [done|].
    rewrite lookup_insert_ne by (by intros ->). done.
  - split; [done|]. intros v n. simpl.
    destruct (decide (v = vid)) as [->|Hv].
    + rewrite lookup_insert_eq. intros [= <-]. split; lia.
    + rewrite lookup_insert_ne by done. intros Hn.
      destruct (Hcnt v n Hn) as [Hle Hthree]. split; [done|].
      intros Heq. destruct (Hthree Heq) as [Hin Hgone]. split; [done|].
      rewrite lookup_insert_ne by (by intros ->). done.
  - assert (default 0 (suspicious_count rsu !! vid) + 1 = 3)%nat as Hthree.
    { destruct (suspicious_count rsu !! vid) as [m|] eqn:Hm; simpl in *; [|lia].
      destruct (Hcnt vid m Hm) as [Hle Hin].
      destruct (decide (m = 3%nat)) as [->|]; [|lia].
      exfalso. by apply Hout, Hin. }
    rewrite Hthree. unfold counters_settled, Ledger.get_malicious_vehicles.
    simpl. split; [by destruct (Ledger.chain bc)|]. intros v n.
    destruct (decide (v = vid)) as [->|Hv].
    + rewrite lookup_insert_eq. intros [= <-]. split; [lia|]. intros _.
      split; [|apply lookup_delete_eq].
      apply elem_of_union. left. by apply elem_of_singleton.
    + rewrite lookup_insert_ne by done. intros Hn.
      destruct (Hcnt v n Hn) as [Hle Hin]. split; [done|]. intros Heq.
      destruct (Hin Heq) as [Hmal Hgone]. split.
      * apply elem_of_union. by right.
      * by rewrite lookup_delete_ne.
Qed.

Lemma append_keeps_counters_settled (rsu : State) (bc : Ledger.Blockchain R)
    (c : Ledger.call R) :
  counters_settled rsu bc →
  ∃ bc', Ledger.run_call sha256_json bc c = Some bc' ∧ counters_settled rsu bc'.
Proof.
  intros (Hne & Hcnt).
  destruct (run_call_spec sha256_json bc c Hne) as (prev & _ & ->).
  eexists. split; [done|]. unfold counters_settled, Ledger.get_malicious_vehicles.
  simpl. split; [by destruct (Ledger.chain bc)|]. intros v n Hn.
  destruct (Hcnt v n Hn) as [Hle Hin]. split; [done|]. intros Heq.
  destruct (Hin Heq) as [Hmal Hgone]. split; [|done].
  destruct (Ledger.call_marks c); [|done]. apply elem_of_union. by right.
Qed.

(** X13. The counters of a detector survive the other writers of its ledger.
    A detector starts empty on a new ledger that it shares with other writers
    (the periodic task that records [rsu_data] every second, other road-side
    units). Whatever datagrams its listener is handed and whatever the others
    append in between, each handled datagram and each appending call taken as
    one step: no call raises; every suspicious counter is between 1 and 3;
    and a vehicle whose counter is 3 is in the malicious set and is no longer
    tracked by this detector. *)
Theorem detector_counters_survive_other_writers (t0 : R)
    (events : list Event) :
  ∃ rsu bc listening,
    run_events sha256_json
      {| connected_vehicles := ∅; suspicious_count := ∅ |}
      (Ledger.Blockchain__init__ sha256_json t0) true events
    = Some (rsu, bc, listening) ∧
    Ledger.chain bc ≠ [] ∧
    ∀ vid n, suspicious_count rsu !! vid = Some n →
      (1 ≤ n ≤ 3)%nat ∧
      (n = 3%nat → vid ∈ Ledger.get_malicious_vehicles bc
                   ∧ connected_vehicles rsu !! vid = None).
Proof.
  assert (∀ rsu bc listening, counters_settled rsu bc →
            ∃ rsu' bc' listening',
              run_events sha256_json rsu bc listening events
              = Some (rsu', bc', listening') ∧
              counters_settled rsu' bc') as Hgen.
  { induction events as [|e rest IH]; intros rsu bc listening Hinv;
      [by exists rsu, bc, listening|].
    destruct e as [d|c]; cbn [run_events].
    - destruct listening; [|by apply IH].
      destruct (payload d) as [message|]; [|by apply IH].
      unfold RSUNode._handle_message.
      destruct (decide (msg_type message = "beacon")).
      + destruct (update_keeps_counters_settled rsu bc (vehicle_id message)
                    message (from_port d) (clock_update d) (clock_payload d)
                    (clock_block d) Hinv) as (rsu' & bc' & -> & Hinv').
        by apply IH.
      + destruct (decide (msg_type message = "accident_report"));
          by apply IH.
    - destruct (append_keeps_counters_settled rsu bc c Hinv)
        as (bc' & -> & Hinv').
      simpl. by apply IH. }
  destruct (Hgen {| connected_vehicles := ∅; suspicious_count := ∅ |}
              (Ledger.Blockchain__init__ sha256_json t0) true)
    as (rsu & bc & listening & Hrun & Hne & Hcnt).
  { split; [done|]. intros vid n Hn. simpl in Hn. by rewrite lookup_empty in Hn. }
  by exists rsu, bc, listening.
Qed.

(** X14. The listener ends at the first datagram it cannot handle. A datagram that
    does not decode, or a message of type [accident_report] (whose handling
    calls a method the class does not define), ends the loop of [_listen]:
    the state left is the one before that datagram, and no datagram that
    arrives later is handled, beacons included. *)
Theorem listener_ends_at_accident_report (rsu : State)
    (bc : Ledger.Blockchain R) (pre post : list Datagram) (d : Datagram) :
  payload d = None
  ∨ (∃ message, payload d = Some message
                ∧ msg_type message = "accident_report") →
  _listen rsu bc (pre ++ d :: post) = _listen rsu bc pre.
Proof.
  intros Hd. revert rsu bc. induction pre as [|p pre IH]; intros rsu bc.
  - simpl. destruct Hd as [->|(message & -> & Htype)]; [done|].
    unfold RSUNode._handle_message. rewrite Htype.
    rewrite decide_False by done. by rewrite decide_True.
  - simpl. destruct (payload p) as [message|]; [|done].
    destruct (RSUNode._handle_message _ _ _ _ _ _ _ _); [apply IH|done].
Qed.

End DetectorInvariants.

(** The third suspicious event of A in [crowded_state]: A is marked, one
    block is appended, B is left as it was. *)
Lemma crowded_update :
  RSU._update_vehicle_data Examples.constant_digest Examples.crowded_state
    Examples.fresh_ledger "A" Examples.speeding_update 5001 10 10 10
  = Some (Examples.crowded_after, Examples.marked_ledger).
Proof.
  assert (RSU.connected_vehicles Examples.crowded_state !! "A"
          = Some (RSU.stored (Examples.beacon "A" 0 0 60 None 9) 9 5001))
    as Htracked by apply lookup_insert_eq.
  assert (RSU.suspicious_count Examples.crowded_state !! "A" = Some 2%nat)
    as Hcount by apply lookup_insert_eq.
  unfold RSU._update_vehicle_data.
  rewrite decide_False by apply fresh_ledger_clean.
  rewrite Htracked. rewrite decide_True by (simpl; lra).
  rewrite speeding_is_suspicious. rewrite !Hcount.
  change (default 0%nat (Some 2%nat) + 1)%nat with 3%nat.
  rewrite decide_True by lia. reflexivity.
Qed.

Lemma update_touches_only_its_sender_witness :
  (∀ other, other ≠ "A" →
     RSU.connected_vehicles Examples.crowded_after !! other
       = RSU.connected_vehicles Examples.crowded_state !! other ∧
     RSU.suspicious_count Examples.crowded_after !! other
       = RSU.suspicious_count Examples.crowded_state !! other) ∧
  Ledger.chain Examples.fresh_ledger `prefix_of` Ledger.chain Examples.marked_ledger ∧
  (length (Ledger.chain Examples.marked_ledger)
   ≤ length (Ledger.chain Examples.fresh_ledger) + 1)%nat ∧
  (∀ v, v ∈ Ledger.get_malicious_vehicles Examples.fresh_ledger →
        v ∈ Ledger.get_malicious_vehicles Examples.marked_ledger) ∧
  (∀ v, v ∈ Ledger.get_malicious_vehicles Examples.marked_ledger →
        v ∈ Ledger.get_malicious_vehicles Examples.fresh_ledger ∨ v = "A").
Proof.
  apply (update_touches_only_its_sender Examples.constant_digest
           Examples.crowded_state Examples.crowded_after Examples.fresh_ledger
           Examples.marked_ledger "A" Examples.speeding_update 5001 10 10 10);
    [done|].
  apply crowded_update.
Defined.

Lemma update_keeps_counters_ok_witness :
  ∃ rsu' bc',
    RSU._update_vehicle_data Examples.constant_digest
      Examples.marked_twice_state Examples.fresh_ledger "A"
      Examples.speeding_update 5001 10 10 10 = Some (rsu', bc') ∧
    Ledger.chain bc' ≠ [] ∧ RSUNode.counters_ok rsu' bc'.
Proof.
  apply (update_keeps_counters_ok Examples.constant_digest
           Examples.marked_twice_state Examples.fresh_ledger "A"
           Examples.speeding_update 5001 10 10 10); [done|].
  intros vid n Hn. unfold Examples.marked_twice_state in Hn.
  cbn [RSU.suspicious_count] in Hn.
  apply lookup_singleton_Some in Hn as [_ <-]. split; [lia|done].
Defined.

Lemma listener_ends_at_accident_report_witness :
  RSUNode._listen Examples.constant_digest Examples.lone_state
    Examples.fresh_ledger
    ([] ++ {| RSUNode.payload :=
                Some {| RSU.msg_type := "accident_report";
                        RSU.vehicle_id := "B";
                        RSU.location := {| Routing.loc_x := 0;
                                           Routing.loc_y := 0 |};
                        RSU.speed := 60; RSU.direction := 0;
                        RSU.timestamp := 10; RSU.sees_accident := None;
                        RSU.port := None |};
              RSUNode.from_port := 5002; RSUNode.clock_update := 10;
              RSUNode.clock_payload := 10; RSUNode.clock_block := 10 |}
        :: [{| RSUNode.payload := Some Examples.speeding_update;
               RSUNode.from_port := 5001; RSUNode.clock_update := 11;
               RSUNode.clock_payload := 11; RSUNode.clock_block := 11 |}])
  = RSUNode._listen Examples.constant_digest Examples.lone_state
      Examples.fresh_ledger [].
Proof.
  apply (listener_ends_at_accident_report Examples.constant_digest).
  right. eexists. split; reflexivity.
Defined.

Section OwnReport.

Import Routing RSU.
#[local] Open Scope R_scope.

Lemma majority_report_unanimous (reports : list bool) (report : bool) :
  reports ≠ [] → Forall (eq report) reports →
  majority_report reports = report.
Proof.
  intros Hne Hall. unfold majority_report.
  assert (0 < INR (length reports)) as Hpos.
  { apply lt_0_INR. destruct reports; [done|simpl; lia]. }
  assert (length (filter (λ b : bool, b = true) reports)
          = if report then length reports else 0%nat) as ->.
  { clear Hne Hpos. induction Hall as [|b l <- Hl IH]; [by destruct report|].
    destruct report.
    - rewrite filter_cons_True by done. simpl. by rewrite IH.
    - rewrite filter_cons_False by done. done. }
  destruct report.
  - apply bool_decide_eq_true_2. lra.
  - apply bool_decide_eq_false_2. simpl. lra.
Qed.

(** X15. A vehicle with no neighbour is judged against its own last report. When
    the only snapshot counted by check 4 is the reporting vehicle's own (it
    is tracked, outside the malicious set, within 300 m of the reported
    location, less than 2 s old and carries a flag, and no other vehicle's
    snapshot qualifies), an update whose accident flag differs from the stored
    one is flagged as an inconsistent accident report. *)
Theorem lone_vehicle_is_judged_against_itself (rsu : State)
    (bc : Ledger.Blockchain R) (vid : string) (prev_data data : VehicleData)
    (current_time : R) (report : bool) :
  connected_vehicles rsu !! vid = Some prev_data →
  vid ∉ Ledger.get_malicious_vehicles bc →
  _distance (location data) (location prev_data) <= 300 →
  timestamp prev_data > current_time - 2 →
  sees_accident prev_data = Some report →
  sees_accident data = Some (negb report) →
  (∀ other v r,
     connected_vehicles rsu !! other = Some v →
     other ∉ Ledger.get_malicious_vehicles bc →
     _distance (location data) (location v) <= 300 →
     sees_accident v = Some r → timestamp v > current_time - 2 →
     other = vid) →
  accident_check rsu bc data current_time = true ∧
  is_suspicious rsu bc prev_data data current_time = true.
Proof.
  intros Htracked Hclean Hdist Hrecent Hprev Hflag Hlone.
  assert (accident_check rsu bc data current_time = true) as Hcheck.
  { unfold accident_check. rewrite Hflag.
    assert (report ∈ nearby_reports rsu bc data current_time) as Hin.
    { apply elem_of_nearby_reports. by exists vid, prev_data. }
    assert (Forall (eq report) (nearby_reports rsu bc data current_time)) as Hall.
    { apply Forall_forall. intros r Hr.
      apply elem_of_nearby_reports in Hr as (other & v & Hl & Hm & Hd & Hs & Ht).
      assert (other = vid) as -> by by eapply Hlone.
      rewrite Htracked in Hl. injection Hl as <-. congruence. }
    destruct (nearby_reports rsu bc data current_time) as [|r l] eqn:Hr;
      [by apply elem_of_nil in Hin|].
    rewrite majority_report_unanimous with (report := report) by done.
    by destruct report. }
  split; [done|]. unfold is_suspicious. by rewrite Hcheck, orb_true_r.
Qed.

End OwnReport.

Lemma lone_vehicle_is_judged_against_itself_witness :
  RSU.accident_check Examples.lone_state Examples.fresh_ledger
    Examples.lone_update 10 = true ∧
  RSU.is_suspicious Examples.lone_state Examples.fresh_ledger
    (RSU.stored (Examples.beacon "A" 0 0 60 (Some false) 9) 9 5001)
    Examples.lone_update 10 = true.
Proof.
  apply (lone_vehicle_is_judged_against_itself Examples.lone_state
           Examples.fresh_ledger "A"
           (RSU.stored (Examples.beacon "A" 0 0 60 (Some false) 9) 9 5001)
           Examples.lone_update 10 false).
  - apply lookup_singleton_eq.
  - apply fresh_ledger_clean.
  - simpl.
    distance_is {| Routing.loc_x := 10%R; Routing.loc_y := 0%R |}
                {| Routing.loc_x := 0%R; Routing.loc_y := 0%R |} 10%R.
    lra.
  - simpl. lra.
  - done.
  - done.
  - intros other v r Hv _ _ _ _. unfold Examples.lone_state in Hv.
    cbn [RSU.connected_vehicles] in Hv.
    by apply lookup_singleton_Some in Hv as [<- _].
Defined.

(** ** Further properties of the routers *)

Section TMRFurther.

Import Routing TMR.
#[local] Open Scope R_scope.

Variables (destination : Location) (vehicles : Vehicles) (traffic_data : Traffic).

#[local] Abbreviation hop_score current item :=
  (_calculate_hop_score current (location item.2) destination (speed item.2)
     (get_congestion_level traffic_data)).

(** What the loop of [_find_next_hop] has in [(best_score, best_next_hop)]
    after the entries [seen]. *)
#[local] Abbreviation best_of current seen best :=
  (match best with
   | (None, None) =>
       ∀ item : string * Vehicle, item ∈ seen →
         ¬ _distance (location item.2) destination
           < _distance current destination
   | (Some score, Some h) =>
       ∃ item : string * Vehicle, item ∈ seen ∧ h = location item.2 ∧
         score = hop_score current item ∧
         _distance h destination < _distance current destination ∧
         ∀ item' : string * Vehicle, item' ∈ seen →
           _distance (location item'.2) destination
             < _distance current destination →
           hop_score current item' <= score
   | _ => False
   end).

Lemma foldl_next_hop_best current (vs seen : Vehicles)
    (best : option R * option Location) :
  best_of current seen best →
  best_of current (seen ++ vs)
    (foldl (next_hop_step current destination traffic_data) best vs).
Proof.
  revert seen best. induction vs as [|v vs IH]; intros seen best Hbest.
  - by rewrite app_nil_r.
  - simpl. replace (seen ++ v :: vs) with ((seen ++ [v]) ++ vs)
      by by rewrite <- app_assoc.
    apply IH. unfold next_hop_step, _is_forward_progress.
    destruct (decide (_distance (location v.2) destination
                      < _distance current destination)) as [Hfp|Hfp].
    + rewrite bool_decide_eq_true_2 by done.
      destruct best as [[score|] [h|]]; simpl; try done.
      * destruct Hbest as (item & Hin & -> & -> & Hlt & Hmax).
        destruct (decide (hop_score current v > hop_score current item))
          as [Hgt|Hle].
        -- rewrite bool_decide_eq_true_2 by done.
           exists v. split; [apply elem_of_app; right; by left|].
           split; [done|]. split; [done|]. split; [done|].
           intros item' [Hin'| ->%list_elem_of_singleton]%elem_of_app Hlt';
             [|lra].
           specialize (Hmax item' Hin' Hlt'). lra.
        -- rewrite bool_decide_eq_false_2 by done.
           exists item. split; [apply elem_of_app; by left|].
           split; [done|]. split; [done|]. split; [done|].
           intros item' [Hin'| ->%list_elem_of_singleton]%elem_of_app Hlt';
             [by apply Hmax|lra].
      * exists v. split; [apply elem_of_app; right; by left|].
        split; [done|]. split; [done|]. split; [done|].
        intros item' [Hin'| ->%list_elem_of_singleton]%elem_of_app Hlt'; [|lra].
        by destruct (Hbest item' Hin').
    + rewrite bool_decide_eq_false_2 by done.
      destruct best as [[score|] [h|]]; try done.
      * destruct Hbest as (item & Hin & -> & -> & Hlt & Hmax).
        exists item. split; [apply elem_of_app; by left|].
        split; [done|]. split; [done|]. split; [done|].
        intros item' [Hin'| ->%list_elem_of_singleton]%elem_of_app Hlt';
          [by apply Hmax|done].
      * intros item' [Hin'| ->%list_elem_of_singleton]%elem_of_app;
          [by apply Hbest|done].
Qed.

(** X16. The greedy strategy's next hop is a best one. When [_find_next_hop]
    answers, its answer is the location of a snapshot entry strictly closer to
    the destination than the current position, and no such entry has a higher
    hop score; it answers nothing exactly when no snapshot entry is strictly
    closer to the destination. *)
Theorem tmr_next_hop_is_best (current : Location) :
  match _find_next_hop current destination vehicles traffic_data with
  | Some h =>
      ∃ item : string * Vehicle, item ∈ vehicles ∧ h = location item.2 ∧
        _distance h destination < _distance current destination ∧
        ∀ item' : string * Vehicle, item' ∈ vehicles →
          _distance (location item'.2) destination
            < _distance current destination →
          hop_score current item' <= hop_score current item
  | None =>
      ∀ item : string * Vehicle, item ∈ vehicles →
        ¬ _distance (location item.2) destination
          < _distance current destination
  end.
Proof.
  unfold _find_next_hop.
  pose proof (foldl_next_hop_best current vehicles [] (None, None)) as Hbest.
  ospecialize (Hbest _). { intros item Hin. by apply elem_of_nil in Hin. }
  simpl in Hbest.
  destruct (foldl _ _ _) as [[score|] [h|]]; simpl; try done.
  destruct Hbest as (item & Hin & -> & -> & Hlt & Hmax). by exists item.
Qed.

Lemma descending_closer (target current : Location) (hops : list Location) :
  descending target current hops →
  Forall (λ h, _distance h target < _distance current target) hops.
Proof.
  revert current. induction hops as [|h hops IH]; intros current Hd; [done|].
  destruct Hd as [Hlt Hd]. constructor; [done|].
  eapply Forall_impl; [by apply IH|]. simpl. intros h' Hh'. lra.
Qed.

Lemma descending_NoDup (target current : Location) (hops : list Location) :
  descending target current hops → NoDup (current :: hops).
Proof.
  revert current. induction hops as [|h hops IH]; intros current Hd.
  - apply NoDup_singleton.
  - apply NoDup_cons. split; [|apply IH, Hd].
    intros Hin. apply descending_closer in Hd.
    rewrite Forall_forall in Hd. specialize (Hd current Hin). lra.
Qed.

Lemma find_route_loop_length (fuel : nat) current route result :
  find_route_loop fuel destination vehicles traffic_data current route
    = Some result →
  ∃ hops, result = route ++ hops ∧ (length hops < fuel)%nat.
Proof.
  revert current route. induction fuel as [|fuel IH]; intros current route;
    [done|].
  simpl. destruct (decide _).
  - destruct (_find_next_hop _ _ _ _) as [h|].
    + intros (hops & -> & Hlen)%IH. exists (h :: hops).
      rewrite <- app_assoc. split; [done|]. simpl. lia.
    + intros [= <-]. exists []. rewrite app_nil_r. split; [done|]. simpl. lia.
  - intros [= <-]. exists []. rewrite app_nil_r. split; [done|]. simpl. lia.
Qed.

(** X17. The greedy strategy's routes are short and simple. On a cache miss, with
    fuel for one more iteration than there are snapshot entries (or more),
    [find_route] returns the source, then at most as many hops as the snapshot
    has entries, then the destination; no position occurs twice among the
    source and the hops; and the route is stored in the cache under the key of
    the request. *)
Theorem tmr_route_is_short_and_simple (route_cache : RouteCache)
    (source : Location) (extra : nat) :
  dict_get (route_key source destination) route_cache = None →
  ∃ hops,
    find_route (S (length vehicles) + extra) route_cache source destination
      vehicles traffic_data
    = Some (source :: hops ++ [destination],
            dict_set (route_key source destination)
              (source :: hops ++ [destination]) route_cache) ∧
    (length hops ≤ length vehicles)%nat ∧
    NoDup (source :: hops).
Proof.
  intros Hmiss.
  destruct (find_route_loop_total destination vehicles traffic_data
              (S (length (closer_than vehicles destination source)))
              source [source])
    as (hops & Hloop & Hdesc & _); [lia|].
  pose proof (find_route_loop_length _ _ _ _ Hloop) as (hops' & Heq & Hlen).
  apply (inj (app [source])) in Heq as <-.
  pose proof (closer_than_length vehicles destination source) as Hle.
  apply find_route_loop_fuel_mono
    with (extra := (length vehicles
                    - length (closer_than vehicles destination source)
                    + extra)%nat) in Hloop.
  replace (S (length (closer_than vehicles destination source))
           + (length vehicles
              - length (closer_than vehicles destination source) + extra))%nat
    with (S (length vehicles) + extra)%nat in Hloop by lia.
  exists hops. unfold find_route. rewrite Hmiss, Hloop. simpl.
  split; [done|]. split; [lia|]. by eapply descending_NoDup.
Qed.

End TMRFurther.

Lemma tmr_route_is_short_and_simple_witness :
  ∃ hops,
    TMR.find_route (S (length Examples.relay_vehicles) + 0) []
      Examples.relay_source Examples.relay_destination Examples.relay_vehicles
      Examples.no_traffic
    = Some (Examples.relay_source :: hops ++ [Examples.relay_destination],
            Routing.dict_set
              (Routing.route_key Examples.relay_source
                 Examples.relay_destination)
              (Examples.relay_source :: hops ++ [Examples.relay_destination])
              []) ∧
    (length hops ≤ length Examples.relay_vehicles)%nat ∧
    NoDup (Examples.relay_source :: hops).
Proof.
  apply (tmr_route_is_short_and_simple Examples.relay_destination
           Examples.relay_vehicles Examples.no_traffic [] Examples.relay_source
           0).
  reflexivity.
Defined.

Section GyTARFurther.

Import Routing GyTAR.
#[local] Open Scope R_scope.

Variables (destination : Location) (vehicles : Vehicles) (traffic_data : Traffic).

Lemma path_to_junction_loop_shape (fuel : nat) (junction current : Location)
    (path result : Route) :
  path_to_junction_loop fuel junction vehicles current path = Some result →
  ∃ hops, result = path ++ hops ∧
    Forall (λ h, ∃ item : string * Vehicle, item ∈ vehicles ∧ h = location item.2)
      hops.
Proof.
  revert current path. induction fuel as [|fuel IH]; intros current path;
    [done|].
  simpl. destruct (decide _).
  - destruct (_find_next_vehicle_hop current junction vehicles) as [h|] eqn:Hh.
    + intros (hops & -> & Hall)%IH.
      apply foldl_next_vehicle_hop_Some in Hh as [|(item & Hin & -> & _)];
        [done|].
      exists (location item.2 :: hops). rewrite <- app_assoc.
      split; [done|]. constructor; [by exists item|done].
    + intros [= <-]. exists []. by rewrite app_nil_r.
  - intros [= <-]. exists []. by rewrite app_nil_r.
Qed.

(** X19. When the junction-based [find_route] returns. On a cache miss there are
    three cases. If the source is within 100 m of the destination, or no
    junction of the grid is within range of the source, the answer is the
    pair source, destination. If the junction chosen from the source is
    within 100 m of the destination, the answer is the source, then the path
    to that junction (which starts with the source again, continues with
    locations of snapshot entries and ends with the junction), then the
    destination. In every other case, that is when the junction chosen from
    the source is more than 100 m from the destination, [find_route] does not
    return, whatever the fuel. *)
Theorem gytar_find_route_returns_only_near (route_cache : RouteCache)
    (source : Location) :
  dict_get (route_key source destination) route_cache = None →
  (_distance source destination <= 100
   ∨ _find_next_junction source destination vehicles traffic_data = None →
   ∀ fuel path_fuel,
     find_route (S fuel) path_fuel route_cache source destination vehicles
       traffic_data
     = Some ([source; destination],
             dict_set (route_key source destination) [source; destination]
               route_cache)) ∧
  (∀ J, _distance source destination > 100 →
     _find_next_junction source destination vehicles traffic_data = Some J →
     _distance J destination <= 100 →
     ∀ fuel path_fuel, ∃ hops,
       find_route (S (S fuel)) (S (length vehicles) + path_fuel) route_cache
         source destination vehicles traffic_data
       = Some (source :: source :: hops ++ [J; destination],
               dict_set (route_key source destination)
                 (source :: source :: hops ++ [J; destination]) route_cache) ∧
       Forall (λ h, ∃ item : string * Vehicle,
                 item ∈ vehicles ∧ h = location item.2) hops) ∧
  (∀ J, _distance source destination > 100 →
     _find_next_junction source destination vehicles traffic_data = Some J →
     _distance J destination > 100 →
     ∀ fuel path_fuel,
       find_route fuel path_fuel route_cache source destination vehicles
         traffic_data = None).
Proof.
  intros Hmiss. unfold find_route. rewrite Hmiss. split; [|split].
  - intros Hcase fuel path_fuel. simpl.
    destruct (decide (_distance source destination > 100)) as [Hfar|Hnear];
      [|done].
    destruct Hcase as [Hle| ->]; [lra|done].
  - intros J Hfar Hj Hnear fuel path_fuel.
    cbn [find_route_loop]. rewrite decide_True by done. rewrite Hj.
    destruct (_find_path_to_junction_total vehicles
                (S (length vehicles) + path_fuel) source J) as [path Hpath].
    { pose proof (closer_than_length vehicles J source). lia. }
    rewrite Hpath. cbn [mbind option_bind]. rewrite decide_False by lra.
    unfold _find_path_to_junction in Hpath.
    destruct (path_to_junction_loop _ _ _ _ _) as [r|] eqn:Hr; [|done].
    apply path_to_junction_loop_shape in Hr as (hops & -> & Hall).
    simpl in Hpath. injection Hpath as <-. exists hops.
    split; [|done]. simpl. by rewrite <- !app_assoc.
  - intros J Hfar Hj HJfar fuel path_fuel.
    by rewrite (find_route_loop_diverges destination vehicles traffic_data
                  source J).
Qed.

End GyTARFurther.

Lemma gytar_find_route_returns_only_near_witness :
  (Routing._distance Examples.stuck_source Examples.stuck_destination <= 100
   ∨ GyTAR._find_next_junction Examples.stuck_source Examples.stuck_destination
       [] Examples.no_traffic = None →
   ∀ fuel path_fuel,
     GyTAR.find_route (S fuel) path_fuel [] Examples.stuck_source
       Examples.stuck_destination [] Examples.no_traffic
     = Some ([Examples.stuck_source; Examples.stuck_destination],
             Routing.dict_set
               (Routing.route_key Examples.stuck_source
                  Examples.stuck_destination)
               [Examples.stuck_source; Examples.stuck_destination] []))%R ∧
  (∀ J, (Routing._distance Examples.stuck_source Examples.stuck_destination
         > 100)%R →
     GyTAR._find_next_junction Examples.stuck_source Examples.stuck_destination
       [] Examples.no_traffic = Some J →
     (Routing._distance J Examples.stuck_destination <= 100)%R →
     ∀ fuel path_fuel, ∃ hops,
       GyTAR.find_route (S (S fuel)) (S (length ([] : Routing.Vehicles))
                                      + path_fuel) []
         Examples.stuck_source Examples.stuck_destination [] Examples.no_traffic
       = Some (Examples.stuck_source :: Examples.stuck_source
                 :: hops ++ [J; Examples.stuck_destination],
               Routing.dict_set
                 (Routing.route_key Examples.stuck_source
                    Examples.stuck_destination)
                 (Examples.stuck_source :: Examples.stuck_source
                    :: hops ++ [J; Examples.stuck_destination]) []) ∧
       Forall (λ h, ∃ item : string * Routing.Vehicle,
                 item ∈ ([] : Routing.Vehicles) ∧ h = Routing.location item.2)
         hops) ∧
  (∀ J, (Routing._distance Examples.stuck_source Examples.stuck_destination
         > 100)%R →
     GyTAR._find_next_junction Examples.stuck_source Examples.stuck_destination
       [] Examples.no_traffic = Some J →
     (Routing._distance J Examples.stuck_destination > 100)%R →
     ∀ fuel path_fuel,
       GyTAR.find_route fuel path_fuel [] Examples.stuck_source
         Examples.stuck_destination [] Examples.no_traffic = None).
Proof.
  apply (gytar_find_route_returns_only_near Examples.stuck_destination []
           Examples.no_traffic [] Examples.stuck_source).
  reflexivity.
Defined.

Section AODVFurther.

Import Routing AODV.
#[local] Open Scope R_scope.

Variables (source destination : Location) (vehicles : Vehicles).

Lemma head_snoc (path : Route) (p q : Location) :
  head path = Some p → head (path ++ [q]) = Some p.
Proof. by destruct path. Qed.

Lemma neighbour_fold_head (current : Location) (path : Route) (vs : Vehicles)
    (visited : list Location) (queue : list (Location * Route)) :
  head path = Some source →
  Forall (λ entry : Location * Route, head entry.2 = Some source) queue →
  Forall (λ entry : Location * Route, head entry.2 = Some source)
    (foldl (neighbour_step current path) (visited, queue) vs).2.
Proof.
  intros Hpath. revert visited queue.
  induction vs as [|item vs IH]; intros visited queue Hq; simpl; [done|].
  unfold neighbour_step at 2. simpl. destruct (decide _); [|by apply IH].
  apply IH. apply Forall_app. split; [done|]. constructor; [|done].
  simpl. by apply head_snoc.
Qed.

Lemma discover_loop_ends (fuel : nat) (queue : list (Location * Route))
    (visited : list Location) (routes discovered : list (Route * Route)) :
  discover_loop fuel destination vehicles queue visited routes
    = Some discovered →
  Forall (λ entry : Location * Route, head entry.2 = Some source) queue →
  Forall (λ entry : Route * Route,
            head entry.2 = Some source ∧ last entry.2 = Some destination)
    routes →
  Forall (λ entry : Route * Route,
            head entry.2 = Some source ∧ last entry.2 = Some destination)
    discovered.
Proof.
  revert queue visited routes.
  induction fuel as [|fuel IH]; intros queue visited routes; [done|].
  simpl. destruct queue as [|[current path] queue]; [by intros [= <-]|].
  intros Hloop Hq Hr. apply Forall_cons in Hq as [Hpath Hq]. simpl in Hpath.
  destruct (decide _).
  - eapply IH; [done|done|].
    apply dict_set_Forall; [|done]. intros k'. simpl.
    split; [by apply head_snoc|by rewrite last_snoc].
  - eapply IH; [done| |done]. by apply neighbour_fold_head.
Qed.

(** X21. A freshly discovered route connects its ends. On a cache miss the
    flood-discovery strategy's [find_route] returns, given fuel for two more
    iterations than there are snapshot entries (or more), and its answer is
    either a route that starts at the source, ends at the destination and has
    every link within [MAX_V2V_RANGE], the last one included, which is then
    stored in the cache under the key of the request; or the direct pair
    source, destination that [find_route] falls back to when the flood
    discovers no route, and then the cache is left as it is. *)
Theorem aodv_discovered_route_connects (route_cache : RouteCache)
    (traffic_data : Traffic) (extra : nat) :
  dict_get (route_key source destination) route_cache = None →
  ∃ route route_cache',
    find_route (S (S (length vehicles)) + extra) route_cache source destination
      vehicles traffic_data = Some (route, route_cache') ∧
    ((connects source destination route
      ∧ route_cache'
        = dict_set (route_key source destination) route route_cache)
     ∨ (route = [source; destination] ∧ route_cache' = route_cache)).
Proof.
  intros Hmiss. unfold find_route. rewrite Hmiss.
  set (fuel := (S (S (length vehicles)) + extra)%nat).
  unfold _discover_route.
  destruct (discover_loop_total destination vehicles fuel [(source, [source])]
              [_location_to_key source] []) as (d & Hloop & Hd).
  { simpl. pose proof (length_filter
      (λ item : string * Vehicle,
         location item.2 ∉ [_location_to_key source]) vehicles).
    unfold unvisited, fuel. lia. }
  { constructor; [|done]. simpl. split; [done|]. intros i p q Hp Hq.
    destruct i; done. }
  { by constructor. }
  pose proof (discover_loop_ends _ _ _ _ _ Hloop) as Hends.
  ospecialize (Hends _ _); [by constructor|by constructor|].
  rewrite Hloop. simpl.
  destruct (_select_best_route d vehicles) as [[|w r]|] eqn:Hsel; simpl.
  - eexists _, _. split; [done|]. by right.
  - eexists _, _. split; [done|]. left. split; [|done].
    unfold _select_best_route in Hsel. destruct d as [|e d]; [done|].
    apply foldl_best_route in Hsel as [|(e' & Hin & ->)]; [done|].
    unfold routes_ok in Hd. rewrite Forall_forall in Hd, Hends.
    destruct (Hends e' Hin) as [Hhead Hlast].
    split; [done|]. split; [done|]. by apply Hd.
  - eexists _, _. split; [done|]. by right.
Qed.

End AODVFurther.

Lemma aodv_discovered_route_connects_witness :
  AODV.find_route 3 [] Examples.hop_source Examples.hop_destination
    Examples.hop_vehicles Examples.no_traffic
    = Some (Examples.hop_route,
            [(Routing.route_key Examples.hop_source Examples.hop_destination,
              Examples.hop_route)]) ∧
  ∃ route route_cache',
    AODV.find_route (S (S (length Examples.hop_vehicles)) + 0) []
      Examples.hop_source Examples.hop_destination Examples.hop_vehicles
      Examples.no_traffic = Some (route, route_cache') ∧
    ((AODV.connects Examples.hop_source Examples.hop_destination route
      ∧ route_cache'
        = Routing.dict_set
            (Routing.route_key Examples.hop_source Examples.hop_destination)
            route [])
     ∨ (route = [Examples.hop_source; Examples.hop_destination]
        ∧ route_cache' = [])).
Proof.
  split; [apply aodv_hop_route|].
  apply (aodv_discovered_route_connects Examples.hop_source
           Examples.hop_destination Examples.hop_vehicles []
           Examples.no_traffic 0).
  reflexivity.
Defined.

Section AODVScores.

Import Routing AODV.
#[local] Open Scope R_scope.

Variable vehicles : Vehicles.

(** X22. When the destination is within [MAX_V2V_RANGE] of the source, the answer
    on a cache miss is the pair source, destination, whatever the snapshot,
    and it is cached. When it is not and the snapshot is empty, the answer is
    the same pair, as a fallback, and it is not cached. Fuel for two
    iterations of the flood is enough in both cases. *)
Theorem aodv_direct_answers (route_cache : RouteCache)
    (source destination : Location) (traffic_data : Traffic) (fuel : nat) :
  dict_get (route_key source destination) route_cache = None →
  (_distance source destination <= IZR Config.MAX_V2V_RANGE →
   find_route (S (S fuel)) route_cache source destination vehicles traffic_data
   = Some ([source; destination],
           dict_set (route_key source destination) [source; destination]
             route_cache)) ∧
  (_distance source destination > IZR Config.MAX_V2V_RANGE →
   find_route (S (S fuel)) route_cache source destination [] traffic_data
   = Some ([source; destination], route_cache)).
Proof.
  intros Hmiss. unfold find_route. rewrite Hmiss. unfold _discover_route.
  split; intros Hd; cbn [discover_loop].
  - rewrite decide_True by done. cbn [mbind option_bind app dict_set].
    unfold _select_best_route. cbn [foldl]. unfold best_route_step.
    cbn [fst snd]. unfold _calculate_route_score.
    rewrite decide_False by (simpl; lia). done.
  - rewrite decide_False by lra. done.
Qed.

Lemma link_stability_range (speed1 speed2 distance : R) :
  IZR Config.VEHICLE_MIN_VELOCITY <= speed1 <= IZR Config.VEHICLE_MAX_VELOCITY →
  IZR Config.VEHICLE_MIN_VELOCITY <= speed2 <= IZR Config.VEHICLE_MAX_VELOCITY →
  0 <= distance <= IZR Config.MAX_V2V_RANGE →
  0 <= _calculate_link_stability speed1 speed2 distance <= 1.
Proof.
  unfold _calculate_link_stability, normalized_speed,
    Config.VEHICLE_MIN_VELOCITY, Config.VEHICLE_MAX_VELOCITY,
    Config.MAX_V2V_RANGE.
  intros H1 H2 Hd. unfold Rabs. destruct (Rcase_abs _); lra.
Qed.

Lemma foldl_nearest (loc : Location) (vs : Vehicles)
    (best : option R * option Vehicle) (v : Vehicle) :
  (foldl (nearest_step loc) best vs).2 = Some v →
  best.2 = Some v ∨ ∃ item : string * Vehicle, item ∈ vs ∧ v = item.2.
Proof.
  revert best. induction vs as [|item vs IH]; intros best Hf; [by left|].
  simpl in Hf. apply IH in Hf as [Hb|(it & Hin & ->)].
  - unfold nearest_step in Hb. destruct best.1.
    + destruct (decide _); [|by left]. simpl in Hb. injection Hb as <-.
      right. exists item. split; [left|done].
    + simpl in Hb. injection Hb as <-. right. exists item. split; [left|done].
  - right. exists it. split; [by right|done].
Qed.

Lemma stability_scores_range (route : Route) :
  Forall (λ item : string * Vehicle,
            IZR Config.VEHICLE_MIN_VELOCITY <= speed item.2
              <= IZR Config.VEHICLE_MAX_VELOCITY) vehicles →
  links_in_range route →
  Forall (λ score, 0 <= score <= 1) (stability_scores route vehicles).
Proof.
  intros Hspeed. rewrite Forall_forall in Hspeed.
  induction route as [|current rest IH]; intros Hlinks; [done|].
  destruct rest as [|next_hop rest]; [done|].
  cbn [stability_scores]. apply Forall_app. split.
  - destruct (_find_nearest_vehicle current vehicles) as [v1|] eqn:H1; [|done].
    destruct (_find_nearest_vehicle next_hop vehicles) as [v2|] eqn:H2; [|done].
    apply foldl_nearest in H1 as [|(i1 & Hin1 & ->)]; [done|].
    apply foldl_nearest in H2 as [|(i2 & Hin2 & ->)]; [done|].
    constructor; [|done]. apply link_stability_range; [by apply Hspeed..|].
    split; [apply _distance_nonneg|]. by apply (Hlinks 0%nat).
  - apply IH. intros i p q Hp Hq. by apply (Hlinks (S i)).
Qed.

Lemma foldl_Rmin_range (scores : list R) (s : R) :
  0 <= s <= 1 → Forall (λ score, 0 <= score <= 1) scores →
  0 <= foldl Rmin s scores <= 1.
Proof.
  intros Hs Hall. revert s Hs. induction Hall as [|x l Hx Hl IH]; intros s Hs;
    [done|].
  simpl. apply IH. unfold Rmin. by destruct (Rle_dec _ _).
Qed.

(** X23. The score of a route is a fraction. For a route of at least two waypoints
    whose links are all within [MAX_V2V_RANGE], scored against a snapshot
    whose speeds are all between [VEHICLE_MIN_VELOCITY] and
    [VEHICLE_MAX_VELOCITY], [_calculate_route_score] is positive and at most
    1, and the stability of the route lies between 0 and 1. *)
Theorem aodv_route_score_is_a_fraction (route : Route) :
  (2 ≤ length route)%nat →
  links_in_range route →
  Forall (λ item : string * Vehicle,
            IZR Config.VEHICLE_MIN_VELOCITY <= speed item.2
              <= IZR Config.VEHICLE_MAX_VELOCITY) vehicles →
  0 <= _calculate_route_stability route vehicles <= 1 ∧
  ∃ score, _calculate_route_score route vehicles = Some score ∧
           0 < score <= 1.
Proof.
  intros Hlen Hlinks Hspeed.
  assert (0 <= _calculate_route_stability route vehicles <= 1) as Hstab.
  { unfold _calculate_route_stability.
    pose proof (stability_scores_range route Hspeed Hlinks) as Hall.
    destruct (stability_scores route vehicles) as [|s scores]; [lra|].
    apply Forall_cons in Hall as [Hs Hall]. by apply foldl_Rmin_range. }
  split; [done|]. unfold _calculate_route_score.
  rewrite decide_False by lia. eexists. split; [done|].
  assert (1 <= INR (length route) - 1) as Hn.
  { apply le_INR in Hlen. simpl in Hlen. lra. }
  assert (0 < 1 / (INR (length route) - 1) <= 1) as Hhop.
  { split.
    - apply Rdiv_lt_0_compat; lra.
    - apply Rmult_le_reg_r with (INR (length route) - 1); [lra|].
      unfold Rdiv. rewrite Rmult_assoc, Rinv_l by lra. lra. }
  lra.
Qed.

End AODVScores.

Lemma aodv_direct_answers_witness :
  ((Routing._distance Examples.near_source Examples.near_destination
    <= IZR Config.MAX_V2V_RANGE)%R →
   AODV.find_route 2 [] Examples.near_source Examples.near_destination
     Examples.relay_vehicles Examples.no_traffic
   = Some ([Examples.near_source; Examples.near_destination],
           Routing.dict_set
             (Routing.route_key Examples.near_source Examples.near_destination)
             [Examples.near_source; Examples.near_destination] [])) ∧
  ((Routing._distance Examples.near_source Examples.near_destination
    > IZR Config.MAX_V2V_RANGE)%R →
   AODV.find_route 2 [] Examples.near_source Examples.near_destination []
     Examples.no_traffic
   = Some ([Examples.near_source; Examples.near_destination], [])).
Proof.
  apply (aodv_direct_answers Examples.relay_vehicles [] Examples.near_source
           Examples.near_destination Examples.no_traffic 0).
  reflexivity.
Defined.

Lemma aodv_route_score_is_a_fraction_witness :
  (0 <= AODV._calculate_route_stability Examples.near_route
          Examples.relay_vehicles <= 1)%R ∧
  ∃ score,
    AODV._calculate_route_score Examples.near_route Examples.relay_vehicles
      = Some score ∧ (0 < score <= 1)%R.
Proof.
  apply (aodv_route_score_is_a_fraction Examples.relay_vehicles
           Examples.near_route).
  - simpl. lia.
  - intros i p q Hp Hq. destruct i as [|[|i]]; [|done|done].
    simpl in Hp, Hq. injection Hp as <-. injection Hq as <-.
    unfold Config.MAX_V2V_RANGE.
    distance_is Examples.near_source Examples.near_destination 50%R. lra.
  - repeat constructor; simpl;
      unfold Config.VEHICLE_MIN_VELOCITY, Config.VEHICLE_MAX_VELOCITY; lra.
Defined.

(** ** Properties of the vehicles and of the simulation *)

Section VehicleProperties.

Import Routing.
#[local] Open Scope R_scope.

Lemma clamp_range (x hi : R) : 0 <= hi → 0 <= Rmax 0 (Rmin x hi) <= hi.
Proof.
  intros Hhi. unfold Rmax, Rmin.
  destruct (Rle_dec x hi); destruct (Rle_dec 0 _); lra.
Qed.

Lemma clamp_step (x a hi : R) :
  0 <= x <= hi → (Rmax 0 (Rmin (x + a) hi) - x) ^ 2 <= a ^ 2.
Proof.
  intros Hx. unfold Rmax, Rmin.
  destruct (Rle_dec (x + a) hi); destruct (Rle_dec 0 _); nra.
Qed.

Lemma honest_update_position (v : VehicleNode.Vehicle) (timestep : R)
    (d : VehicleNode.Draws) :
  VehicleNode.is_malicious v = false →
  VehicleNode.update_position v timestep d
  = {| VehicleNode.id := VehicleNode.id v;
       VehicleNode.location :=
         {| loc_x :=
              Rmax 0
                (Rmin (loc_x (VehicleNode.location v)
                       + VehicleNode.speed v * 1000 / 3600
                         * cos (VehicleNode.radians (VehicleNode.direction v))
                         * timestep)
                      (IZR Config.NETWORK_LENGTH));
            loc_y :=
              Rmax 0
                (Rmin (loc_y (VehicleNode.location v)
                       + VehicleNode.speed v * 1000 / 3600
                         * sin (VehicleNode.radians (VehicleNode.direction v))
                         * timestep)
                      (IZR Config.NETWORK_WIDTH)) |};
       VehicleNode.speed := VehicleNode.speed v;
       VehicleNode.direction := VehicleNode.direction v;
       VehicleNode.neighbors := VehicleNode.neighbors v;
       VehicleNode.rsu_connections := VehicleNode.rsu_connections v;
       VehicleNode.is_malicious := false;
       VehicleNode.start_time := VehicleNode.start_time v;
       VehicleNode.has_socket := VehicleNode.has_socket v |}.
Proof. intros Hm. unfold VehicleNode.update_position. by rewrite Hm. Qed.

(** X24. An honest vehicle is not flagged for the way it moves. A vehicle that is
    not malicious, lies within the network bounds and drives at no more than
    1.5 times [VEHICLE_MAX_VELOCITY] is again within the network bounds after
    [update_position], at the same speed; and the beacon it then broadcasts
    passes the speed check, the geo-fence and the kinematic bound of
    [_update_vehicle_data] against a stored snapshot taken at its position
    and speed before the step, when the time the detector measures between
    the two is at least the timestep. *)
Theorem honest_vehicle_passes_movement_checks (v : VehicleNode.Vehicle)
    (timestep time_diff : R) (d : VehicleNode.Draws) (behavior_type : Z)
    (c : VehicleNode.BeaconClock) (prev_data : RSU.VehicleData) :
  VehicleNode.is_malicious v = false →
  0 <= loc_x (VehicleNode.location v) <= IZR Config.NETWORK_LENGTH →
  0 <= loc_y (VehicleNode.location v) <= IZR Config.NETWORK_WIDTH →
  0 <= VehicleNode.speed v <= IZR Config.VEHICLE_MAX_VELOCITY * 1.5 →
  RSU.location prev_data = VehicleNode.location v →
  RSU.speed prev_data = VehicleNode.speed v →
  0 <= timestep <= time_diff →
  ∃ v' data,
    VehicleNode.update_position v timestep d = v' ∧
    VehicleNode.beacon_message v' behavior_type c = data ∧
    0 <= loc_x (VehicleNode.location v') <= IZR Config.NETWORK_LENGTH ∧
    0 <= loc_y (VehicleNode.location v') <= IZR Config.NETWORK_WIDTH ∧
    VehicleNode.speed v' = VehicleNode.speed v ∧
    RSU.speed_check data = false ∧
    RSU.movement_check prev_data data time_diff = false ∧
    RSU.bounds_check data = false.
Proof.
  intros Hm Hx Hy Hs Hloc Hspeed Ht.
  eexists _, _. split; [done|]. split; [done|].
  rewrite (honest_update_position v timestep d Hm).
  unfold VehicleNode.beacon_message. cbn [VehicleNode.is_malicious].
  cbn [VehicleNode.location VehicleNode.speed loc_x loc_y].
  set (s := VehicleNode.speed v * 1000 / 3600).
  set (θ := VehicleNode.radians (VehicleNode.direction v)).
  pose proof (clamp_range (loc_x (VehicleNode.location v) + s * cos θ * timestep)
                (IZR Config.NETWORK_LENGTH)) as Hcx.
  pose proof (clamp_range (loc_y (VehicleNode.location v) + s * sin θ * timestep)
                (IZR Config.NETWORK_WIDTH)) as Hcy.
  unfold Config.NETWORK_LENGTH, Config.NETWORK_WIDTH,
    Config.VEHICLE_MAX_VELOCITY in *.
  ospecialize (Hcx _); [lra|]. ospecialize (Hcy _); [lra|].
  split; [done|]. split; [done|]. split; [done|].
  split; [|split].
  - unfold RSU.speed_check. cbn [RSU.speed].
    apply bool_decide_eq_false_2. unfold Config.VEHICLE_MAX_VELOCITY. lra.
  - unfold RSU.movement_check. cbn [RSU.location]. rewrite Hloc, Hspeed.
    apply bool_decide_eq_false_2. apply Rle_not_gt.
    fold s. assert (0 <= s) as Hs0 by (unfold s; lra).
    apply _distance_le_iff; [nra|]. cbn [loc_x loc_y].
    pose proof (clamp_step (loc_x (VehicleNode.location v))
                  (s * cos θ * timestep) 3000 Hx) as Hdx.
    pose proof (clamp_step (loc_y (VehicleNode.location v))
                  (s * sin θ * timestep) 3000 Hy) as Hdy.
    pose proof (sin2_cos2 θ) as Hsc. unfold Rsqr in Hsc.
    assert ((s * cos θ * timestep) ^ 2 + (s * sin θ * timestep) ^ 2
            = (s * timestep) ^ 2) as Hnorm.
    { replace ((s * cos θ * timestep) ^ 2 + (s * sin θ * timestep) ^ 2)
        with ((s * timestep) ^ 2 * (sin θ * sin θ + cos θ * cos θ)) by ring.
      rewrite Hsc. ring. }
    assert ((s * timestep) ^ 2 <= (s * time_diff * 1.2) ^ 2) as Hle.
    { assert (0 <= s * timestep) by nra.
      assert (s * timestep <= s * time_diff * 1.2) by nra.
      nra. }
    lra.
  - unfold RSU.bounds_check. cbn [RSU.location loc_x loc_y].
    apply bool_decide_eq_false_2. unfold Config.NETWORK_LENGTH,
      Config.NETWORK_WIDTH. lra.
Qed.

(** X25. A malicious vehicle of behaviour type 0 or 2 is flagged at every beacon
    the detector evaluates. The beacon [broadcast_beacon] builds for a
    malicious vehicle reports 2.5 times [VEHICLE_MAX_VELOCITY] when the
    behaviour type is 0, which fails the speed check, and an x coordinate of
    -50 or [NETWORK_LENGTH] + 50 when it is 2, which fails the geo-fence:
    [is_suspicious] holds whatever the detector has stored. *)
Theorem malicious_beacon_is_flagged (v : VehicleNode.Vehicle)
    (behavior_type : Z) (c : VehicleNode.BeaconClock) (rsu : RSU.State)
    (bc : Ledger.Blockchain R) (prev_data : RSU.VehicleData)
    (current_time : R) :
  VehicleNode.is_malicious v = true →
  (behavior_type = 0%Z →
   RSU.speed_check (VehicleNode.beacon_message v behavior_type c) = true ∧
   RSU.is_suspicious rsu bc prev_data
     (VehicleNode.beacon_message v behavior_type c) current_time = true) ∧
  (behavior_type = 2%Z →
   RSU.bounds_check (VehicleNode.beacon_message v behavior_type c) = true ∧
   RSU.is_suspicious rsu bc prev_data
     (VehicleNode.beacon_message v behavior_type c) current_time = true).
Proof.
  intros Hm. unfold RSU.is_suspicious, VehicleNode.beacon_message.
  rewrite Hm. split; intros ->.
  - assert (RSU.speed_check
              {| RSU.msg_type := "beacon"; RSU.vehicle_id := VehicleNode.id v;
                 RSU.location := VehicleNode.location v;
                 RSU.speed := IZR Config.VEHICLE_MAX_VELOCITY * 2.5;
                 RSU.direction := VehicleNode.direction v;
                 RSU.timestamp := VehicleNode.t_message c;
                 RSU.sees_accident :=
                   Some match VehicleNode._get_nearby_vehicles_accident_reports
                                v (VehicleNode.t_reports c) with
                        | Some report => negb report
                        | None =>
                            negb (VehicleNode._check_accident_visibility v
                                    (VehicleNode.t_visibility c))
                        end;
                 RSU.port := None |} = true) as Hcheck.
    { unfold RSU.speed_check. cbn [RSU.speed].
      apply bool_decide_eq_true_2. unfold Config.VEHICLE_MAX_VELOCITY. lra. }
    rewrite !decide_True by done. by rewrite Hcheck.
  - rewrite !decide_False by done.
    match goal with
    | |- RSU.bounds_check ?m = true ∧ _ =>
        assert (RSU.bounds_check m = true) as Hcheck
    end.
    { unfold RSU.bounds_check. cbn [RSU.location loc_x loc_y].
      apply bool_decide_eq_true_2. unfold Config.NETWORK_LENGTH.
      destruct (decide _); [left; lra|right; left; lra]. }
    rewrite Hcheck. split; [done|]. by rewrite orb_true_r.
Qed.

Lemma handle_message_neighbors (v v' : VehicleNode.Vehicle)
    (message : VehicleNode.Message) (now : R) :
  VehicleNode._handle_message v message now = Some v' →
  Forall (λ entry : string * VehicleNode.Neighbor,
            VehicleNode.nb_sees_accident entry.2 = None
            ∧ VehicleNode.nb_port entry.2 = None) (VehicleNode.neighbors v) →
  Forall (λ entry : string * VehicleNode.Neighbor,
            VehicleNode.nb_sees_accident entry.2 = None
            ∧ VehicleNode.nb_port entry.2 = None) (VehicleNode.neighbors v').
Proof.
  destruct message as [data|rsu_id loc td t| |]; simpl; intros [= <-]; simpl;
    [|done|done].
  intros Hall. by apply dict_set_Forall.
Qed.

Lemma listen_neighbors (v : VehicleNode.Vehicle)
    (incoming : list (option VehicleNode.Message * R)) :
  Forall (λ entry : string * VehicleNode.Neighbor,
            VehicleNode.nb_sees_accident entry.2 = None
            ∧ VehicleNode.nb_port entry.2 = None) (VehicleNode.neighbors v) →
  Forall (λ entry : string * VehicleNode.Neighbor,
            VehicleNode.nb_sees_accident entry.2 = None
            ∧ VehicleNode.nb_port entry.2 = None)
    (VehicleNode.neighbors (VehicleNode._listen v incoming)).
Proof.
  revert v. induction incoming as [|[[message|] now] rest IH]; intros v Hv;
    simpl; [done| |done].
  destruct (VehicleNode._handle_message v message now) as [v'|] eqn:Hh;
    [|done].
  apply IH. by eapply handle_message_neighbors.
Qed.

(** X26. Vehicles never reach their neighbours. [_handle_message] stores neither
    the port nor the accident flag of the sender of a beacon. So for a vehicle
    whose neighbour table has been filled by its listener, starting empty,
    and whatever its other attributes have become since: every attempt of
    [_broadcast] to send to a neighbour raises and is logged, none sends a
    datagram; [_get_nearby_vehicles_accident_reports] answers [None]; and
    the accident flag in the beacon of a malicious vehicle is the negation of
    what the vehicle itself sees. *)
Theorem vehicle_never_reaches_a_neighbour (v0 v : VehicleNode.Vehicle)
    (incoming : list (option VehicleNode.Message * R)) :
  VehicleNode.neighbors v0 = [] →
  VehicleNode.neighbors v
    = VehicleNode.neighbors (VehicleNode._listen v0 incoming) →
  Forall (λ attempt : string * option Z, attempt.2 = None)
    (VehicleNode._broadcast v) ∧
  (∀ clock, VehicleNode._get_nearby_vehicles_accident_reports v clock = None) ∧
  (∀ behavior_type c,
     VehicleNode.is_malicious v = true →
     RSU.sees_accident (VehicleNode.beacon_message v behavior_type c)
     = Some (negb (VehicleNode._check_accident_visibility v
                     (VehicleNode.t_visibility c)))).
Proof.
  intros Hempty Hsame.
  pose proof (listen_neighbors v0 incoming) as Hall.
  rewrite Hempty in Hall. specialize (Hall (Forall_nil_2 _)).
  rewrite <- Hsame in Hall. clear Hsame Hempty.
  assert (∀ clock,
            VehicleNode._get_nearby_vehicles_accident_reports v clock = None)
    as Hreports.
  { intros clock. unfold VehicleNode._get_nearby_vehicles_accident_reports.
    assert (∀ (l : list (string * VehicleNode.Neighbor)) (f : nat → R),
              Forall (λ entry : string * VehicleNode.Neighbor,
                        VehicleNode.nb_sees_accident entry.2 = None
                        ∧ VehicleNode.nb_port entry.2 = None) l →
              omap (λ report : option bool, report)
                (imap (λ (i : nat) (entry : string * VehicleNode.Neighbor),
                         if decide (f i - default 0
                                            (VehicleNode.last_seen entry.2) <= 2)
                         then VehicleNode.nb_sees_accident entry.2 else None) l)
              = []) as Hnil.
    { intros l f Hl. revert f. induction Hl as [|e l [He _] Hl IH]; intros f;
        [done|].
      cbn [imap omap]. rewrite He. destruct (decide _); apply (IH (f ∘ S)). }
    by rewrite Hnil. }
  split; [|split; [done|]].
  - unfold VehicleNode._broadcast. destruct (VehicleNode.has_socket v); [|done].
    apply Forall_fmap. apply Forall_forall. intros e He.
    apply list_elem_of_filter in He as [_ He].
    rewrite Forall_forall in Hall. by destruct (Hall e He).
  - intros behavior_type c Hm. unfold VehicleNode.beacon_message.
    rewrite Hm. cbn [RSU.sees_accident]. by rewrite Hreports.
Qed.

(** X27. The listener of a vehicle ends at the first datagram it cannot handle. A
    datagram that does not decode, or a message of type [accident_alert]
    (whose handling calls a method the class does not define), ends the loop
    of [_listen]: the vehicle is left as it was before that datagram, and no
    datagram that arrives later is handled. *)
Theorem vehicle_listener_ends_at_accident_alert (v : VehicleNode.Vehicle)
    (pre post : list (option VehicleNode.Message * R))
    (datagram : option VehicleNode.Message * R) :
  datagram.1 = None ∨ datagram.1 = Some VehicleNode.AccidentAlert →
  VehicleNode._listen v (pre ++ datagram :: post) = VehicleNode._listen v pre.
Proof.
  intros Hd. revert v. induction pre as [|[[message|] now] pre IH]; intros v.
  - destruct datagram as [[message|] now]; simpl in *; [|done].
    destruct Hd as [|[= ->]]; done.
  - simpl. destruct (VehicleNode._handle_message v message now); [apply IH|done].
  - done.
Qed.

End VehicleProperties.

Section SimulationProperties.

#[local] Open Scope R_scope.

Lemma process_accident_decision_iff (n staying : nat) :
  (0 < n)%nat →
  VehicleNode.process_accident_decision n staying = true
  ↔ (2 * staying < n)%nat.
Proof.
  intros Hn. unfold VehicleNode.process_accident_decision.
  rewrite decide_True by done. rewrite bool_decide_eq_true.
  assert (0 < INR n) as Hpos by by apply lt_0_INR.
  split.
  - intros Hlt. apply INR_lt. rewrite mult_INR. simpl.
    apply (Rmult_lt_compat_r (INR n)) in Hlt; [|done].
    unfold Rdiv in Hlt. rewrite Rmult_assoc, Rinv_l in Hlt by lra. lra.
  - intros Hlt. apply lt_INR in Hlt. rewrite mult_INR in Hlt. simpl in Hlt.
    apply (Rmult_lt_reg_r (INR n)); [done|].
    unfold Rdiv. rewrite Rmult_assoc, Rinv_l by lra. lra.
Qed.

Lemma foldl_staying (n half : nat) (l : list VehicleNode.Vehicle)
    (staying : nat) :
  (0 < n)%nat → (n ≤ 2 * half ≤ n + 1)%nat → (staying ≤ half)%nat →
  foldl (λ (staying : nat) (vehicle : VehicleNode.Vehicle),
           if VehicleNode.process_accident_decision n staying
           then S staying else staying) staying l
  = Nat.min (staying + length l) half.
Proof.
  intros Hn Hhalf. revert staying. induction l as [|v l IH]; intros staying Hs.
  - cbn [foldl length]. lia.
  - cbn [foldl length].
    destruct (VehicleNode.process_accident_decision n staying) eqn:Hd.
    + apply process_accident_decision_iff in Hd; [|done].
      rewrite IH; lia.
    + assert (¬ (2 * staying < n)%nat) as Hge.
      { intros Hlt. apply process_accident_decision_iff in Hlt; [|done].
        congruence. }
      rewrite IH by done. lia.
Qed.

(** X28. Half of the affected vehicles stay, rounded up. When [_trigger_accident]
    has asked each vehicle within 500 m of the accident for its decision, in
    order, the number counted in [staying_on_route] is the number of those
    vehicles plus one, divided by two: the decisions depend only on the count
    so far, not on the vehicle asked. *)
Theorem half_of_affected_vehicles_stay
    (vehicles : list (string * VehicleNode.Vehicle)) :
  Simulation.staying_on_route vehicles
  = ((length (Simulation.affected_vehicles vehicles) + 1) / 2)%nat.
Proof.
  unfold Simulation.staying_on_route.
  set (affected := Simulation.affected_vehicles vehicles).
  set (n := length affected).
  pose proof (Nat.div_mod_eq (n + 1) 2) as Hdiv.
  pose proof (Nat.mod_upper_bound (n + 1) 2) as Hmod.
  destruct (decide (n = 0%nat)) as [Hz|Hnz].
  - assert (affected = []) as Hnil by by apply length_zero_iff_nil.
    rewrite Hz, Hnil. done.
  - rewrite (foldl_staying n ((n + 1) / 2) affected 0); lia.
Qed.

End SimulationProperties.

Lemma honest_vehicle_passes_movement_checks_witness :
  ∃ v' data,
    VehicleNode.update_position Examples.honest_vehicle 0.1
      Examples.position_draws = v' ∧
    VehicleNode.beacon_message v' 1 Examples.beacon_clock = data ∧
    (0 <= Routing.loc_x (VehicleNode.location v')
       <= IZR Config.NETWORK_LENGTH)%R ∧
    (0 <= Routing.loc_y (VehicleNode.location v')
       <= IZR Config.NETWORK_WIDTH)%R ∧
    VehicleNode.speed v' = VehicleNode.speed Examples.honest_vehicle ∧
    RSU.speed_check data = false ∧
    RSU.movement_check (Examples.beacon "V_0" 100 100 80 None 9) data 0.1
      = false ∧
    RSU.bounds_check data = false.
Proof.
  apply (honest_vehicle_passes_movement_checks Examples.honest_vehicle 0.1 0.1
           Examples.position_draws 1 Examples.beacon_clock
           (Examples.beacon "V_0" 100 100 80 None 9)).
  - reflexivity.
  - simpl. unfold Config.NETWORK_LENGTH. lra.
  - simpl. unfold Config.NETWORK_WIDTH. lra.
  - simpl. unfold Config.VEHICLE_MAX_VELOCITY. lra.
  - reflexivity.
  - reflexivity.
  - lra.
Defined.

Lemma malicious_beacon_is_flagged_witness :
  (0%Z = 0%Z →
   RSU.speed_check
     (VehicleNode.beacon_message Examples.malicious_vehicle 0
        Examples.beacon_clock) = true ∧
   RSU.is_suspicious Examples.lone_state Examples.fresh_ledger
     (Examples.beacon "V_0" 100 100 80 None 9)
     (VehicleNode.beacon_message Examples.malicious_vehicle 0
        Examples.beacon_clock) 10 = true) ∧
  (0%Z = 2%Z →
   RSU.bounds_check
     (VehicleNode.beacon_message Examples.malicious_vehicle 0
        Examples.beacon_clock) = true ∧
   RSU.is_suspicious Examples.lone_state Examples.fresh_ledger
     (Examples.beacon "V_0" 100 100 80 None 9)
     (VehicleNode.beacon_message Examples.malicious_vehicle 0
        Examples.beacon_clock) 10 = true).
Proof.
  apply (malicious_beacon_is_flagged Examples.malicious_vehicle 0
           Examples.beacon_clock Examples.lone_state Examples.fresh_ledger
           (Examples.beacon "V_0" 100 100 80 None 9) 10).
  reflexivity.
Defined.

Lemma vehicle_never_reaches_a_neighbour_witness :
  Forall (λ attempt : string * option Z, attempt.2 = None)
    (VehicleNode._broadcast
       (VehicleNode._listen Examples.malicious_vehicle
          [(Some (VehicleNode.Beacon Examples.peer_update), 10%R)])) ∧
  (∀ clock,
     VehicleNode._get_nearby_vehicles_accident_reports
       (VehicleNode._listen Examples.malicious_vehicle
          [(Some (VehicleNode.Beacon Examples.peer_update), 10%R)]) clock
     = None) ∧
  (∀ behavior_type c,
     VehicleNode.is_malicious
       (VehicleNode._listen Examples.malicious_vehicle
          [(Some (VehicleNode.Beacon Examples.peer_update), 10%R)]) = true →
     RSU.sees_accident
       (VehicleNode.beacon_message
          (VehicleNode._listen Examples.malicious_vehicle
             [(Some (VehicleNode.Beacon Examples.peer_update), 10%R)])
          behavior_type c)
     = Some (negb (VehicleNode._check_accident_visibility
                     (VehicleNode._listen Examples.malicious_vehicle
                        [(Some (VehicleNode.Beacon Examples.peer_update),
                          10%R)])
                     (VehicleNode.t_visibility c)))).
Proof.
  apply (vehicle_never_reaches_a_neighbour Examples.malicious_vehicle
           (VehicleNode._listen Examples.malicious_vehicle
              [(Some (VehicleNode.Beacon Examples.peer_update), 10%R)])
           [(Some (VehicleNode.Beacon Examples.peer_update), 10%R)]).
  - reflexivity.
  - reflexivity.
Defined.

Lemma vehicle_listener_ends_at_accident_alert_witness :
  VehicleNode._listen Examples.honest_vehicle
    ([(Some (VehicleNode.Beacon Examples.peer_update), 10%R)]
     ++ (Some VehicleNode.AccidentAlert, 11%R)
        :: [(Some (VehicleNode.Beacon Examples.lone_update), 12%R)])
  = VehicleNode._listen Examples.honest_vehicle
      [(Some (VehicleNode.Beacon Examples.peer_update), 10%R)].
Proof.
  apply (vehicle_listener_ends_at_accident_alert Examples.honest_vehicle
           [(Some (VehicleNode.Beacon Examples.peer_update), 10%R)]
           [(Some (VehicleNode.Beacon Examples.lone_update), 12%R)]
           (Some VehicleNode.AccidentAlert, 11%R)).
  by right.
Defined.

Section SimulationCounters.

Import Routing Simulation.
#[local] Open Scope R_scope.

(** X29. The draw of [num_malicious] in [initialize_network] is well formed. For a
    number of vehicles between [MIN_VEHICLES] and [MAX_VEHICLES], the upper
    bound of the draw is at least its lower bound, 3, and at most 6; and
    every number in the range of the draw is at most the number of vehicles
    (so [random.sample] does not raise) and leaves at least 5 vehicles
    honest. *)
Theorem malicious_count_bounds (num_vehicles : Z) :
  (Config.MIN_VEHICLES ≤ num_vehicles ≤ Config.MAX_VEHICLES)%Z →
  (min_malicious ≤ max_malicious num_vehicles ≤ 6)%Z ∧
  ∀ num_malicious : Z,
    (min_malicious ≤ num_malicious ≤ max_malicious num_vehicles)%Z →
    (3 ≤ num_malicious ≤ num_vehicles)%Z ∧
    (5 ≤ num_vehicles - num_malicious)%Z.
Proof.
  unfold Config.MIN_VEHICLES, Config.MAX_VEHICLES, max_malicious, min_malicious.
  intros Hn.
  assert (0 ≤ Int_part (0.06 * IZR num_vehicles) ≤ 6)%Z as Hint.
  { destruct (base_Int_part (0.06 * IZR num_vehicles)) as [Hle Hgt].
    assert (11 <= IZR num_vehicles <= 101) as Hr
      by (split; apply IZR_le; lia).
    assert (-1 < IZR (Int_part (0.06 * IZR num_vehicles)) < 7) as [Hlo Hhi]
      by lra.
    apply lt_IZR in Hlo, Hhi. lia. }
  split; [lia|]. intros num_malicious Hk. lia.
Qed.

(** What the counters of a round keep: every message counted is counted as
    delivered, and each delay list has one entry per message of its kind. *)
#[local] Abbreviation counted m :=
  (successful_deliveries m = total_messages m
   ∧ total_messages m = Nat.add (total_v2v_messages m) (total_v2i_messages m)
   ∧ length (v2v_delays m) = total_v2v_messages m
   ∧ length (v2i_delays m) = total_v2i_messages m).

Lemma count_v2v_counted (draws : nat → R) (m : Metrics) :
  counted m → counted (count_v2v draws m).
Proof. intros (H1 & H2 & H3 & H4). simpl. rewrite length_app. simpl. lia. Qed.

Lemma count_v2i_counted (draws : nat → R) (m : Metrics) :
  counted m → counted (count_v2i draws m).
Proof. intros (H1 & H2 & H3 & H4). simpl. rewrite length_app. simpl. lia. Qed.

Lemma foldl_counted {A} (f : Metrics → A → Metrics) (l : list A) (m : Metrics) :
  (∀ m a, counted m → counted (f m a)) → counted m → counted (foldl f m l).
Proof.
  intros Hf. revert m. induction l as [|a l IH]; intros m Hm; [done|].
  simpl. apply IH. by apply Hf.
Qed.

Lemma _check_vehicle_communications_counted
    (vehicles : list (string * VehicleNode.Vehicle))
    (rsus : list (string * Location)) (malicious_vehicles : gset string)
    (draws : nat → R) (m : Metrics) :
  counted m →
  counted (_check_vehicle_communications vehicles rsus malicious_vehicles
             draws m).
Proof.
  unfold _check_vehicle_communications. apply foldl_counted.
  intros m1 entry Hm1. destruct (decide _); [done|].
  apply foldl_counted.
  { intros m2 rsu Hm2. destruct (_is_in_range _ _ _); [|done].
    by apply count_v2i_counted. }
  apply foldl_counted; [|done].
  intros m2 other Hm2. destruct (decide _); [|done].
  destruct (_is_in_range _ _ _); [|done]. by apply count_v2v_counted.
Qed.

(** X30. Every message counted is counted as delivered. After any number of calls
    of [_check_vehicle_communications] from the initial metrics, whatever the
    vehicles, the road-side units, the malicious set and the delays drawn at
    each call, [successful_deliveries] equals [total_messages], which is the
    sum of the V2V and the V2I counters; each delay list has one entry per
    message of its kind; and the delivery ratio reported is 1 as soon as a
    message has been counted, 0 before. *)
Theorem delivery_ratio_is_always_one (draws : nat → R) (rounds : list Round) :
  ∃ m, run_rounds draws rounds initial_metrics = m ∧
    successful_deliveries m = total_messages m ∧
    total_messages m = (total_v2v_messages m + total_v2i_messages m)%nat ∧
    length (v2v_delays m) = total_v2v_messages m ∧
    length (v2i_delays m) = total_v2i_messages m ∧
    delivery_ratio m = if decide (0 < total_messages m)%nat then 1 else 0.
Proof.
  eexists. split; [done|].
  assert (counted (run_rounds draws rounds initial_metrics))
    as (H1 & H2 & H3 & H4).
  { unfold run_rounds. apply foldl_counted; [|done].
    intros m r Hm. by apply _check_vehicle_communications_counted. }
  split; [done|]. split; [done|]. split; [done|]. split; [done|].
  unfold delivery_ratio. rewrite H1. destruct (decide _) as [Hpos|]; [|done].
  apply lt_INR in Hpos. simpl in Hpos. unfold Rdiv. rewrite Rinv_r; lra.
Qed.

End SimulationCounters.

Lemma malicious_count_bounds_witness :
  (Simulation.min_malicious ≤ Simulation.max_malicious 50 ≤ 6)%Z ∧
  ∀ num_malicious : Z,
    (Simulation.min_malicious ≤ num_malicious
       ≤ Simulation.max_malicious 50)%Z →
    (3 ≤ num_malicious ≤ 50)%Z ∧ (5 ≤ 50 - num_malicious)%Z.
Proof.
  apply (malicious_count_bounds 50).
  unfold Config.MIN_VEHICLES, Config.MAX_VEHICLES. lia.
Defined.
